(** * Receipt Vault: rule-based extraction, duplicate detection and validation

    A shallow embedding of the two Streamlit programs of the repository,
    [app.py] (rule-based extraction, SQLite vault, reconciliation view) and
    [Milestone 2/main.py] (LLM extraction, duplicate count, validation rules),
    with the properties their specification states about them.

    Conventions of the embedding:
    - a Python [str] is a [list ascii]; a character is read as the code point
      of the same number, so the texts covered are those of code points
      0..255, and the character classes below ([\s], [\d], [str.lower],
      [str.strip]) are the ones CPython uses on that range;
    - a Python [float] is a binary64 number, Rocq's primitive [float], with
      the same round-to-nearest-even operations;
    - [re] patterns are abstract syntax trees run by a backtracking matcher
      that tries alternatives and repetition counts in the order [re] does;
    - the SQLite file is a record of two tables threaded through the
      functions that open a connection; the wall clock is an argument. *)

From Stdlib Require Import Ascii String List Bool Arith ZArith NArith Lia.
From Stdlib Require Import DecimalString DecimalPos DecimalN DecimalNat.
From Stdlib Require Import Floats Sorted Permutation.
Import ListNotations.
Local Open Scope list_scope.

Set Implicit Arguments.

(** ** Characters and strings *)

Definition str := list ascii.

(** A literal of the source, as a [str]. *)
Definition lit (s : string) : str := list_ascii_of_string s.

Definition code (c : ascii) : nat := nat_of_ascii c.

(** [str.isspace] on one character, which is also the class [\s] of [re]. *)
Definition is_space (c : ascii) : bool :=
  let n := code c in
  ((9 <=? n) && (n <=? 13)) || ((28 <=? n) && (n <=? 32))
  || (n =? 133) || (n =? 160).

(** The class [\d] of [re]: the decimal digits. *)
Definition is_digit (c : ascii) : bool :=
  let n := code c in (48 <=? n) && (n <=? 57).

(** [str.lower] on one character. *)
Definition lower_char (c : ascii) : ascii :=
  let n := code c in
  if ((65 <=? n) && (n <=? 90))
     || ((192 <=? n) && (n <=? 222) && negb (n =? 215))
  then ascii_of_nat (n + 32) else c.

Definition lower (s : str) : str := map lower_char s.

Definition str_eqb (a b : str) : bool :=
  if list_eq_dec ascii_dec a b then true else false.

(** [s.lstrip()], [s.rstrip()] and [s.strip()]. *)
Fixpoint lstrip (s : str) : str :=
  match s with
  | c :: s' => if is_space c then lstrip s' else s
  | [] => []
  end.

Definition rstrip (s : str) : str := rev (lstrip (rev s)).

Definition strip (s : str) : str := rstrip (lstrip s).

(** [s.startswith(p)]. *)
Fixpoint startswith (p s : str) : bool :=
  match p, s with
  | [], _ => true
  | a :: p', b :: s' => Ascii.eqb a b && startswith p' s'
  | _ :: _, [] => false
  end.

(** [x in s] for strings: [x] occurs in [s] as a substring. *)
Fixpoint contains (x s : str) : bool :=
  startswith x s ||
  match s with
  | [] => false
  | _ :: s' => contains x s'
  end.

(** [text.split('\n')]: the pieces between line feeds, at least one piece. *)
Fixpoint split_on (sep : ascii) (s : str) : list str :=
  match s with
  | [] => [[]]
  | c :: s' =>
      if Ascii.eqb c sep then [] :: split_on sep s'
      else match split_on sep s' with
           | l :: ls => (c :: l) :: ls
           | [] => [[c]]
           end
  end.

Definition LF : ascii := ascii_of_nat 10.

Definition split_lines (text : str) : list str := split_on LF text.

(** [s.replace(',', '')]. *)
Definition remove_commas (s : str) : str :=
  filter (fun c => negb (Ascii.eqb c ","%char)) s.

(** [s[:n]] and [s[n:]] for [0 <= n]. *)
Definition slice_to (n : nat) (s : str) : str := firstn n s.
Definition slice_from (n : nat) (s : str) : str := skipn n s.

(** ** Regular expressions

    The constructs the patterns of the source use.  A repetition is always
    over a one-character set, as in the source. *)

Definition charset := ascii -> bool.

Inductive regex : Type :=
| Chr (p : charset)                          (* one character of a set *)
| Seq (r1 r2 : regex)                        (* r1 r2 *)
| Alt (r1 r2 : regex)                        (* r1|r2, left first *)
| Rep (p : charset) (lo : nat) (hi : option nat)  (* greedy p{lo,hi} *)
| Group (r : regex)                          (* ( r ), the group 1 *)
| Bol                                        (* ^ *)
| Eol                                        (* $ *)
| Eps.

(** A match object: [start()], [end()], and [group(1)] when the group took
    part in the match. *)
Record match_obj : Type := MatchObj {
  m_start : nat;
  m_end : nat;
  m_group1 : option str
}.

Section Matcher.
Variable R : Type.

(** Greedy repetition of a one-character set: take as many characters as
    allowed, and give them back one at a time while the rest fails. *)
Fixpoint rep (p : charset) (lo : nat) (hi : option nat) (pos : nat)
         (s : str) (k : nat -> str -> option R) {struct s} : option R :=
  let stop := match lo with O => k pos s | S _ => None end in
  match hi with
  | Some O => stop
  | _ =>
      match s with
      | c :: s' =>
          if p c then
            match rep p (pred lo) (option_map pred hi) (S pos) s' k with
            | Some x => Some x
            | None => stop
            end
          else stop
      | [] => stop
      end
  end.

(** [$] without [re.MULTILINE]: at the end, or before a final line feed. *)
Definition at_eol (s : str) : bool :=
  match s with
  | [] => true
  | [c] => Ascii.eqb c LF
  | _ => false
  end.

(** The matcher, in continuation-passing style: [k] is the rest of the
    pattern, and its failure makes the construct try its next choice. *)
Fixpoint run (r : regex) (pos : nat) (s : str) (g : option str)
         (k : nat -> str -> option str -> option R) : option R :=
  match r with
  | Chr p =>
      match s with
      | c :: s' => if p c then k (S pos) s' g else None
      | [] => None
      end
  | Seq r1 r2 => run r1 pos s g (fun pos' s' g' => run r2 pos' s' g' k)
  | Alt r1 r2 =>
      match run r1 pos s g k with
      | Some x => Some x
      | None => run r2 pos s g k
      end
  | Rep p lo hi => rep p lo hi pos s (fun pos' s' => k pos' s' g)
  | Group r1 =>
      run r1 pos s g
          (fun pos' s' _ => k pos' s' (Some (firstn (pos' - pos) s)))
  | Bol => if pos =? 0 then k pos s g else None
  | Eol => if at_eol s then k pos s g else None
  | Eps => k pos s g
  end.
End Matcher.

(** A match of [r] that starts at position [pos], where [s] is the text from
    [pos] on.  With [must_advance] an empty match is refused. *)
Definition match_at (r : regex) (must_advance : bool) (pos : nat) (s : str)
  : option match_obj :=
  run r pos s None
      (fun pos' _ g =>
         if must_advance && (pos' =? pos) then None
         else Some (MatchObj pos pos' g)).

(** [re.match(r, s)]. *)
Definition re_match (r : regex) (s : str) : option match_obj :=
  match_at r false 0 s.

(** [re.search(r, s)]: the match at the leftmost position that has one. *)
Fixpoint search_from (r : regex) (pos : nat) (s : str) : option match_obj :=
  match match_at r false pos s with
  | Some m => Some m
  | None =>
      match s with
      | [] => None
      | _ :: s' => search_from r (S pos) s'
      end
  end.

Definition re_search (r : regex) (s : str) : option match_obj :=
  search_from r 0 s.

(** [m.group(0)] of a match in [s]. *)
Definition group0 (s : str) (m : match_obj) : str :=
  firstn (m_end m - m_start m) (skipn (m_start m) s).

(** What [re.findall] lists for a match of a pattern with one group. *)
Definition findall_item (m : match_obj) : str :=
  match m_group1 m with Some g => g | None => [] end.

(** [re.findall(r, s)] for a pattern with one group: the matches from left
    to right without overlap.  [skip] counts the characters still covered by
    the previous match; after an empty match the next one at the same
    position must be non-empty. *)
Fixpoint findall_from (r : regex) (pos : nat) (s : str) (skip : nat)
  : list str :=
  let next k :=
    match s with
    | [] => []
    | _ :: s' => findall_from r (S pos) s' k
    end in
  match skip with
  | S k => next k
  | O =>
      match match_at r false pos s with
      | None => next 0
      | Some m =>
          if m_end m =? pos then
            findall_item m ::
              match match_at r true pos s with
              | Some m' => findall_item m' :: next (m_end m' - pos - 1)
              | None => next 0
              end
          else findall_item m :: next (m_end m - pos - 1)
      end
  end.

Definition re_findall (r : regex) (s : str) : list str :=
  findall_from r 0 s 0.

(** *** Pattern syntax of the source *)

(** A literal character; under [(?i)] a character matches when the two
    have the same lower case. *)
Definition one (c : ascii) : regex := Chr (Ascii.eqb c).
Definition one_ci (c : ascii) : regex :=
  Chr (fun x => Ascii.eqb (lower_char x) (lower_char c)).

Fixpoint word_ci (w : str) : regex :=
  match w with
  | [] => Eps
  | [c] => one_ci c
  | c :: w' => Seq (one_ci c) (word_ci w')
  end.

Fixpoint alts (rs : list regex) : regex :=
  match rs with
  | [] => Eps
  | [r] => r
  | r :: rs' => Alt r (alts rs')
  end.

Fixpoint seqs (rs : list regex) : regex :=
  match rs with
  | [] => Eps
  | [r] => r
  | r :: rs' => Seq r (seqs rs')
  end.

Definition in_set (cs : string) : charset :=
  fun x => existsb (Ascii.eqb x) (lit cs).

(** [[\s:$]] *)
Definition space_colon_dollar : charset :=
  fun x => is_space x || in_set ":$" x.
(** [[\s$]] *)
Definition space_dollar : charset := fun x => is_space x || in_set "$" x.
(** [[\d,]] *)
Definition digit_comma : charset := fun x => is_digit x || in_set "," x.
(** [[/-]] *)
Definition slash_dash : charset := in_set "/-".
(** [[xX]] *)
Definition x_or_X : charset := in_set "xX".

Definition star (p : charset) : regex := Rep p 0 None.
Definition plus (p : charset) : regex := Rep p 1 None.
Definition times (p : charset) (lo hi : nat) : regex := Rep p lo (Some hi).

(** [([\d,]+\.\d{2})] *)
Definition amount_group : regex :=
  Group (seqs [plus digit_comma; one "."; times is_digit 2 2]).

(** [r'(\d{1,2}[/-]\d{1,2}[/-]\d{2,4}|\d{4}[/-]\d{1,2}[/-]\d{1,2})'] *)
Definition date_pattern : regex :=
  Group (Alt
    (seqs [times is_digit 1 2; Chr slash_dash; times is_digit 1 2;
           Chr slash_dash; times is_digit 2 4])
    (seqs [times is_digit 4 4; Chr slash_dash; times is_digit 1 2;
           Chr slash_dash; times is_digit 1 2])).

Definition total_keywords : list string :=
  ["Total"; "Amount"; "Due"; "Balance"; "Grand Total"]%string.

(** [r'(?i)(?:Total|Amount|Due|Balance|Grand Total)[\s:$]*([\d,]+\.\d{2})'] *)
Definition total_pattern : regex :=
  seqs [alts (map (fun w => word_ci (lit w)) total_keywords);
        star space_colon_dollar; amount_group].

(** [r'(?i)(?:Tax|VAT|GST|Sales\s*Tax)[\s:$]*([\d,]+\.\d{2})'] *)
Definition tax_pattern : regex :=
  seqs [alts [word_ci (lit "Tax"); word_ci (lit "VAT"); word_ci (lit "GST");
              seqs [word_ci (lit "Sales"); star is_space; word_ci (lit "Tax")]];
        star space_colon_dollar; amount_group].

(** [r'[\s$]([\d,]+\.\d{2})\s*$'] *)
Definition price_pattern : regex :=
  seqs [Chr space_dollar; amount_group; star is_space; Eol].

(** [r'^(\d+)\s*[xX]\s*'] *)
Definition qty_pattern : regex :=
  seqs [Bol; Group (plus is_digit); star is_space; Chr x_or_X; star is_space].

(** [m.group(1)]; the group takes part in every match of these patterns. *)
Definition group1 (m : match_obj) : str := findall_item m.

(** ** Numbers *)

Definition digit_val (c : ascii) : Z := Z.of_nat (code c) - 48.

Definition digits_val (s : str) : Z :=
  fold_left (fun a c => 10 * a + digit_val c)%Z s 0%Z.

(** The binary64 number nearest to [n / d] (ties to even), for [0 <= n] and
    [0 < d]: the quotient with its remainder's position, rounded once. *)
Definition float_of_ratio (n d : Z) : float :=
  match n, d with
  | Zpos pn, Zpos pd =>
      SF2Prim (SFdiv prec emax (S754_finite false pn 0) (S754_finite false pd 0))
  | _, _ => 0%float
  end.

Fixpoint span_digits (s : str) : str * str :=
  match s with
  | c :: s' =>
      if is_digit c then let (a, b) := span_digits s' in (c :: a, b)
      else ([], s)
  | [] => ([], [])
  end.

(** [float(s)] on the decimal numerals [digits], [digits.digits],
    [digits.] and [.digits], which is what the amount patterns capture once
    the commas are gone; [None] is the [ValueError] of a string that is not
    such a numeral. *)
Definition py_float (s : str) : option float :=
  let (ip, rest) := span_digits s in
  match rest with
  | [] =>
      match ip with
      | [] => None
      | _ => Some (float_of_ratio (digits_val ip) 1)
      end
  | c :: fp =>
      if Ascii.eqb c "."%char && forallb is_digit fp
         && negb (Nat.eqb (length ip + length fp) 0)
      then Some (float_of_ratio (digits_val (ip ++ fp))
                                (10 ^ Z.of_nat (length fp)))
      else None
  end.

(** [int(s)] on a string of decimal digits; [None] is the [ValueError] of
    any other string.  An interpreter that limits the length of the numerals
    [int] converts raises the same [ValueError] on a longer one, which only
    drops the line: that limit is not part of the embedding. *)
Definition py_int (s : str) : option Z :=
  match s with
  | [] => None
  | _ => if forallb is_digit s then Some (digits_val s) else None
  end.

(** The decimal numeral of a natural number, and the same on [width] digits
    at least (zero padded). *)
Definition dec (n : nat) : str :=
  lit (NilEmpty.string_of_uint (Nat.to_uint n)).

Definition dec_pad (width n : nat) : str :=
  let d := dec n in repeat "0"%char (width - length d) ++ d.

(** ** The clock

    [datetime.now()], passed in by the caller. *)
Record datetime : Type := DateTime {
  year : nat; month : nat; day : nat;
  hour : nat; minute : nat; second : nat
}.

(** [now.strftime("%Y-%m-%d")]: the C library prints the year as it is,
    without padding, and the month and the day on two digits. *)
Definition strftime_date (now : datetime) : str :=
  dec (year now) ++ lit "-" ++ dec_pad 2 (month now) ++ lit "-"
  ++ dec_pad 2 (day now).

(** [now.strftime("%Y-%m-%d %H:%M:%S")] *)
Definition strftime_stamp (now : datetime) : str :=
  strftime_date now ++ lit " " ++ dec_pad 2 (hour now) ++ lit ":"
  ++ dec_pad 2 (minute now) ++ lit ":" ++ dec_pad 2 (second now).

(** ** Floating-point helpers *)

(** The built-in [max] on a list of floats: the first item is kept until a
    later one is greater; [None] is the [ValueError] of an empty list. *)
Definition py_max (l : list float) : option float :=
  match l with
  | [] => None
  | x :: l' => Some (fold_left (fun m v => if (m <? v)%float then v else m) l' x)
  end.

(** [[f(x) for x in l]] where [f] may raise: the first exception ends the
    comprehension. *)
Fixpoint traverse (A B : Type) (f : A -> option B) (l : list A)
  : option (list B) :=
  match l with
  | [] => Some []
  | x :: l' =>
      match f x with
      | Some y => option_map (cons y) (traverse f l')
      | None => None
      end
  end.

(** [l[-1]] of a non-empty list. *)
Definition last_item (A : Type) (l : list A) : option A :=
  match rev l with
  | [] => None
  | x :: _ => Some x
  end.

(** ** app.py: the rule-based extractors *)

(** The dict [data] of [parse_receipt_data]. *)
Record receipt_data : Type := ReceiptData {
  merchant : str;
  date : str;
  total : float;
  tax : float
}.

(** An entry of the list [parse_line_items_data] returns. *)
Record line_item : Type := LineItem {
  name : str;
  qty : Z;
  price : float
}.

Definition UNKNOWN : str := lit "Unknown".

(** [[line.strip() for line in text.split('\n') if line.strip()]] *)
Definition stripped_lines (text : str) : list str :=
  map strip (filter (fun line => negb (str_eqb (strip line) []))
                    (split_lines text)).

Definition parse_receipt_data (now : datetime) (text : str) : receipt_data :=
  let lines := stripped_lines text in
  let merchant :=
    match lines with
    | l0 :: _ => l0
    | [] => UNKNOWN
    end in
  let date :=
    match re_search date_pattern text with
    | Some date_match => group0 text date_match
    | None => strftime_date now
    end in
  (* Extract Total *)
  let amount_match := re_findall total_pattern text in
  let total :=
    match last_item amount_match with
    | Some a =>
        match py_float (remove_commas a) with
        | Some v => v
        | None => 0%float            (* except: pass *)
        end
    | None => 0%float
    end in
  (* Extract Tax *)
  let tax_match := re_findall tax_pattern text in
  let tax :=
    match tax_match with
    | [] => 0%float
    | _ =>
        match traverse (fun t => py_float (remove_commas t)) tax_match with
        | Some taxes =>
            match py_max taxes with
            | Some v => v
            | None => 0%float
            end
        | None => 0%float            (* except: pass *)
        end
    end in
  ReceiptData merchant date total tax.

Definition skip_words : list string :=
  ["total"; "amount"; "due"; "visa"; "mastercard"; "cash"; "change"; "tax"]%string.

(** [any(x in name_part.lower() for x in [...])] *)
Definition is_summary (name_part : str) : bool :=
  existsb (fun x => contains (lit x) (lower name_part)) skip_words.

(** The quantity and the name of an item line: [None] is a [ValueError]. *)
Definition qty_and_name (name_part : str) : option (Z * str) :=
  match re_match qty_pattern name_part with
  | Some qty_match =>
      match py_int (group1 qty_match) with
      | Some q => Some (q, strip (slice_from (m_end qty_match) name_part))
      | None => None
      end
  | None => Some (1%Z, name_part)
  end.

(** One turn of the loop of [parse_line_items_data]: [items] after the line
    [line0] has been looked at. *)
Definition line_step (items : list line_item) (line0 : str) : list line_item :=
  let line := strip line0 in
  match re_search price_pattern line with
  | Some price_match =>
      let price_str := group1 price_match in
      match py_float (remove_commas price_str) with
      | Some price =>
          let name_part := strip (slice_to (m_start price_match) line) in
          if is_summary name_part then items             (* continue *)
          else
            match qty_and_name name_part with
            | Some (qty, name) =>
                match name with
                | [] => items
                | _ => items ++ [LineItem name qty price]
                end
            | None => items                              (* except ValueError *)
            end
      | None => items                                    (* except ValueError *)
      end
  | None => items
  end.

Definition parse_line_items_data (text : str) : list line_item :=
  fold_left line_step (split_lines text) [].

(** ** Printing floats: [format(x, '.Nf')] *)

(** [num / den] rounded to the nearest integer, ties to even ([0 <= num],
    [0 < den]). *)
Definition round_half_even (num den : Z) : Z :=
  let q := (num / den)%Z in
  let r := (num mod den)%Z in
  match (2 * r ?= den)%Z with
  | Lt => q
  | Gt => (q + 1)%Z
  | Eq => if Z.even q then q else (q + 1)%Z
  end.

(** [m * 2^e * 10^p] rounded to an integer. *)
Definition scaled (p : nat) (m : positive) (e : Z) : Z :=
  let m10 := (Zpos m * 10 ^ Z.of_nat p)%Z in
  if (0 <=? e)%Z then (m10 * 2 ^ e)%Z
  else round_half_even m10 (2 ^ (- e))%Z.

Definition dec_N (n : N) : str := lit (NilEmpty.string_of_uint (N.to_uint n)).

(** The digits of [n / 10^p] with [p] decimals. *)
Definition fixed (p : nat) (n : Z) : str :=
  let unit := (10 ^ Z.of_nat p)%Z in
  let ip := dec_N (Z.to_N (n / unit)) in
  match p with
  | O => ip
  | _ =>
      let fp := dec_N (Z.to_N (n mod unit)) in
      ip ++ lit "." ++ repeat "0"%char (p - length fp) ++ fp
  end.

Definition sign_str (s : bool) : str := if s then lit "-" else [].

(** [f"{x:.pf}"]: the exact value of [x] rounded to [p] decimals. *)
Definition format_f (p : nat) (x : float) : str :=
  match Prim2SF x with
  | S754_nan => lit "nan"
  | S754_infinity s => sign_str s ++ lit "inf"
  | S754_zero s => sign_str s ++ fixed p 0
  | S754_finite s m e => sign_str s ++ fixed p (scaled p m e)
  end.

(** [int64] to [float64], as pandas does when it multiplies an integer
    column by a float column: the cast of the C compiler, which rounds the
    integer to the nearest float, ties to even. *)
Definition float_of_int (z : Z) : float :=
  SF2Prim (binary_normalize prec emax z 0 false).

(** *** [Series.sum()]

    pandas puts zero in the place of every NaN ([skipna]) and calls
    [ndarray.sum], whose loop for a contiguous column of floats is
    [*out += pairwise_sum(a, n)] with [*out] set to zero before. *)

(** [np.putmask(values, mask, 0)] on one value. *)
Definition nan_to_zero (v : float) : float :=
  if is_nan v then 0%float else v.

(** [r[j] += a[i + j]] for the accumulators [r] and the block at [i]. *)
Fixpoint add_to (r blk : list float) : list float :=
  match r, blk with
  | x :: r', y :: blk' => (x + y)%float :: add_to r' blk'
  | _, _ => r
  end.

(** The unrolled loop [for (i = 8; i < n - (n % 8); i += 8)]: [blocks]
    turns, each adding the next eight values to the eight accumulators;
    returns the accumulators and the values not read. *)
Fixpoint unrolled (blocks : nat) (r a : list float)
  : list float * list float :=
  match blocks with
  | O => (r, a)
  | S b => unrolled b (add_to r (firstn 8 a)) (skipn 8 a)
  end.

(** The branch [n <= PW_BLOCKSIZE] of [pairwise_sum], for [8 <= n]: eight
    accumulators start as the first eight values, are added up as a tree,
    and the values after the last whole block are added one by one. *)
Definition sum_block (a : list float) : float :=
  let n := length a in
  let (r, rest) := unrolled (n / 8 - 1) (firstn 8 a) (skipn 8 a) in
  match r with
  | [r0; r1; r2; r3; r4; r5; r6; r7] =>
      fold_left (fun res v => (res + v)%float) rest
                (((r0 + r1) + (r2 + r3)) + ((r4 + r5) + (r6 + r7)))%float
  | _ => 0%float                             (* n < 8: not this branch *)
  end.

Definition PW_BLOCKSIZE : nat := 128.

(** [pairwise_sum(a, n)]: fewer than eight values are added in order; up to
    [PW_BLOCKSIZE] values go through [sum_block]; a longer column is cut
    near its middle, at a multiple of eight, and the sums of the two parts
    are added.  [fuel] bounds the depth of the cuts. *)
Fixpoint pairwise_sum (fuel : nat) (a : list float) : float :=
  let n := length a in
  if n <? 8 then fold_left (fun res v => (res + v)%float) a 0%float
  else if n <=? PW_BLOCKSIZE then sum_block a
  else
    match fuel with
    | O => 0%float
    | S f =>
        let n2 := n / 2 - (n / 2) mod 8 in
        (pairwise_sum f (firstn n2 a) + pairwise_sum f (skipn n2 a))%float
    end.

Definition series_sum (l : list float) : float :=
  let values := map nan_to_zero l in
  (0 + pairwise_sum (length values) values)%float.

Definition INT64_MIN : Z := (- 2 ^ 63)%Z.
Definition INT64_MAX : Z := (2 ^ 63 - 1)%Z.

(** [ORDER BY key DESC] on rows in rowid order: a stable insertion of each
    row into the rows that follow it. *)
Fixpoint insert_desc (A : Type) (key : A -> Z) (x : A) (l : list A) : list A :=
  match l with
  | [] => [x]
  | y :: l' => if (key y <? key x)%Z then x :: l else y :: insert_desc key x l'
  end.

Definition order_by_desc (A : Type) (key : A -> Z) (l : list A) : list A :=
  fold_right (insert_desc key) [] l.

(** [s.split(sep)] for a separator of any length: the pieces between the
    occurrences of [sep] found from the left without overlap; [None] is the
    [ValueError] of an empty separator.  [fuel] bounds the characters left
    to read. *)
Fixpoint split_str_from (fuel : nat) (sep s cur : str) : list str :=
  match fuel with
  | O => [rev cur]
  | S f =>
      match s with
      | [] => [rev cur]
      | c :: s' =>
          if startswith sep s
          then rev cur :: split_str_from f sep (skipn (length sep) s) []
          else split_str_from f sep s' (c :: cur)
      end
  end.

Definition split_str (sep s : str) : option (list str) :=
  match sep with
  | [] => None
  | _ => Some (split_str_from (length s) sep s [])
  end.

(** [s.replace(old, new)]: every occurrence of [old] found from the left
    without overlap becomes [new]; an empty [old] puts [new] around every
    character. *)
Fixpoint replace_from (fuel : nat) (old new s : str) : str :=
  match fuel with
  | O => s
  | S f =>
      match s with
      | [] => []
      | c :: s' =>
          if startswith old s
          then new ++ replace_from f old new (skipn (length old) s)
          else c :: replace_from f old new s'
      end
  end.

Definition replace_str (old new s : str) : str :=
  match old with
  | [] => new ++ flat_map (fun c => c :: new) s
  | _ => replace_from (length s) old new s
  end.

(** [str(n)] for an integer. *)
Definition dec_Z (z : Z) : str :=
  match z with
  | Zneg p => lit "-" ++ dec_N (Npos p)
  | _ => dec_N (Z.to_N z)
  end.

#[local] Set Warnings "-inexact-float".

(** ** app.py: the vault and the page *)

Module App.

(** A row of [receipts] and a row of [line_items].  The extractors never
    produce a NaN, so a REAL column is a [float] here. *)
Record receipt_row : Type := ReceiptRow {
  r_id : Z;
  r_merchant : str;
  r_date : str;
  r_total_amount : float;
  r_tax_amount : float;
  r_filename : str;
  r_upload_timestamp : str
}.

Record item_row : Type := ItemRow {
  l_id : Z;
  l_receipt_id : Z;
  l_name : str;
  l_qty : Z;
  l_price : float
}.

(** The database file: the two tables in rowid order, and for each the
    largest rowid it has used (AUTOINCREMENT). *)
Record db : Type := Db {
  receipts : list receipt_row;
  line_items : list item_row;
  receipts_seq : Z;
  line_items_seq : Z
}.

(** [init_db] on a file that does not exist yet. *)
Definition empty_db : db := Db [] [] 0 0.

(** [SELECT id FROM receipts WHERE merchant = ? AND date = ? AND
    total_amount = ?], as a test on one row. *)
Definition same_receipt (merchant date : str) (total : float)
           (r : receipt_row) : bool :=
  str_eqb (r_merchant r) merchant && str_eqb (r_date r) date
  && (r_total_amount r =? total)%float.

Definition check_if_receipt_exists (d : db) (merchant date : str)
           (total : float) : bool :=
  let data := hd_error (filter (same_receipt merchant date total)
                               (receipts d)) in      (* fetchone() *)
  match data with
  | Some _ => true
  | None => false
  end.

(** The line items inserted one after the other, from rowid [seq + 1]. *)
Fixpoint insert_items (receipt_id seq : Z) (items : list line_item)
  : list item_row :=
  match items with
  | [] => []
  | item :: rest =>
      ItemRow (seq + 1) receipt_id (name item) (qty item) (price item)
      :: insert_items receipt_id (seq + 1) rest
  end.

Definition fits_int64 (z : Z) : bool :=
  (INT64_MIN <=? z)%Z && (z <=? INT64_MAX)%Z.

(** [save_receipt_to_db]: the new file and [Some true], or, when a
    quantity does not fit SQLite's INTEGER, the [OverflowError] of the bind
    ([None]) with nothing committed. *)
Definition save_receipt_to_db (now : datetime) (d : db)
           (merchant date : str) (total tax : float) (filename : str)
           (line_items_data : list line_item) : db * option bool :=
  let upload_time := strftime_stamp now in
  let receipt_id := (receipts_seq d + 1)%Z in          (* c.lastrowid *)
  let row := ReceiptRow receipt_id merchant date total tax filename
                        upload_time in
  if forallb (fun item => fits_int64 (qty item)) line_items_data then
    (Db (receipts d ++ [row])
        (line_items d
         ++ insert_items receipt_id (line_items_seq d) line_items_data)
        receipt_id
        (line_items_seq d + Z.of_nat (length line_items_data)),
     Some true)
  else (d, None).

(** A row of the frame [get_detailed_bill_data] returns. *)
Record bill_line : Type := BillLine {
  bill_id : Z;
  vendor_name : str;
  item_name : str;
  quantity : Z;
  unit_price : float
}.

(** [FROM line_items l JOIN receipts r ON l.receipt_id = r.id
    WHERE r.id = ?] *)
Definition get_detailed_bill_data (d : db) (receipt_id : Z)
  : list bill_line :=
  flat_map
    (fun l =>
       map (fun r => BillLine (r_id r) (r_merchant r) (l_name l) (l_qty l)
                              (l_price l))
           (filter (fun r => (l_receipt_id l =? r_id r)%Z
                             && (r_id r =? receipt_id)%Z)
                   (receipts d)))
    (line_items d).

Definition get_receipt_metadata (d : db) (receipt_id : Z) : float * float :=
  match find (fun r => (r_id r =? receipt_id)%Z) (receipts d) with
  | Some r => (r_total_amount r, r_tax_amount r)
  | None => (0%float, 0%float)
  end.

(** What the button "Process & Save to Vault" shows. *)
Inductive upload_result : Type :=
| DuplicateDetected (merchant : str)      (* st.error *)
| Saved (tax : float)                     (* st.success, st.metric *)
| Failed.                                 (* an exception of the save *)

(** The button's handler, from the text OCR returned: the file after it,
    and what is shown.  [now] is the clock when the text is parsed and
    [now'] the clock when the receipt is saved. *)
Definition process_and_save (now now' : datetime) (filename : str)
           (raw_text : str) (d : db) : db * upload_result :=
  let receipt_data := parse_receipt_data now raw_text in
  let line_items := parse_line_items_data raw_text in
  let is_duplicate :=
    check_if_receipt_exists d (merchant receipt_data) (date receipt_data)
                            (total receipt_data) in
  if is_duplicate then (d, DuplicateDetected (merchant receipt_data))
  else
    match save_receipt_to_db now' d (merchant receipt_data)
                             (date receipt_data) (total receipt_data)
                             (tax receipt_data) filename line_items with
    | (d', Some _) => (d', Saved (tax receipt_data))
    | (d', None) => (d', Failed)
    end.

(** The figures of "Mathematical Validation". *)
Record reconciliation : Type := Reconciliation {
  calculated_subtotal : float;
  calculated_grand_total : float;
  discrepancy : float;
  valid : bool
}.

Definition reconcile (items_df : list bill_line)
           (official_total official_tax : float) : reconciliation :=
  let total_price :=
    map (fun it => (float_of_int (quantity it) * unit_price it)%float)
        items_df in
  let calculated_subtotal := series_sum total_price in
  let calculated_grand_total := (calculated_subtotal + official_tax)%float in
  let discrepancy := (official_total - calculated_grand_total)%float in
  Reconciliation calculated_subtotal calculated_grand_total discrepancy
                 (abs discrepancy <? 0.1)%float.

(** What "Detailed Bill Items & Validation" shows. *)
Inductive detail_view : Type :=
| UploadFirst                             (* receipts_df.empty *)
| NothingSelected                         (* selected_id is falsy *)
| NoLineItems                             (* items_df.empty *)
| Validation (v : reconciliation).

(** The section for the id the select box returns. *)
Definition detail_section (d : db) (selected_id : Z) : detail_view :=
  match receipts d with
  | [] => UploadFirst
  | _ =>
      if (selected_id =? 0)%Z then NothingSelected
      else
        let items_df := get_detailed_bill_data d selected_id in
        let (official_total, official_tax) :=
          get_receipt_metadata d selected_id in
        match items_df with
        | [] => NoLineItems
        | _ => Validation (reconcile items_df official_total official_tax)
        end
  end.

(** [init_db]: [CREATE TABLE IF NOT EXISTS] makes the two tables, empty,
    when they are not there ([None]) and leaves them alone when they are. *)
Definition init_db (tables : option db) : db :=
  match tables with
  | Some d => d
  | None => empty_db
  end.

(** A row of the frame [get_all_receipts] returns. *)
Record receipt_summary : Type := ReceiptSummary {
  s_id : Z;
  s_merchant : str;
  s_date : str;
  s_total : float;
  s_tax : float
}.

(** [SELECT id, merchant, date, total_amount AS total, tax_amount as tax
    FROM receipts ORDER BY id DESC] *)
Definition get_all_receipts (d : db) : list receipt_summary :=
  map (fun r => ReceiptSummary (r_id r) (r_merchant r) (r_date r)
                               (r_total_amount r) (r_tax_amount r))
      (order_by_desc r_id (receipts d)).

(** [clear_database]: both tables are dropped, which also forgets their
    rowid counters, and [init_db] makes them anew. *)
Definition clear_database (d : db) : db :=
  let dropped : option db := None in
  init_db dropped.

(** [receipts_df['id'].tolist()], the options of the select box. *)
Definition receipt_ids (d : db) : list Z := map s_id (get_all_receipts d).

End App.

(** ** Milestone 2/main.py: duplicate count and validation rules *)

Module Milestone2.

(** A text field of the reply of the language model, once [json.loads] has
    read it: a string, or [None] for a JSON [null].  SQLite stores [None]
    as NULL. *)
Definition text_field : Type := option str.

Record receipt_row : Type := ReceiptRow {
  r_id : Z;
  r_merchant : text_field;
  r_date : text_field;
  r_invoice_number : text_field;
  r_subtotal : float;
  r_tax : float;
  r_total_amount : float;
  r_filename : str;
  r_upload_timestamp : str
}.

(** [column = ?] on a text column: true when neither side is NULL and the
    two strings are equal. *)
Definition sql_eq (column parameter : text_field) : bool :=
  match column, parameter with
  | Some a, Some b => str_eqb a b
  | _, _ => false                         (* NULL = ? is not true *)
  end.

(** A term [column = ?] of a WHERE clause with its parameter. *)
Inductive condition : Type :=
| MerchantIs (v : text_field)
| DateIs (v : text_field)
| TotalAmountIs (v : float)
| InvoiceNumberIs (v : text_field).

Definition holds (r : receipt_row) (c : condition) : bool :=
  match c with
  | MerchantIs v => sql_eq (r_merchant r) v
  | DateIs v => sql_eq (r_date r) v
  | TotalAmountIs v => (r_total_amount r =? v)%float
  | InvoiceNumberIs v => sql_eq (r_invoice_number r) v
  end.

(** [SELECT id FROM receipts WHERE c1 AND c2 AND ...] *)
Definition select_ids (rows : list receipt_row) (query : list condition)
  : list Z :=
  map r_id (filter (fun r => forallb (holds r) query) rows).

(** [invoice_num and invoice_num != "Unknown"] *)
Definition given (invoice_num : text_field) : bool :=
  match invoice_num with
  | Some [] => false
  | Some i => negb (str_eqb i UNKNOWN)
  | None => false
  end.

Definition check_if_receipt_exists (rows : list receipt_row)
           (merchant date : text_field) (total : float)
           (invoice_num : text_field) : bool * nat :=
  let query := [MerchantIs merchant; DateIs date; TotalAmountIs total] in
  let query :=
    if given invoice_num then query ++ [InvoiceNumberIs invoice_num]
    else query in
  let data := select_ids rows query in                 (* fetchall() *)
  (0 <? length data, length data).

(** The dict [receipt_data] that [main] builds and validates: the three
    text fields as the model replied them, the three amounts after
    [float]. *)
Record receipt : Type := Receipt {
  merchant : text_field;
  date : text_field;
  invoice_number : text_field;
  subtotal : float;
  tax : float;
  total : float
}.

(** The dict [results]: for each rule, whether it passed and its
    message. *)
Record results : Type := Results {
  math : bool * str;
  dup : bool * str;
  tax_rate : bool * str;
  fields : bool * str
}.

(** [', '.join(l)] *)
Fixpoint join (sep : str) (l : list str) : str :=
  match l with
  | [] => []
  | [x] => x
  | x :: l' => x ++ sep ++ join sep l'
  end.

Definition validate_receipt (data : receipt) (is_dup_bool : bool)
  : results :=
  let sub := subtotal data in
  let tax := tax data in
  let total := total data in
  let calc_total := (sub + tax)%float in
  let math :=
    if (abs (calc_total - total) <=? 0.03)%float then
      (true, lit "Pass: " ++ format_f 2 sub ++ lit " + " ++ format_f 2 tax
             ++ lit " = " ++ format_f 2 total)
    else
      (false, lit "Fail: " ++ format_f 2 sub ++ lit " + " ++ format_f 2 tax
              ++ lit " != " ++ format_f 2 total) in
  let dup :=
    if negb is_dup_bool then (true, lit "No duplicate found")
    else (false, lit "Potential duplicate entry detected in DB.") in
  let tax_rate :=
    if (0 <? sub)%float then
      let rate := ((tax / sub) * 100)%float in
      if (0 <=? rate)%float && (rate <=? 30)%float then
        (true, lit "Tax Rate: " ++ format_f 1 rate ++ lit "% (Normal)")
      else
        (false, lit "Suspicious Tax Rate: " ++ format_f 1 rate ++ lit "%")
    else (true, lit "N/A") in
  let missing :=
    (match merchant data with                 (* == "Unknown" *)
     | Some m => if str_eqb m UNKNOWN then [lit "Merchant"] else []
     | None => []
     end)
    ++ (match date data with                  (* not data['date'] *)
        | None | Some [] => [lit "Date"]
        | Some _ => []
        end)
    ++ (if (total =? 0)%float then [lit "Total"] else []) in
  let fields :=
    match missing with
    | [] => (true, lit "All required fields present")
    | _ => (false, lit "Missing: " ++ join (lit ", ") missing)
    end in
  Results math dup tax_rate fields.

(** *** The vault of main.py *)

Record item_row : Type := ItemRow {
  l_id : Z;
  l_receipt_id : Z;
  l_name : str;
  l_qty : Z;
  l_price : float
}.

(** The database file: the two tables in rowid order, and for each the
    largest rowid it has used (AUTOINCREMENT). *)
Record db : Type := Db {
  receipts : list receipt_row;
  line_items : list item_row;
  receipts_seq : Z;
  line_items_seq : Z
}.

Definition empty_db : db := Db [] [] 0 0.

Definition init_db (tables : option db) : db :=
  match tables with
  | Some d => d
  | None => empty_db
  end.

Fixpoint insert_items (receipt_id seq : Z) (items : list line_item)
  : list item_row :=
  match items with
  | [] => []
  | item :: rest =>
      ItemRow (seq + 1) receipt_id (name item) (qty item) (price item)
      :: insert_items receipt_id (seq + 1) rest
  end.

Definition fits_int64 (z : Z) : bool :=
  (INT64_MIN <=? z)%Z && (z <=? INT64_MAX)%Z.

(** [save_receipt_to_db]: the new file and [Some receipt_id], or, when a
    quantity does not fit SQLite's INTEGER, the [OverflowError] of the bind
    ([None]) with nothing committed. *)
Definition save_receipt_to_db (now : datetime) (d : db) (data : receipt)
           (filename : str) (line_items_data : list line_item)
  : db * option Z :=
  let upload_time := strftime_stamp now in
  let receipt_id := (receipts_seq d + 1)%Z in            (* c.lastrowid *)
  let row := ReceiptRow receipt_id (merchant data) (date data)
                        (invoice_number data) (subtotal data) (tax data)
                        (total data) filename upload_time in
  if forallb (fun item => fits_int64 (qty item)) line_items_data then
    (Db (receipts d ++ [row])
        (line_items d
         ++ insert_items receipt_id (line_items_seq d) line_items_data)
        receipt_id
        (line_items_seq d + Z.of_nat (length line_items_data)),
     Some receipt_id)
  else (d, None).

(** [SELECT * FROM receipts ORDER BY id DESC] *)
Definition get_all_receipts (d : db) : list receipt_row :=
  order_by_desc r_id (receipts d).

(** [SELECT name, qty, price FROM line_items WHERE receipt_id = ?] *)
Definition get_line_items (d : db) (receipt_id : Z) : list line_item :=
  map (fun l => LineItem (l_name l) (l_qty l) (l_price l))
      (filter (fun l => (l_receipt_id l =? receipt_id)%Z) (line_items d)).

(** [delete_receipt]: the line items of the receipt go first, then the
    receipt. *)
Definition delete_receipt (d : db) (receipt_id : Z) : db :=
  let items := filter (fun l => negb (l_receipt_id l =? receipt_id)%Z)
                      (line_items d) in
  let rows := filter (fun r => negb (r_id r =? receipt_id)%Z) (receipts d) in
  Db rows items (receipts_seq d) (line_items_seq d).

(** [clear_database]: [DELETE FROM] empties both tables and keeps their
    rowid counters. *)
Definition clear_database (d : db) : db :=
  Db [] [] (receipts_seq d) (line_items_seq d).

(** The label of a receipt in the select box of "Bill History",
    [f"ID: {id} - {merchant} (${total_amount})"], where [total_text] is the
    text Python prints for the total. *)
Definition label (id : Z) (merchant total_text : str) : str :=
  lit "ID: " ++ dec_Z id ++ lit " - " ++ merchant ++ lit " ($" ++ total_text
  ++ lit ")".

(** [int(selected_label.split(" - ")[0].replace("ID: ", ""))]; [None] is
    the [ValueError] of [int]. *)
Definition selected_id (selected_label : str) : option Z :=
  match split_str (lit " - ") selected_label with
  | Some (piece :: _) => py_int (replace_str (lit "ID: ") [] piece)
  | _ => None
  end.

(** The button "Delete Bill ID: n" for the label chosen in the select box. *)
Definition delete_selected (d : db) (selected_label : str) : db :=
  match selected_id selected_label with
  | Some id => delete_receipt d id
  | None => d
  end.

End Milestone2.

(** The two extractors as the page runs them on one text. *)
Definition run_extractors (now : datetime) (raw_text : str)
  : receipt_data * list line_item :=
  (parse_receipt_data now raw_text, parse_line_items_data raw_text).

(** ** Notions the statements use *)

(** What a pattern can match, read off its syntax: from position [pos] with
    [s] left to read and [g] captured, to [pos'] with [s'] left and [g']
    captured. *)
Inductive sem : regex -> nat -> str -> option str ->
                nat -> str -> option str -> Prop :=
| sem_chr : forall (p : charset) c s pos g,
    p c = true -> sem (Chr p) pos (c :: s) g (S pos) s g
| sem_seq : forall r1 r2 pos s g pos1 s1 g1 pos2 s2 g2,
    sem r1 pos s g pos1 s1 g1 -> sem r2 pos1 s1 g1 pos2 s2 g2 ->
    sem (Seq r1 r2) pos s g pos2 s2 g2
| sem_alt_l : forall r1 r2 pos s g pos' s' g',
    sem r1 pos s g pos' s' g' -> sem (Alt r1 r2) pos s g pos' s' g'
| sem_alt_r : forall r1 r2 pos s g pos' s' g',
    sem r2 pos s g pos' s' g' -> sem (Alt r1 r2) pos s g pos' s' g'
| sem_rep : forall (p : charset) lo hi pos cs s g,
    forallb p cs = true -> lo <= length cs ->
    (forall h, hi = Some h -> length cs <= h) ->
    sem (Rep p lo hi) pos (cs ++ s) g (pos + length cs) s g
| sem_group : forall r pos s g pos' s' g',
    sem r pos s g pos' s' g' ->
    sem (Group r) pos s g pos' s' (Some (firstn (pos' - pos) s))
| sem_bol : forall s g, sem Bol 0 s g 0 s g
| sem_eol : forall pos s g, at_eol s = true -> sem Eol pos s g pos s g
| sem_eps : forall pos s g, sem Eps pos s g pos s g.

(** The strings [[\d,]+\.\d{2}] captures. *)
Definition is_amount (a : str) : Prop :=
  exists ds d1 d2,
    a = ds ++ "."%char :: [d1; d2] /\ ds <> [] /\
    forallb digit_comma ds = true /\ is_digit d1 = true /\ is_digit d2 = true.

(** The number an amount denotes, to the nearest float: its digits over one
    hundred. *)
Definition amount_value (a : str) : float :=
  float_of_ratio (digits_val (filter is_digit a)) 100.

(** Zero, a positive number or plus infinity. *)
Definition SFnonneg (x : spec_float) : Prop :=
  match x with
  | S754_zero false | S754_infinity false | S754_finite false _ _ => True
  | _ => False
  end.

Definition nonneg (x : float) : Prop := SFnonneg (Prim2SF x).

(** The pattern has a match that starts at some position of the text. *)
Definition matches_somewhere (r : regex) (text : str) : Prop :=
  exists i pos' s' g',
    i <= length text /\ sem r i (skipn i text) None pos' s' g'.

Fixpoint has_group (r : regex) : bool :=
  match r with
  | Group _ => true
  | Seq r1 r2 | Alt r1 r2 => has_group r1 || has_group r2
  | _ => false
  end.

(** The name candidate of a line whose price the pattern found at [m]. *)
Definition name_part_of (line0 : str) (m : match_obj) : str :=
  strip (slice_to (m_start m) (strip line0)).

(** An invoice number is supplied: it is there, not empty, and not the
    sentinel. *)
Definition supplied (invoice_num : option str) : Prop :=
  exists i, invoice_num = Some i /\ i <> [] /\ i <> UNKNOWN.

(** A stored record equals the query on every supplied field. *)
Definition duplicate_of (merchant date : str) (total : float)
           (invoice_num : option str) (r : Milestone2.receipt_row) : Prop :=
  Milestone2.r_merchant r = Some merchant /\
  Milestone2.r_date r = Some date /\
  (Milestone2.r_total_amount r =? total)%float = true /\
  (supplied invoice_num -> Milestone2.r_invoice_number r = invoice_num).

(** A text field holds a string, and not the [None] of a JSON null. *)
Definition present (field : Milestone2.text_field) : bool :=
  match field with
  | Some _ => true
  | None => false
  end.

Definition option_str_eqb (a b : option str) : bool :=
  match a, b with
  | Some x, Some y => str_eqb x y
  | None, None => true
  | _, _ => false
  end.

Definition duplicate_ofb (merchant date : Milestone2.text_field)
           (total : float) (invoice_num : option str)
           (r : Milestone2.receipt_row) : bool :=
  Milestone2.sql_eq (Milestone2.r_merchant r) merchant
  && Milestone2.sql_eq (Milestone2.r_date r) date
  && (Milestone2.r_total_amount r =? total)%float
  && (negb (Milestone2.given invoice_num)
      || option_str_eqb (Milestone2.r_invoice_number r) invoice_num).

(** The rowids of a table in rowid order: increasing, positive, and none
    above the table's counter. *)
Definition rowids_ok (ids : list Z) (seq : Z) : Prop :=
  StronglySorted Z.lt ids /\ Forall (fun i => (1 <= i <= seq)%Z) ids /\
  (0 <= seq)%Z.

(** A well-formed vault of app.py: rowids as above in both tables, and every
    line item belongs to a stored receipt. *)
Definition vault_ok (d : App.db) : Prop :=
  rowids_ok (map App.r_id (App.receipts d)) (App.receipts_seq d) /\
  rowids_ok (map App.l_id (App.line_items d)) (App.line_items_seq d) /\
  Forall (fun l => In (App.l_receipt_id l) (map App.r_id (App.receipts d)))
         (App.line_items d).

(** The same for the vault of main.py. *)
Definition vault2_ok (d : Milestone2.db) : Prop :=
  rowids_ok (map Milestone2.r_id (Milestone2.receipts d))
            (Milestone2.receipts_seq d) /\
  rowids_ok (map Milestone2.l_id (Milestone2.line_items d))
            (Milestone2.line_items_seq d) /\
  Forall (fun l => In (Milestone2.l_receipt_id l)
                      (map Milestone2.r_id (Milestone2.receipts d)))
         (Milestone2.line_items d).

(** The line items of a bill as [get_detailed_bill_data] lists them. *)
Definition bill_of (id : Z) (merchant : str) (items : list line_item)
  : list App.bill_line :=
  map (fun it => App.BillLine id merchant (name it) (qty it) (price it)) items.

(** The least and the greatest number of characters a match of a pattern
    reads ([None]: no bound), and the patterns whose sets are all within a
    set [q]. *)
Fixpoint min_len (r : regex) : nat :=
  match r with
  | Chr _ => 1
  | Seq r1 r2 => min_len r1 + min_len r2
  | Alt r1 r2 => Nat.min (min_len r1) (min_len r2)
  | Rep _ lo _ => lo
  | Group r1 => min_len r1
  | Bol | Eol | Eps => 0
  end.

Fixpoint max_len (r : regex) : option nat :=
  match r with
  | Chr _ => Some 1
  | Seq r1 r2 =>
      match max_len r1, max_len r2 with
      | Some a, Some b => Some (a + b)
      | _, _ => None
      end
  | Alt r1 r2 =>
      match max_len r1, max_len r2 with
      | Some a, Some b => Some (Nat.max a b)
      | _, _ => None
      end
  | Rep _ _ hi => hi
  | Group r1 => max_len r1
  | Bol | Eol | Eps => Some 0
  end.

Fixpoint sets_within (q : charset) (r : regex) : Prop :=
  match r with
  | Chr p | Rep p _ _ => forall c, p c = true -> q c = true
  | Seq r1 r2 | Alt r1 r2 => sets_within q r1 /\ sets_within q r2
  | Group r1 => sets_within q r1
  | Bol | Eol | Eps => True
  end.

(** [[\d/-]] *)
Definition date_char : charset := fun c => is_digit c || slash_dash c.

(** The row "Process & Save" adds to [receipts] for the parsed fields. *)
Definition saved_receipt (now' : datetime) (d : App.db) (r : receipt_data)
           (filename : str) : App.receipt_row :=
  App.ReceiptRow (App.receipts_seq d + 1) (merchant r) (date r) (total r)
                 (tax r) filename (strftime_stamp now').

(** The vault after a successful "Process & Save". *)
Definition vault_after_save (now' : datetime) (d : App.db) (r : receipt_data)
           (filename : str) (items : list line_item) : App.db :=
  App.Db (App.receipts d ++ [saved_receipt now' d r filename])
         (App.line_items d
          ++ App.insert_items (App.receipts_seq d + 1) (App.line_items_seq d)
                              items)
         (App.receipts_seq d + 1)
         (App.line_items_seq d + Z.of_nat (length items)).

(** No occurrence of [sep] starts inside [p] when [p] is followed by
    [tail]. *)
Fixpoint no_start (sep p tail : str) : Prop :=
  match p with
  | [] => True
  | _ :: p' => startswith sep (p ++ tail) = false /\ no_start sep p' tail
  end.

(** *** Sums in binary64 *)

(** [s] is a sum of the numbers [l] in binary64: every number of [l] is
    added exactly once, in some order and some grouping, each addition
    rounding to the nearest float; the sum of no number is zero. *)
Inductive adds_up : list float -> float -> Prop :=
| adds_nil : adds_up [] 0%float
| adds_one : forall x, adds_up [x] x
| adds_app : forall l1 l2 s1 s2,
    adds_up l1 s1 -> adds_up l2 s2 -> adds_up (l1 ++ l2) (s1 + s2)%float
| adds_perm : forall l l' s,
    Permutation l l' -> adds_up l s -> adds_up l' s.

(** What a line item adds to the subtotal: its quantity, converted to a
    float as the processor converts an integer, times its price; a product
    that is NaN counts as zero. *)
Definition counted_product (qty : Z) (price : float) : float :=
  let product := (of_uint63 (Uint63.of_Z qty) * price)%float in
  if is_nan product then 0%float else product.

(** *** Mentions of a total or of a tax, in the words of the specification *)

Definition spec_total_keywords : list string :=
  ["Total"; "Amount"; "Due"; "Balance"; "Grand Total"]%string.

Definition spec_tax_keywords : list string :=
  ["Tax"; "VAT"; "GST"; "Sales Tax"]%string.

(** [kw] is one of [words], case ignored. *)
Definition keyword_ci (words : list string) (kw : str) : Prop :=
  exists w, In w words /\ lower kw = lower (lit w).

(** The punctuation allowed between a keyword and its amount: white space,
    a colon or a dollar sign. *)
Definition separator (c : ascii) : Prop :=
  is_space c = true \/ c = ":"%char \/ c = "$"%char.

(** [s] begins with a mention: a keyword, any number of separators, and the
    amount [a]. *)
Definition mention_here (words : list string) (s a : str) : Prop :=
  exists kw sep post,
    s = kw ++ sep ++ a ++ post /\ keyword_ci words kw /\
    Forall separator sep /\ is_amount a.

(** A mention of the amount [a] begins at position [i] of [text]. *)
Definition mention_at (words : list string) (text : str) (i : nat) (a : str)
  : Prop :=
  exists pre kw sep post,
    text = pre ++ kw ++ sep ++ a ++ post /\ length pre = i /\
    keyword_ci words kw /\ Forall separator sep /\ is_amount a.

(** The characters of an amount, and the others. *)
Definition amount_char (c : ascii) : bool :=
  digit_comma c || Ascii.eqb c "."%char.

Definition plain (c : ascii) : bool := negb (amount_char c).

(** [s] begins with the plain characters [k] followed by the amount [a]. *)
Definition lead_amount (s k a : str) : Prop :=
  exists post, s = k ++ a ++ post /\ forallb plain k = true /\ is_amount a.

(** [r] is empty or begins with a character outside [p]. *)
Definition stops (p : ascii -> bool) (r : str) : Prop :=
  match r with
  | c :: _ => p c = false
  | [] => True
  end.

(** [re.findall] after the character at [pos], [k] characters of which are
    still covered by a match. *)
Definition rest_from (r : regex) (pos : nat) (s : str) (k : nat) : list str :=
  match s with
  | [] => []
  | _ :: s' => findall_from r (S pos) s' k
  end.

(** *** Dates *)

Definition date_separator (c : ascii) : Prop := c = "/"%char \/ c = "-"%char.

(** One or two digits, a separator, one or two digits, a separator and two
    to four digits; or four digits, a separator, one or two digits, a
    separator and one or two digits. *)
Definition date_shape (d : str) : Prop :=
  exists a s1 b s2 c,
    d = a ++ s1 :: b ++ s2 :: c /\
    forallb is_digit a = true /\ forallb is_digit b = true /\
    forallb is_digit c = true /\ date_separator s1 /\ date_separator s2 /\
    1 <= length b <= 2 /\
    ((1 <= length a <= 2 /\ 2 <= length c <= 4) \/
     (length a = 4 /\ 1 <= length c <= 2)).

Definition contains_date (text : str) : Prop :=
  exists pre d post, text = pre ++ d ++ post /\ date_shape d.

(** The month and the day of a [datetime] are those of a calendar. *)
Definition valid_date (now : datetime) : Prop :=
  1 <= month now <= 12 /\ 1 <= day now <= 31.

Definition same_day (a b : datetime) : Prop :=
  year a = year b /\ month a = month b /\ day a = day b.

(** ** Sample inputs *)

Definition visa_line : str := lit "VISA ****1234   45.00".

Definition burger_text : str := lit "2 x Burger        9.50".
Definition burger_item : line_item := LineItem (lit "Burger") 2 9.5.

Definition undated_text : str :=
  lit "Acme Mart" ++ LF :: lit "2 x Coffee   8.00" ++ LF :: lit "Total: 8.64".

Definition acme_text : str :=
  lit "Acme Mart" ++ LF :: lit "01/15/2024" ++ LF :: lit "1 x Coffee   8.00"
  ++ LF :: lit "Tax: 0.64" ++ LF :: lit "Total: 8.64".

Definition noon : datetime := DateTime 2024 1 15 12 0 0.

(** The vault after [acme_text] has been uploaded once. *)
Definition acme_db : App.db :=
  fst (App.process_and_save noon noon (lit "acme.png") acme_text App.empty_db).

(** The receipt of the specification's end-to-end example. *)
Definition spec_text : str :=
  lit "Acme Mart" ++ LF :: lit "01/15/2024" ++ LF :: lit "2 x Coffee   8.00"
  ++ LF :: lit "Tax: 0.64" ++ LF :: lit "Total: 8.64".

Definition running_totals_text : str :=
  lit "Corner Shop" ++ LF :: lit "Subtotal: 8.00" ++ LF :: lit "Tax 0.50"
  ++ LF :: lit "GST: 0.14" ++ LF :: lit "TOTAL $ 8.64" ++ LF
  :: lit "Balance Due: 1,008.64".

(** A second receipt, uploaded after [acme_text]. *)
Definition bakery_text : str :=
  lit "Bakery" ++ LF :: lit "2024-02-01" ++ LF :: lit "3 x Roll  0.50" ++ LF
  :: lit "Total: 1.50".

Definition bakery_db : App.db :=
  fst (App.process_and_save noon noon (lit "bakery.png") bakery_text acme_db).

(** A receipt of nine item lines, and the vault after its upload. *)
Definition kiosk_text : str :=
  lit "Kiosk" ++ LF :: lit "2024-03-01" ++ LF
  :: lit "2 x Gum      0.10" ++ LF :: lit "3 x Mints    0.20" ++ LF
  :: lit "1 x Water    1.50" ++ LF :: lit "4 x Stamp    0.85" ++ LF
  :: lit "2 x Pen      1.20" ++ LF :: lit "1 x Paper    2.30" ++ LF
  :: lit "5 x Candy    0.10" ++ LF :: lit "2 x Juice    2.75" ++ LF
  :: lit "3 x Card     0.99" ++ LF :: lit "Tax: 1.70" ++ LF
  :: lit "Total: 21.07".

Definition kiosk_db : App.db :=
  Eval vm_compute in
    fst (App.process_and_save noon noon (lit "kiosk.png") kiosk_text
                              App.empty_db).

Definition kiosk_row : App.receipt_row :=
  App.ReceiptRow 1 (lit "Kiosk") (lit "2024-03-01") 21.07 1.7
                 (lit "kiosk.png") (lit "2024-01-15 12:00:00").


(** * Properties *)

Ltac inv H := inversion H; subst; clear H.

(** ** Strings: lemmas *)

Lemma In_skipn (A : Type) (x : A) n (l : list A) : In x (skipn n l) -> In x l.
Proof.
  intros H. rewrite <- (firstn_skipn n l). apply in_or_app. right; exact H.
Qed.

Lemma str_eqb_eq (a b : str) : str_eqb a b = true <-> a = b.
Proof.
  unfold str_eqb. destruct (list_eq_dec ascii_dec a b); split; congruence.
Qed.

Lemma str_eqb_refl (a : str) : str_eqb a a = true.
Proof. apply str_eqb_eq; reflexivity. Qed.

Lemma lstrip_suffix (s : str) : exists ws, s = ws ++ lstrip s /\ forallb is_space ws = true.
Proof.
  induction s as [|c s IH]; simpl.
  - exists []; auto.
  - destruct (is_space c) eqn:E.
    + destruct IH as [ws [H1 H2]]. exists (c :: ws); simpl.
      rewrite E, H2. split; [f_equal; exact H1 | reflexivity].
    + exists []; auto.
Qed.

Lemma lstrip_head (s : str) :
  match lstrip s with
  | [] => True
  | c :: _ => is_space c = false
  end.
Proof.
  induction s as [|c s IH]; simpl; auto.
  destruct (is_space c) eqn:E; auto.
Qed.

Lemma lstrip_fixed (s : str) :
  match s with [] => True | c :: _ => is_space c = false end -> lstrip s = s.
Proof. destruct s as [|c s]; simpl; auto. intros ->. reflexivity. Qed.

Lemma lstrip_idem (s : str) : lstrip (lstrip s) = lstrip s.
Proof. apply lstrip_fixed, lstrip_head. Qed.

Lemma rstrip_prefix (s : str) : exists ws, s = rstrip s ++ ws /\ forallb is_space ws = true.
Proof.
  unfold rstrip. destruct (lstrip_suffix (rev s)) as [ws [H1 H2]].
  exists (rev ws). split.
  - rewrite <- rev_app_distr, <- H1, rev_involutive. reflexivity.
  - rewrite forallb_forall in *. intros x Hx. apply H2, in_rev, Hx.
Qed.

Lemma rstrip_idem (s : str) : rstrip (rstrip s) = rstrip s.
Proof. unfold rstrip. rewrite rev_involutive, lstrip_idem. reflexivity. Qed.

Lemma rstrip_keeps_head (s : str) :
  match s with [] => True | c :: _ => is_space c = false end ->
  match rstrip s with [] => True | c :: _ => is_space c = false end.
Proof.
  intros H. destruct (rstrip_prefix s) as [ws [H1 _]].
  destruct (rstrip s) as [|c r]; auto.
  rewrite H1 in H. exact H.
Qed.

(** [strip] returns a string with no white space at either end. *)
Lemma strip_idem (s : str) : strip (strip s) = strip s.
Proof.
  unfold strip.
  rewrite (lstrip_fixed (rstrip (lstrip s))).
  - apply rstrip_idem.
  - apply rstrip_keeps_head, lstrip_head.
Qed.

Lemma startswith_iff (x s : str) :
  startswith x s = true <-> exists b, s = x ++ b.
Proof.
  revert s. induction x as [|a x IH]; intros s; simpl.
  - split; [intros _; exists s; reflexivity | reflexivity].
  - destruct s as [|c s].
    + split; [discriminate | intros [b Hb]; discriminate].
    + rewrite andb_true_iff, Ascii.eqb_eq, IH. split.
      * intros [-> [b ->]]. exists b; reflexivity.
      * intros [b Hb]. injection Hb as -> ->. split; [reflexivity | exists b; reflexivity].
Qed.

Lemma contains_iff (x s : str) :
  contains x s = true <-> exists a b, s = a ++ x ++ b.
Proof.
  induction s as [|c s IH].
  - simpl. rewrite orb_false_r, startswith_iff. split.
    + intros [b Hb]. exists [], b. exact Hb.
    + intros [a [b H]]. destruct a; [exists b; exact H | discriminate].
  - simpl. rewrite orb_true_iff, startswith_iff, IH. split.
    + intros [[b Hb] | [a [b Hb]]].
      * exists [], b. exact Hb.
      * exists (c :: a), b. simpl. f_equal. exact Hb.
    + intros [a [b H]]. destruct a as [|c' a].
      * left. exists b. exact H.
      * right. injection H as _ H. exists a, b. exact H.
Qed.

Lemma lstrip_keeps_word (a x b : str) :
  match x with [] => False | c :: _ => is_space c = false end ->
  exists a', lstrip (a ++ x ++ b) = a' ++ x ++ b.
Proof.
  intros Hx. induction a as [|c a IH]; simpl.
  - exists []. simpl. apply lstrip_fixed.
    destruct x; [contradiction | exact Hx].
  - destruct (is_space c).
    + exact IH.
    + exists (c :: a). reflexivity.
Qed.

Lemma rstrip_keeps_word (a x b : str) :
  match rev x with [] => False | c :: _ => is_space c = false end ->
  exists b', rstrip (a ++ x ++ b) = a ++ x ++ b'.
Proof.
  intros Hx. unfold rstrip.
  rewrite !rev_app_distr, <- app_assoc.
  destruct (lstrip_keeps_word (rev b) (rev x) (rev a) Hx) as [b' ->].
  exists (rev b'). rewrite !rev_app_distr, !rev_involutive, <- app_assoc.
  reflexivity.
Qed.

(** A word with no white space at its ends that occurs in [s] occurs in
    [s.strip()]. *)
Lemma contains_strip (x s : str) :
  match x with [] => False | c :: _ => is_space c = false end ->
  match rev x with [] => False | c :: _ => is_space c = false end ->
  contains x s = true -> contains x (strip s) = true.
Proof.
  intros H1 H2. rewrite !contains_iff. intros [a [b ->]].
  unfold strip. destruct (lstrip_keeps_word a x b H1) as [a' ->].
  destruct (rstrip_keeps_word a' x b H2) as [b' ->].
  exists a', b'. reflexivity.
Qed.

Lemma is_space_lower (c : ascii) : is_space (lower_char c) = is_space c.
Proof. destruct c as [[] [] [] [] [] [] [] []]; reflexivity. Qed.

Lemma lstrip_lower (s : str) : lstrip (lower s) = lower (lstrip s).
Proof.
  induction s as [|c s IH]; simpl; auto.
  rewrite is_space_lower. destruct (is_space c); auto.
Qed.

Lemma rstrip_lower (s : str) : rstrip (lower s) = lower (rstrip s).
Proof.
  unfold rstrip. replace (rev (lower s)) with (lower (rev s)).
  - rewrite lstrip_lower. unfold lower. apply eq_sym, map_rev.
  - unfold lower. apply map_rev.
Qed.

Lemma strip_lower (s : str) : strip (lower s) = lower (strip s).
Proof. unfold strip. rewrite lstrip_lower, rstrip_lower. reflexivity. Qed.

Lemma split_on_cons (sep : ascii) (s : str) :
  exists l ls, split_on sep s = l :: ls.
Proof.
  induction s as [|c s [l [ls IH]]]; simpl.
  - eauto.
  - destruct (Ascii.eqb c sep); [eauto | rewrite IH; eauto].
Qed.

Lemma split_on_app (sep : ascii) (a b : str) :
  split_on sep (a ++ sep :: b) = split_on sep a ++ split_on sep b.
Proof.
  induction a as [|c a IH]; simpl.
  - rewrite Ascii.eqb_refl. reflexivity.
  - destruct (Ascii.eqb c sep).
    + rewrite IH. reflexivity.
    + rewrite IH. destruct (split_on_cons sep a) as [l [ls ->]]. reflexivity.
Qed.

(** ** The matcher finds only what the pattern allows *)

Lemma rep_sound (R : Type) (p : charset) (s : str) :
  forall lo hi pos (k : nat -> str -> option R) x,
    rep p lo hi pos s k = Some x ->
    exists cs s',
      s = cs ++ s' /\ forallb p cs = true /\ lo <= length cs /\
      (forall h, hi = Some h -> length cs <= h) /\
      k (pos + length cs) s' = Some x.
Proof.
  assert (Hstop : forall lo pos (s0 : str) (k : nat -> str -> option R) x,
             match lo with O => k pos s0 | S _ => None end = Some x ->
             exists cs s',
               s0 = cs ++ s' /\ forallb p cs = true /\ lo <= length cs /\
               (forall h : nat, length cs <= h) /\
               k (pos + length cs) s' = Some x).
  { intros lo pos s0 k x H. destruct lo; [|discriminate].
    exists [], s0. simpl. rewrite Nat.add_0_r. repeat split; auto with arith. }
  assert (Hstop' : forall lo hi pos (s0 : str) (k : nat -> str -> option R) x,
             match lo with O => k pos s0 | S _ => None end = Some x ->
             exists cs s',
               s0 = cs ++ s' /\ forallb p cs = true /\ lo <= length cs /\
               (forall h : nat, hi = Some h -> length cs <= h) /\
               k (pos + length cs) s' = Some x).
  { intros lo hi pos s0 k x H.
    destruct (Hstop _ _ _ _ _ H) as (cs & s' & H1 & H2 & H3 & H4 & H5).
    exists cs, s'. repeat split; auto. }
  induction s as [|c s IH]; intros lo hi pos k x H.
  - simpl in H. apply Hstop'. destruct hi as [[|h]|]; exact H.
  - simpl in H.
    assert (Hgo : hi <> Some 0 ->
                  (if p c
                   then match rep p (pred lo) (option_map pred hi) (S pos) s k with
                        | Some y => Some y
                        | None => match lo with O => k pos (c :: s) | S _ => None end
                        end
                   else match lo with O => k pos (c :: s) | S _ => None end)
                  = Some x ->
                  exists cs s',
                    c :: s = cs ++ s' /\ forallb p cs = true /\
                    lo <= length cs /\
                    (forall h, hi = Some h -> length cs <= h) /\
                    k (pos + length cs) s' = Some x).
    { intros Hhi H0. destruct (p c) eqn:Hpc; [|apply Hstop'; exact H0].
      destruct (rep p (pred lo) (option_map pred hi) (S pos) s k) as [y|] eqn:E;
        [|apply Hstop'; exact H0].
      injection H0 as ->.
      destruct (IH _ _ _ _ _ E) as (cs & s' & H1 & H2 & H3 & H4 & H5).
      exists (c :: cs), s'. simpl. rewrite Hpc, H2.
      repeat split; auto.
      - rewrite H1; reflexivity.
      - lia.
      - intros h Hh. destruct h as [|h]; [congruence|].
        subst hi. specialize (H4 h eq_refl). lia.
      - rewrite Nat.add_succ_r. exact H5. }
    destruct hi as [[|h]|].
    + apply Hstop'. exact H.
    + apply Hgo; [discriminate | exact H].
    + apply Hgo; [discriminate | exact H].
Qed.

Lemma run_sound (R : Type) (r : regex) :
  forall pos s g (k : nat -> str -> option str -> option R) x,
    run r pos s g k = Some x ->
    exists pos' s' g', sem r pos s g pos' s' g' /\ k pos' s' g' = Some x.
Proof.
  induction r as [p | r1 IH1 r2 IH2 | r1 IH1 r2 IH2 | p lo hi | r IH | | | ];
    intros pos s g k x H; simpl in H.
  - destruct s as [|c s]; [discriminate|].
    destruct (p c) eqn:E; [|discriminate].
    exists (S pos), s, g. split; [constructor; exact E | exact H].
  - destruct (IH1 _ _ _ _ _ H) as (pos1 & s1 & g1 & Ha & Hb).
    destruct (IH2 _ _ _ _ _ Hb) as (pos2 & s2 & g2 & Hc & Hd).
    exists pos2, s2, g2. split; [econstructor; eauto | exact Hd].
  - destruct (run r1 pos s g k) as [y|] eqn:E.
    + injection H as ->.
      destruct (IH1 _ _ _ _ _ E) as (pos' & s' & g' & Ha & Hb).
      exists pos', s', g'. split; [apply sem_alt_l; exact Ha | exact Hb].
    + destruct (IH2 _ _ _ _ _ H) as (pos' & s' & g' & Ha & Hb).
      exists pos', s', g'. split; [apply sem_alt_r; exact Ha | exact Hb].
  - destruct (rep_sound _ _ _ _ _ _ H) as (cs & s' & -> & H2 & H3 & H4 & H5).
    exists (pos + length cs), s', g. split; [constructor; auto | exact H5].
  - destruct (IH _ _ _ _ _ H) as (pos' & s' & g' & Ha & Hb).
    exists pos', s', (Some (firstn (pos' - pos) s)).
    split; [econstructor; exact Ha | exact Hb].
  - destruct (pos =? 0) eqn:E; [|discriminate].
    apply Nat.eqb_eq in E. subst pos.
    exists 0, s, g. split; [constructor | exact H].
  - destruct (at_eol s) eqn:E; [|discriminate].
    exists pos, s, g. split; [constructor; exact E | exact H].
  - exists pos, s, g. split; [constructor | exact H].
Qed.

Lemma match_at_sound (r : regex) (adv : bool) (pos : nat) (s : str) m :
  match_at r adv pos s = Some m ->
  exists pos' s' g',
    sem r pos s None pos' s' g' /\ m = MatchObj pos pos' g'.
Proof.
  unfold match_at. intros H.
  destruct (run_sound _ _ _ _ _ H) as (pos' & s' & g' & Ha & Hb).
  exists pos', s', g'. split; [exact Ha|].
  destruct (adv && (pos' =? pos)); congruence.
Qed.

(** A match reads a prefix of what is left and counts its characters. *)
Lemma sem_consumes r pos s g pos' s' g' :
  sem r pos s g pos' s' g' ->
  exists cs, s = cs ++ s' /\ pos' = pos + length cs.
Proof.
  induction 1.
  - exists [c]. simpl. split; [reflexivity | lia].
  - destruct IHsem1 as [cs1 [-> ->]]. destruct IHsem2 as [cs2 [-> ->]].
    exists (cs1 ++ cs2). rewrite length_app, <- app_assoc. split; [reflexivity | lia].
  - exact IHsem.
  - exact IHsem.
  - exists cs. auto.
  - exact IHsem.
  - exists []. auto.
  - exists []. simpl. split; [reflexivity | lia].
  - exists []. simpl. split; [reflexivity | lia].
Qed.

Lemma sem_no_group r pos s g pos' s' g' :
  sem r pos s g pos' s' g' -> has_group r = false -> g' = g.
Proof.
  induction 1; simpl; intros Hg; try reflexivity; try discriminate.
  - apply orb_false_iff in Hg. destruct Hg as [H1 H2].
    rewrite (IHsem2 H2). apply IHsem1, H1.
  - apply orb_false_iff in Hg. apply IHsem, Hg.
  - apply orb_false_iff in Hg. apply IHsem, Hg.
Qed.

Lemma search_from_sound (r : regex) (s : str) :
  forall pos m, search_from r pos s = Some m ->
    exists pos' s', match_at r false pos' s' = Some m /\
                    pos <= pos' /\ s' = skipn (pos' - pos) s.
Proof.
  induction s as [|c s IH]; intros pos m H; simpl in H.
  - destruct (match_at r false pos []) eqn:E; [|discriminate].
    injection H as ->. exists pos, []. rewrite Nat.sub_diag. auto.
  - destruct (match_at r false pos (c :: s)) eqn:E.
    + injection H as ->. exists pos, (c :: s). rewrite Nat.sub_diag. auto.
    + destruct (IH _ _ H) as (pos' & s' & Ha & Hb & Hc).
      exists pos', s'. repeat split; [exact Ha | lia |].
      replace (pos' - pos) with (S (pos' - S pos)) by lia. exact Hc.
Qed.

Lemma findall_from_Forall (P : str -> Prop) (r : regex) :
  (forall adv pos s m, match_at r adv pos s = Some m -> P (findall_item m)) ->
  forall s pos skip, Forall P (findall_from r pos s skip).
Proof.
  intros HP. induction s as [|c s IH]; intros pos skip; simpl.
  - destruct skip; [|constructor].
    destruct (match_at r false pos []) eqn:E; [|constructor].
    destruct (m_end m =? pos).
    + constructor; [eapply HP; eauto|].
      destruct (match_at r true pos []) eqn:E'; constructor.
      * eapply HP; eauto.
      * constructor.
    + constructor; [eapply HP; eauto | constructor].
  - destruct skip; [|apply IH].
    destruct (match_at r false pos (c :: s)) eqn:E; [|apply IH].
    destruct (m_end m =? pos).
    + constructor; [eapply HP; eauto|].
      destruct (match_at r true pos (c :: s)) eqn:E'; [|apply IH].
      constructor; [eapply HP; eauto | apply IH].
    + constructor; [eapply HP; eauto | apply IH].
Qed.

(** ** The matcher finds a match wherever the pattern allows one *)

Lemma rep_complete (R : Type) (p : charset) (cs : str) :
  forall lo hi pos s' (k : nat -> str -> option R) x,
    forallb p cs = true -> lo <= length cs ->
    (forall h, hi = Some h -> length cs <= h) ->
    k (pos + length cs) s' = Some x ->
    exists y, rep p lo hi pos (cs ++ s') k = Some y.
Proof.
  induction cs as [|c cs IH]; intros lo hi pos s' k x Hp Hlo Hhi Hk.
  - simpl in *. rewrite Nat.add_0_r in Hk.
    assert (lo = 0) by lia. subst lo.
    destruct s' as [|c s']; simpl.
    + destruct hi as [[|h]|]; eauto.
    + destruct hi as [[|h]|]; eauto;
        destruct (p c); eauto; destruct (rep p _ _ _ s' k); eauto.
  - simpl in Hp. apply andb_true_iff in Hp. destruct Hp as [Hc Hp].
    cbn [app rep]. rewrite Hc.
    assert (Hrec : exists y, rep p (pred lo) (option_map pred hi) (S pos)
                                 (cs ++ s') k = Some y).
    { apply (IH _ _ _ _ _ x Hp).
      - simpl in Hlo. lia.
      - intros h Hh. destruct hi as [h0|]; [|discriminate].
        simpl in Hh. injection Hh as <-.
        specialize (Hhi h0 eq_refl). simpl in Hhi. lia.
      - simpl in Hk. rewrite Nat.add_succ_r in Hk. exact Hk. }
    destruct Hrec as [y Hy]. rewrite Hy.
    destruct hi as [[|h]|]; eauto.
    specialize (Hhi 0 eq_refl). simpl in Hhi. lia.
Qed.

Lemma run_complete (R : Type) r pos s g pos' s' g' :
  sem r pos s g pos' s' g' ->
  forall (k : nat -> str -> option str -> option R) x,
    k pos' s' g' = Some x -> exists y, run r pos s g k = Some y.
Proof.
  induction 1; intros k x Hk; simpl.
  - rewrite H. eauto.
  - destruct (IHsem2 _ _ Hk) as [y Hy]. apply (IHsem1 _ y). exact Hy.
  - destruct (IHsem _ _ Hk) as [y Hy]. rewrite Hy. eauto.
  - destruct (run r1 pos s g k); eauto.
  - eapply rep_complete; eauto.
  - apply (IHsem _ x). exact Hk.
  - eauto.
  - rewrite H. eauto.
  - eauto.
Qed.

Lemma match_at_complete r pos s pos' s' g' :
  sem r pos s None pos' s' g' -> exists m, match_at r false pos s = Some m.
Proof.
  intros H. unfold match_at.
  eapply run_complete; [exact H | reflexivity].
Qed.

(** [re.search] fails only on a text with no match at any position. *)
Lemma search_from_complete (r : regex) (s : str) :
  forall pos i pos' s' g',
    i <= length s -> sem r (pos + i) (skipn i s) None pos' s' g' ->
    exists m, search_from r pos s = Some m.
Proof.
  induction s as [|c s IH]; intros pos i pos' s' g' Hi Hs.
  - simpl in Hi. assert (i = 0) by lia. subst i. rewrite Nat.add_0_r in Hs.
    simpl in *. destruct (match_at_complete Hs) as [m Hm]. rewrite Hm. eauto.
  - cbn [search_from].
    destruct (match_at r false pos (c :: s)) as [m|] eqn:E; [eauto|].
    destruct i as [|i].
    + rewrite Nat.add_0_r in Hs. simpl in Hs.
      destruct (match_at_complete Hs) as [m Hm]. congruence.
    + simpl in Hi, Hs. rewrite Nat.add_succ_r in Hs.
      apply (IH (S pos) i pos' s' g'); [lia | exact Hs].
Qed.

(** [re.findall] returns an empty list only on a text with no match at any
    position. *)
Lemma findall_from_complete (r : regex) (s : str) :
  forall pos i pos' s' g',
    i <= length s -> sem r (pos + i) (skipn i s) None pos' s' g' ->
    findall_from r pos s 0 <> [].
Proof.
  induction s as [|c s IH]; intros pos i pos' s' g' Hi Hs.
  - simpl in Hi. assert (i = 0) by lia. subst i. rewrite Nat.add_0_r in Hs.
    simpl in *. destruct (match_at_complete Hs) as [m Hm]. rewrite Hm.
    destruct (m_end m =? pos); discriminate.
  - cbn [findall_from].
    destruct (match_at r false pos (c :: s)) as [m|] eqn:E.
    + destruct (m_end m =? pos); discriminate.
    + destruct i as [|i].
      * rewrite Nat.add_0_r in Hs. simpl in Hs.
        destruct (match_at_complete Hs) as [m Hm]. congruence.
      * simpl in Hi, Hs. rewrite Nat.add_succ_r in Hs.
        apply (IH (S pos) i pos' s' g'); [lia | exact Hs].
Qed.

(** Every item of [re.findall] is the capture of a match at a position of
    the text. *)
Lemma findall_from_sound (r : regex) (s : str) :
  forall pos skip a,
    In a (findall_from r pos s skip) ->
    exists i adv m,
      i <= length s /\ match_at r adv (pos + i) (skipn i s) = Some m /\
      a = findall_item m.
Proof.
  assert (Here : forall pos adv m (s0 : str),
             match_at r adv pos s0 = Some m ->
             exists i adv' m',
               i <= length s0 /\
               match_at r adv' (pos + i) (skipn i s0) = Some m' /\
               findall_item m = findall_item m').
  { intros pos adv m s0 H. exists 0, adv, m. rewrite Nat.add_0_r.
    simpl. repeat split; auto with arith. }
  induction s as [|c s IH]; intros pos skip a Hin.
  - simpl in Hin. destruct skip; [|contradiction].
    destruct (match_at r false pos []) as [m|] eqn:E; [|contradiction].
    destruct (m_end m =? pos).
    + destruct Hin as [<-|Hin]; [eapply Here; eauto|].
      destruct (match_at r true pos []) as [m'|] eqn:E'; [|contradiction].
      destruct Hin as [<-|[]]. eapply Here; eauto.
    + destruct Hin as [<-|[]]. eapply Here; eauto.
  - assert (Hnext : forall k, In a (findall_from r (S pos) s k) ->
              exists i adv m,
                i <= length (c :: s) /\
                match_at r adv (pos + i) (skipn i (c :: s)) = Some m /\
                a = findall_item m).
    { intros k Hk. destruct (IH _ _ _ Hk) as (i & adv & m & Hi & Hm & Ha).
      exists (S i), adv, m. rewrite Nat.add_succ_r. simpl.
      repeat split; auto with arith. }
    cbn [findall_from] in Hin. destruct skip; [|eapply Hnext; eauto].
    destruct (match_at r false pos (c :: s)) as [m|] eqn:E;
      [|eapply Hnext; eauto].
    destruct (m_end m =? pos).
    + destruct Hin as [<-|Hin]; [eapply Here; eauto|].
      destruct (match_at r true pos (c :: s)) as [m'|] eqn:E';
        [|eapply Hnext; eauto].
      destruct Hin as [<-|Hin]; [eapply Here; eauto | eapply Hnext; eauto].
    + destruct Hin as [<-|Hin]; [eapply Here; eauto | eapply Hnext; eauto].
Qed.

(** [re.findall] returns an empty list exactly on the texts where the
    pattern has no match. *)
Lemma findall_nil_iff (r : regex) (text : str) :
  re_findall r text = [] <-> ~ matches_somewhere r text.
Proof.
  unfold re_findall, matches_somewhere. split.
  - intros E (i & pos' & s' & g' & Hi & Hs).
    apply (@findall_from_complete r text 0 i pos' s' g' Hi Hs E).
  - intros Hno. destruct (findall_from r 0 text 0) as [|a l] eqn:E; [reflexivity|].
    exfalso. apply Hno.
    destruct (@findall_from_sound r text 0 0 a) as (i & adv & m & Hi & Hm & _).
    { rewrite E. left; reflexivity. }
    destruct (match_at_sound _ _ _ _ Hm) as (pos' & s' & g' & Hs & _).
    exists i, pos', s', g'. split; [exact Hi | exact Hs].
Qed.

(** ** Floats: the amounts are ordered and never negative *)

Lemma shr_1_nonneg mrs : (0 <= shr_m mrs)%Z -> (0 <= shr_m (shr_1 mrs))%Z.
Proof.
  destruct mrs as [m r s]. simpl.
  destruct m as [|[p|p|]|[p|p|]]; simpl; lia.
Qed.

Lemma iter_shr_1_nonneg p :
  forall mrs, (0 <= shr_m mrs)%Z -> (0 <= shr_m (iter_pos shr_1 p mrs))%Z.
Proof.
  induction p as [p IH|p IH|]; intros mrs H; simpl.
  - apply IH, IH, shr_1_nonneg, H.
  - apply IH, IH, H.
  - apply shr_1_nonneg, H.
Qed.

Lemma shr_fexp_nonneg m e l :
  (0 <= m)%Z -> (0 <= shr_m (fst (shr_fexp prec emax m e l)))%Z.
Proof.
  intros H. unfold shr_fexp, shr.
  assert (H0 : (0 <= shr_m (shr_record_of_loc m l))%Z)
    by (destruct l as [|[]]; exact H).
  destruct (fexp prec emax (Zdigits2 m + e) - e)%Z; simpl; auto.
  apply iter_shr_1_nonneg, H0.
Qed.

Lemma round_nearest_even_nonneg m l :
  (0 <= m)%Z -> (0 <= round_nearest_even m l)%Z.
Proof.
  intros H. destruct l as [|[]]; simpl; try lia.
  destruct (Z.even m); lia.
Qed.

Lemma binary_round_aux_nonneg mx ex lx :
  (0 <= mx)%Z -> SFnonneg (binary_round_aux prec emax false mx ex lx).
Proof.
  intros H. unfold binary_round_aux.
  pose proof (shr_fexp_nonneg ex lx H) as H1.
  destruct (shr_fexp prec emax mx ex lx) as [mrs' e']. simpl in H1.
  pose proof (shr_fexp_nonneg e' loc_Exact
                (round_nearest_even_nonneg (loc_of_shr_record mrs') H1)) as H2.
  destruct (shr_fexp prec emax _ e' loc_Exact) as [mrs'' e'']. simpl in H2.
  destruct (shr_m mrs'') as [|m|m].
  - exact I.
  - destruct (e'' <=? emax - prec)%Z; exact I.
  - lia.
Qed.

Lemma binary_round_nonneg m e : SFnonneg (binary_round prec emax false m e).
Proof.
  unfold binary_round. destruct (shl_align _ _ _) as [mz ez].
  apply binary_round_aux_nonneg. lia.
Qed.

Lemma SFdiv_nonneg (n d : positive) :
  SFnonneg (SFdiv prec emax (S754_finite false n 0) (S754_finite false d 0)).
Proof.
  unfold SFdiv, SFdiv_core_binary.
  set (e' := Z.min _ _). set (m' := match (0 - 0 - e')%Z with
                                    | Zpos _ => _ | Z0 => _ | Zneg _ => _ end).
  assert (Hm : (0 <= m')%Z).
  { unfold m'. destruct (0 - 0 - e')%Z; try lia.
    apply Z.shiftl_nonneg. lia. }
  pose proof (Z_div_mod m' (Zpos d) eq_refl) as Hd.
  destruct (Z.div_eucl m' (Zpos d)) as [q r]. destruct Hd as [Hq Hr].
  apply binary_round_aux_nonneg. nia.
Qed.

Lemma SFldexp_nonneg x e : SFnonneg x -> SFnonneg (SFldexp prec emax x e).
Proof.
  destruct x as [s|s| |s m ex]; simpl; auto.
  destruct s; [contradiction|]. intros _. apply binary_round_nonneg.
Qed.

Lemma SF2Prim_nonneg x : SFnonneg x -> nonneg (SF2Prim x).
Proof.
  unfold nonneg. destruct x as [[]|[]| |[] m e]; simpl; try contradiction;
    intros _; try exact I.
  rewrite Z_ldexp_spec, of_uint63_spec. apply SFldexp_nonneg.
  unfold binary_normalize.
  match goal with
  | |- context [Uint63Axioms.to_Z ?n] =>
      pose proof (Uint63.to_Z_bounded n) as Hb;
      destruct (Uint63Axioms.to_Z n)
  end.
  - exact I.
  - apply binary_round_nonneg.
  - lia.
Qed.

Lemma float_of_ratio_nonneg n d : nonneg (float_of_ratio n d).
Proof.
  unfold float_of_ratio. destruct n; try exact I.
  destruct d; try exact I. apply SF2Prim_nonneg, SFdiv_nonneg.
Qed.

Lemma SFcompare_nonneg_refl x : SFnonneg x -> SFcompare x x = Some Eq.
Proof.
  destruct x as [[]|[]| |[] m e]; simpl; try contradiction; auto.
  intros _. rewrite Z.compare_refl, Pos.compare_cont_refl. reflexivity.
Qed.

Lemma nonneg_not_nan x : nonneg x -> is_nan x = false.
Proof.
  unfold nonneg, is_nan. intros H.
  rewrite eqb_spec. unfold SFeqb. rewrite (SFcompare_nonneg_refl _ H).
  reflexivity.
Qed.

Lemma nonneg_zero_leb x : nonneg x -> (0 <=? x)%float = true.
Proof.
  unfold nonneg. intros H. rewrite leb_spec.
  change (Prim2SF 0) with (S754_zero false).
  destruct (Prim2SF x) as [[]|[]| |[] m e]; simpl in *; try contradiction; auto.
Qed.

Lemma SFleb_nonneg_trans x y z :
  SFnonneg x -> SFnonneg y -> SFnonneg z ->
  SFleb x y = true -> SFleb y z = true -> SFleb x z = true.
Proof.
  destruct x as [[]|[]| |[] m1 e1]; simpl; try contradiction; intros _;
    destruct y as [[]|[]| |[] m2 e2]; simpl; try contradiction; intros _;
      destruct z as [[]|[]| |[] m3 e3]; simpl; try contradiction; intros _;
        unfold SFleb; simpl; try congruence.
  change (Pos.compare_cont Eq) with Pos.compare.
  destruct (Z.compare_spec e1 e2), (Z.compare_spec e2 e3),
    (Z.compare_spec e1 e3); try lia; try congruence; subst;
    destruct (Pos.compare_spec m1 m2), (Pos.compare_spec m2 m3),
      (Pos.compare_spec m1 m3); try lia; congruence.
Qed.

Lemma SFltb_false_leb x y :
  SFnonneg x -> SFnonneg y -> SFltb x y = false -> SFleb y x = true.
Proof.
  destruct x as [[]|[]| |[] m1 e1]; simpl; try contradiction; intros _;
    destruct y as [[]|[]| |[] m2 e2]; simpl; try contradiction; intros _;
      unfold SFltb, SFleb; simpl; try congruence.
  change (Pos.compare_cont Eq) with Pos.compare.
  destruct (Z.compare_spec e1 e2), (Z.compare_spec e2 e1); try lia;
    try congruence; subst.
  destruct (Pos.compare_spec m1 m2), (Pos.compare_spec m2 m1); try lia;
    congruence.
Qed.

Lemma SFltb_leb x y : SFltb x y = true -> SFleb x y = true.
Proof.
  unfold SFltb, SFleb. destruct (SFcompare x y) as [[]|]; congruence.
Qed.

Lemma SFleb_nonneg_refl x : SFnonneg x -> SFleb x x = true.
Proof.
  intros H. unfold SFleb. rewrite (SFcompare_nonneg_refl _ H). reflexivity.
Qed.

(** On amounts [max] returns an item of the list that none exceeds. *)
Lemma py_max_spec (l : list float) :
  Forall nonneg l -> l <> [] ->
  exists m, py_max l = Some m /\ In m l /\
            Forall (fun v => (v <=? m)%float = true) l.
Proof.
  destruct l as [|x l]; [congruence|]. intros Hl _. simpl.
  eexists; split; [reflexivity|].
  inversion Hl as [|? ? Hx Hl']; subst. clear Hl.
  assert (G : forall l x, nonneg x -> Forall nonneg l ->
            let m := fold_left (fun m v => if (m <? v)%float then v else m) l x in
            nonneg m /\ (x <=? m)%float = true /\ In m (x :: l) /\
            Forall (fun v => (v <=? m)%float = true) l).
  { clear. induction l as [|v l IH]; intros x Hx Hl; simpl.
    - split; [exact Hx|]. split; [|split; [left; reflexivity | constructor]].
      rewrite leb_spec. apply SFleb_nonneg_refl, Hx.
    - inversion Hl as [|? ? Hv Hl']; subst.
      destruct (x <? v)%float eqn:E; rewrite ltb_spec in E.
      + destruct (IH v Hv Hl') as (H1 & H2 & H3 & H4).
        split; [exact H1|]. split; [|split].
        * rewrite leb_spec in *.
          apply (SFleb_nonneg_trans _ (Prim2SF v) _ Hx Hv H1);
            [apply SFltb_leb, E | exact H2].
        * destruct H3 as [H3|H3]; [right; left; exact H3 | right; right; exact H3].
        * constructor; [exact H2 | exact H4].
      + destruct (IH x Hx Hl') as (H1 & H2 & H3 & H4).
        split; [exact H1|]. split; [exact H2|split].
        * destruct H3 as [H3|H3]; [left; exact H3 | right; right; exact H3].
        * constructor; [|exact H4].
          rewrite leb_spec in *.
          apply (SFleb_nonneg_trans _ (Prim2SF x) _ Hv Hx H1);
            [apply SFltb_false_leb; auto | exact H2]. }
  destruct (G l x Hx Hl') as (H1 & H2 & H3 & H4).
  split; [exact H3 | constructor; [exact H2 | exact H4]].
Qed.

(** ** What the patterns of the source capture *)

Lemma firstn_exact (A : Type) (a b : list A) (n m : nat) :
  m = n + length a -> firstn (m - n) (a ++ b) = a.
Proof.
  intros ->. replace (n + length a - n) with (length a + 0) by lia.
  rewrite firstn_app_2. simpl. apply app_nil_r.
Qed.

Lemma sem_amount_group pos s g pos' s' g' :
  sem amount_group pos s g pos' s' g' ->
  exists a, g' = Some a /\ is_amount a.
Proof.
  unfold amount_group, seqs, plus, one, times. intros H.
  inv H.
  match goal with H : sem (Seq _ _) _ _ _ _ _ _ |- _ => inv H end.
  match goal with H : sem (Rep digit_comma _ _) _ _ _ _ _ _ |- _ => inv H end.
  match goal with H : sem (Seq _ _) _ _ _ _ _ _ |- _ => inv H end.
  match goal with H : sem (Chr _) _ _ _ _ _ _ |- _ => inv H end.
  match goal with H : sem (Rep is_digit _ _) _ _ _ _ _ _ |- _ => inv H end.
  match goal with H : Ascii.eqb _ _ = true |- _ => apply Ascii.eqb_eq in H; subst end.
  match goal with H : forall h, Some 2 = Some h -> _ |- _ =>
    specialize (H 2 eq_refl) end.
  match goal with
  | H1 : forallb is_digit ?cs2 = true, H2 : 2 <= length ?cs2,
    H3 : length ?cs2 <= 2 |- _ =>
      destruct cs2 as [|d1 [|d2 [|d3 cs2]]]; simpl in H2, H3; try lia;
      simpl in H1; rewrite !andb_true_iff in H1; destruct H1 as (Hd1 & Hd2 & _)
  end.
  match goal with
  | |- exists a, Some (firstn _ (?cs ++ ?c :: [?d1; ?d2] ++ ?s')) = Some a /\ _ =>
      exists (cs ++ c :: [d1; d2]); split
  end.
  - f_equal.
    match goal with
    | |- firstn _ (?cs ++ ?c :: [?d1; ?d2] ++ ?s') = _ =>
        change (cs ++ c :: [d1; d2] ++ s')
          with (cs ++ (c :: [d1; d2]) ++ s')
    end.
    rewrite app_assoc. apply firstn_exact.
    rewrite length_app. simpl. lia.
  - match goal with
    | |- is_amount (?cs ++ _) => exists cs, d1, d2
    end.
    repeat split; auto.
    intros ->. simpl in *. lia.
Qed.

Lemma total_pattern_captures adv pos s m :
  match_at total_pattern adv pos s = Some m ->
  exists a, m_group1 m = Some a /\ is_amount a.
Proof.
  intros H. destruct (match_at_sound _ _ _ _ H) as (pos' & s' & g' & Hs & ->).
  unfold total_pattern in Hs.
  cbn [seqs] in Hs.
  inv Hs.
  match goal with H : sem (Seq _ _) _ _ _ _ _ _ |- _ => inv H end.
  match goal with H : sem amount_group _ _ _ _ _ _ |- _ =>
    apply sem_amount_group in H; exact H end.
Qed.

Lemma tax_pattern_captures adv pos s m :
  match_at tax_pattern adv pos s = Some m ->
  exists a, m_group1 m = Some a /\ is_amount a.
Proof.
  intros H. destruct (match_at_sound _ _ _ _ H) as (pos' & s' & g' & Hs & ->).
  unfold tax_pattern in Hs.
  cbn [seqs] in Hs.
  inv Hs.
  match goal with H : sem (Seq (star _) _) _ _ _ _ _ _ |- _ => inv H end.
  match goal with H : sem amount_group _ _ _ _ _ _ |- _ =>
    apply sem_amount_group in H; exact H end.
Qed.

Lemma price_pattern_captures adv pos s m :
  match_at price_pattern adv pos s = Some m ->
  exists a, m_group1 m = Some a /\ is_amount a.
Proof.
  intros H. destruct (match_at_sound _ _ _ _ H) as (pos' & s' & g' & Hs & ->).
  unfold price_pattern in Hs.
  cbn [seqs] in Hs.
  inv Hs.
  match goal with H : sem (Seq amount_group _) _ _ _ _ _ _ |- _ => inv H end.
  match goal with H : sem (Seq (star _) Eol) _ _ _ _ _ _ |- _ =>
    apply sem_no_group in H; [subst | reflexivity] end.
  match goal with H : sem amount_group _ _ _ _ _ _ |- _ =>
    apply sem_amount_group in H; exact H end.
Qed.

(** The quantity pattern captures a non-empty run of digits. *)
Lemma qty_pattern_captures adv pos s m :
  match_at qty_pattern adv pos s = Some m ->
  exists ds, m_group1 m = Some ds /\ ds <> [] /\ forallb is_digit ds = true.
Proof.
  intros H. destruct (match_at_sound _ _ _ _ H) as (pos' & s' & g' & Hs & ->).
  unfold qty_pattern in Hs.
  cbn [seqs] in Hs.
  inv Hs.
  match goal with H : sem Bol _ _ _ _ _ _ |- _ => inv H end.
  match goal with H : sem (Seq (Group _) _) _ _ _ _ _ _ |- _ => inv H end.
  match goal with H : sem (Seq (star _) _) _ _ _ _ _ _ |- _ =>
    apply sem_no_group in H; [subst | reflexivity] end.
  match goal with H : sem (Group _) _ _ _ _ _ _ |- _ => inv H end.
  clear H.
  match goal with H : sem (plus _) _ _ _ _ _ _ |- _ => unfold plus in H; inv H end.
  cbn [m_group1].
  match goal with
  | |- exists ds, Some (firstn _ (?cs ++ _)) = Some ds /\ _ => exists cs
  end.
  simpl. split; [|split; auto].
  - f_equal. rewrite Nat.sub_0_r. replace (length cs) with (length cs + 0) by lia.
    rewrite firstn_app_2. simpl. apply app_nil_r.
  - intros ->. simpl in *. lia.
Qed.

(** ** Numerals *)

Lemma digit_comma_not_comma c :
  digit_comma c = true -> negb (Ascii.eqb c ","%char) = is_digit c.
Proof. destruct c as [[] [] [] [] [] [] [] []]; vm_compute; congruence. Qed.

Lemma digit_not_comma c : is_digit c = true -> negb (Ascii.eqb c ","%char) = true.
Proof. destruct c as [[] [] [] [] [] [] [] []]; vm_compute; congruence. Qed.

Lemma remove_commas_digits ds :
  forallb digit_comma ds = true ->
  remove_commas ds = filter is_digit ds /\
  forallb is_digit (remove_commas ds) = true.
Proof.
  unfold remove_commas. induction ds as [|c ds IH]; simpl; auto.
  rewrite andb_true_iff. intros [Hc Hds]. destruct (IH Hds) as [IH1 IH2].
  rewrite (digit_comma_not_comma _ Hc).
  destruct (is_digit c) eqn:E; simpl; rewrite ?E; rewrite IH1 in *;
    split; auto.
Qed.

Lemma span_digits_app xs c rest :
  forallb is_digit xs = true -> is_digit c = false ->
  span_digits (xs ++ c :: rest) = (xs, c :: rest).
Proof.
  intros Hxs Hc. induction xs as [|x xs IH]; simpl in *.
  - rewrite Hc. reflexivity.
  - apply andb_true_iff in Hxs. destruct Hxs as [Hx Hxs].
    rewrite Hx, (IH Hxs). reflexivity.
Qed.

(** [float] never raises on a captured amount, and returns its value. *)
Lemma py_float_amount a :
  is_amount a -> py_float (remove_commas a) = Some (amount_value a).
Proof.
  intros (ds & d1 & d2 & -> & Hne & Hds & Hd1 & Hd2).
  destruct (remove_commas_digits _ Hds) as [Hrc Hall].
  unfold amount_value, py_float, remove_commas in *.
  rewrite !filter_app. simpl.
  rewrite (digit_not_comma _ Hd1), (digit_not_comma _ Hd2), Hd1, Hd2.
  rewrite span_digits_app; [|exact Hall | reflexivity].
  simpl. rewrite Hd1, Hd2. simpl.
  rewrite Nat.add_comm. simpl. rewrite Hrc. reflexivity.
Qed.

Lemma amount_value_nonneg a : nonneg (amount_value a).
Proof. apply float_of_ratio_nonneg. Qed.

Lemma digit_val_range c : is_digit c = true -> (0 <= digit_val c <= 9)%Z.
Proof.
  unfold is_digit, digit_val. cbv zeta. generalize (code c). intros n.
  rewrite andb_true_iff, !Nat.leb_le. lia.
Qed.

Lemma digits_val_nonneg s : forallb is_digit s = true -> (0 <= digits_val s)%Z.
Proof.
  unfold digits_val.
  assert (G : forall acc, (0 <= acc)%Z -> forallb is_digit s = true ->
              (0 <= fold_left (fun a c => 10 * a + digit_val c) s acc)%Z).
  { induction s as [|c s IH]; intros acc Hacc Hs; cbn [fold_left forallb] in *;
      auto.
    apply andb_true_iff in Hs. destruct Hs as [Hc Hs].
    apply IH; auto. pose proof (digit_val_range _ Hc). lia. }
  apply G. lia.
Qed.

Lemma last_item_In (A : Type) (l : list A) x : last_item l = Some x -> In x l.
Proof.
  unfold last_item. intros H. apply in_rev.
  destruct (rev l); [discriminate|]. injection H as ->. left; reflexivity.
Qed.

Lemma traverse_map (A B : Type) (f : A -> option B) (v : A -> B) (l : list A) :
  Forall (fun x => f x = Some (v x)) l -> traverse f l = Some (map v l).
Proof.
  induction 1 as [|x l Hx Hl IH]; simpl; auto.
  rewrite Hx, IH. reflexivity.
Qed.

Lemma total_matches_are_amounts text :
  Forall is_amount (re_findall total_pattern text).
Proof.
  apply findall_from_Forall. intros adv pos s m H.
  destruct (total_pattern_captures _ _ _ H) as (a & Ha & Hamt).
  unfold findall_item. rewrite Ha. exact Hamt.
Qed.

Lemma tax_matches_are_amounts text :
  Forall is_amount (re_findall tax_pattern text).
Proof.
  apply findall_from_Forall. intros adv pos s m H.
  destruct (tax_pattern_captures _ _ _ H) as (a & Ha & Hamt).
  unfold findall_item. rewrite Ha. exact Hamt.
Qed.

(** ** The rule-based field extractor *)

(** ** Mentions of an amount: the scan of [re.findall]

    The extractors read the total and the tax off [re.findall].  The lemmas
    below relate its result to the mentions the specification describes:
    every mention is captured, every captured item is a mention, and the
    last item is the amount of the last mention. *)

(** A run of characters of a set that is followed by a character outside
    the set is determined by the text. *)
Lemma span_unique (p : ascii -> bool) (x1 x2 r1 r2 : str) :
  forallb p x1 = true -> forallb p x2 = true ->
  stops p r1 -> stops p r2 ->
  x1 ++ r1 = x2 ++ r2 -> x1 = x2 /\ r1 = r2.
Proof.
  revert x2. induction x1 as [|c x1 IH]; intros x2 H1 H2 S1 S2 E.
  - destruct x2 as [|c2 x2]; [auto|].
    simpl in E. subst r1. simpl in S1, H2.
    apply andb_true_iff in H2. destruct H2 as [H2 _]. congruence.
  - destruct x2 as [|c2 x2].
    + simpl in E. subst r2. simpl in S2, H1.
      apply andb_true_iff in H1. destruct H1 as [H1 _]. congruence.
    + simpl in E. injection E as -> E. simpl in H1, H2.
      apply andb_true_iff in H1. apply andb_true_iff in H2.
      destruct (IH x2 (proj2 H1) (proj2 H2) S1 S2 E) as [-> ->]. auto.
Qed.

Lemma amount_head a :
  is_amount a -> exists c rest, a = c :: rest /\ digit_comma c = true.
Proof.
  intros (ds & d1 & d2 & -> & Hne & Hds & _).
  destruct ds as [|c ds]; [congruence|].
  simpl in Hds. apply andb_true_iff in Hds.
  exists c, (ds ++ "."%char :: [d1; d2]). split; [reflexivity | apply Hds].
Qed.

Lemma is_digit_amount_char c : is_digit c = true -> amount_char c = true.
Proof. unfold amount_char, digit_comma. intros ->. reflexivity. Qed.

Lemma amount_chars a : is_amount a -> forallb amount_char a = true.
Proof.
  intros (ds & d1 & d2 & -> & _ & Hds & Hd1 & Hd2).
  rewrite forallb_app. apply andb_true_iff. split.
  - rewrite forallb_forall in *. intros c Hc. unfold amount_char.
    rewrite (Hds c Hc). reflexivity.
  - cbn [forallb]. rewrite (is_digit_amount_char _ Hd1), (is_digit_amount_char _ Hd2).
    reflexivity.
Qed.

Lemma amount_prefix_unique a a' post post' :
  is_amount a -> is_amount a' -> a ++ post = a' ++ post' -> a = a'.
Proof.
  intros (ds & d1 & d2 & -> & _ & Hds & _) (ds' & d1' & d2' & -> & _ & Hds' & _) E.
  rewrite <- !app_assoc in E.
  destruct (@span_unique digit_comma ds ds' (["."%char; d1; d2] ++ post)
              (["."%char; d1'; d2'] ++ post') Hds Hds' eq_refl eq_refl E)
    as [-> E'].
  simpl in E'. injection E' as -> ->. reflexivity.
Qed.

(** Two amounts led by plain characters, the second beginning within the
    first: they are the same amount.  A keyword cannot begin inside an
    amount, and the amount after it begins at the first digit or comma. *)
Lemma lead_amount_overlap s k' a' d k a :
  lead_amount s k' a' -> d < length k' + length a' ->
  lead_amount (skipn d s) k a -> k <> [] -> a = a'.
Proof.
  intros (post' & -> & Hk' & Ha') Hd (post & E & Hk & Ha) Hne.
  destruct (amount_head Ha) as (c & rest & Hc & Hdc).
  destruct (amount_head Ha') as (c' & rest' & Hc' & Hdc').
  destruct (le_lt_dec d (length k')) as [Hle|Hgt].
  - rewrite skipn_app in E.
    replace (d - length k') with 0 in E by lia. cbn [skipn] in E.
    assert (Hsk : forallb plain (skipn d k') = true).
    { rewrite forallb_forall in *. intros x Hx. apply Hk'.
      eapply In_skipn; eauto. }
    destruct (@span_unique plain (skipn d k') k (a' ++ post') (a ++ post)
                Hsk Hk) as [_ E'].
    + rewrite Hc'. simpl. unfold plain, amount_char. rewrite Hdc'. reflexivity.
    + rewrite Hc. simpl. unfold plain, amount_char. rewrite Hdc. reflexivity.
    + exact E.
    + symmetry. eapply amount_prefix_unique; eauto.
  - exfalso. rewrite skipn_app in E.
    rewrite (skipn_all2 k') in E by lia. cbn [app] in E.
    rewrite skipn_app in E.
    destruct (skipn (d - length k') a') as [|x xs] eqn:Es.
    + assert (length (skipn (d - length k') a') = 0) by (rewrite Es; reflexivity).
      rewrite length_skipn in H. lia.
    + destruct k as [|y k]; [congruence|].
      simpl in E. injection E as -> _.
      simpl in Hk. apply andb_true_iff in Hk. destruct Hk as [Hy _].
      assert (Hin : In y a').
      { eapply In_skipn. rewrite Es. left; reflexivity. }
      pose proof (amount_chars Ha') as Hall. rewrite forallb_forall in Hall.
      unfold plain in Hy. rewrite (Hall _ Hin) in Hy. discriminate.
Qed.

Lemma last_item_cons (A : Type) (x : A) (l : list A) (y : A) :
  last_item l = Some y -> last_item (x :: l) = Some y.
Proof.
  unfold last_item. simpl. destruct (rev l) as [|z zs]; [discriminate|].
  intros H. exact H.
Qed.

(** The scan, for a pattern [r] and the mentions [M] it stands for: a
    match reads plain characters and then captures an amount; it contains
    a mention; a mention is of that shape too, and the pattern matches
    where a mention begins. *)
Section Scan.
Variable r : regex.
Variable M : str -> str -> Prop.

Hypothesis r_shape : forall pos s pos' s' g',
  sem r pos s None pos' s' g' ->
  exists k a, k <> [] /\ lead_amount s k a /\
              pos' = pos + length k + length a /\ g' = Some a.
Hypothesis r_sound : forall pos s pos' s' g',
  sem r pos s None pos' s' g' ->
  exists d a, d < pos' - pos /\ M (skipn d s) a.
Hypothesis M_shape : forall s a,
  M s a -> exists k, k <> [] /\ lead_amount s k a.
Hypothesis M_complete : forall pos s a,
  M s a -> exists pos' s' g', sem r pos s None pos' s' g'.

Lemma match_captures_mention adv pos s m d a :
  match_at r adv pos s = Some m -> d < m_end m - pos -> M (skipn d s) a ->
  findall_item m = a.
Proof.
  intros Hm Hd HM.
  destruct (match_at_sound _ _ _ _ Hm) as (pos' & s' & g' & Hs & ->).
  destruct (r_shape Hs) as (k' & a' & Hk' & Hl' & -> & ->).
  destruct (M_shape HM) as (k & Hk & Hl).
  cbn [m_end] in Hd. unfold findall_item. cbn [m_group1].
  symmetry. eapply lead_amount_overlap; eauto. lia.
Qed.

Lemma match_advances adv pos s m :
  match_at r adv pos s = Some m -> pos < m_end m.
Proof.
  intros Hm.
  destruct (match_at_sound _ _ _ _ Hm) as (pos' & s' & g' & Hs & ->).
  destruct (r_shape Hs) as (k' & a' & Hk' & Hl' & -> & ->).
  cbn [m_end]. destruct k'; [congruence | simpl; lia].
Qed.

Lemma match_is_mention adv pos s m :
  match_at r adv pos s = Some m ->
  exists d, d < m_end m - pos /\ M (skipn d s) (findall_item m).
Proof.
  intros Hm.
  destruct (match_at_sound _ _ _ _ Hm) as (pos' & s' & g' & Hs & E).
  destruct (r_sound Hs) as (d & a & Hd & HM).
  exists d. subst m. cbn [m_end]. split; [exact Hd|].
  rewrite (@match_captures_mention adv pos s (MatchObj pos pos' g') d a);
    auto.
Qed.

Lemma findall_from_match pos s m :
  match_at r false pos s = Some m ->
  findall_from r pos s 0 = findall_item m :: rest_from r pos s (m_end m - pos - 1).
Proof.
  intros Hm. pose proof (match_advances _ _ _ Hm) as Hadv.
  assert (E : (m_end m =? pos) = false) by (apply Nat.eqb_neq; lia).
  destruct s; simpl; rewrite Hm, E; reflexivity.
Qed.

Lemma findall_from_no_match pos s :
  match_at r false pos s = None ->
  findall_from r pos s 0 = rest_from r pos s 0.
Proof. intros Hm. destruct s; simpl; rewrite Hm; reflexivity. Qed.

Lemma findall_from_skip pos s k :
  findall_from r pos s (S k) = rest_from r pos s k.
Proof. destruct s; reflexivity. Qed.

Lemma M_not_nil a : ~ M [] a.
Proof.
  intros H. destruct (M_shape H) as (k & Hk & post & E & _).
  destruct k; [congruence | discriminate].
Qed.

Lemma skipn_M_nil d a : ~ M (skipn d []) a.
Proof. rewrite skipn_nil. apply M_not_nil. Qed.

(** Every mention is captured by the scan. *)
Lemma findall_captures (s : str) :
  forall pos skip d a,
    skip <= d -> M (skipn d s) a -> In a (findall_from r pos s skip).
Proof.
  induction s as [|c s IH]; intros pos skip d a Hd HM.
  - exfalso. eapply skipn_M_nil; eauto.
  - destruct skip as [|k].
    + destruct (match_at r false pos (c :: s)) as [m|] eqn:Em.
      * rewrite (findall_from_match _ _ Em).
        destruct (lt_dec d (m_end m - pos)) as [Hlt|Hge].
        -- left. eapply match_captures_mention; eauto.
        -- right. pose proof (match_advances _ _ _ Em).
           destruct d as [|d]; [lia|]. cbn [rest_from].
           apply (IH _ _ d); [lia | exact HM].
      * rewrite (findall_from_no_match _ _ Em).
        destruct d as [|d].
        -- exfalso. cbn [skipn] in HM.
           destruct (M_complete pos HM) as (pos' & s' & g' & Hs).
           destruct (match_at_complete Hs) as [m Hm]. congruence.
        -- cbn [rest_from]. apply (IH _ _ d); [lia | exact HM].
    + rewrite findall_from_skip. destruct d as [|d]; [lia|].
      cbn [rest_from]. apply (IH _ _ d); [lia | exact HM].
Qed.

(** The scan lists nothing where no mention begins. *)
Lemma findall_none (s : str) :
  forall pos skip,
    (forall d a, skip <= d -> ~ M (skipn d s) a) ->
    findall_from r pos s skip = [].
Proof.
  induction s as [|c s IH]; intros pos skip Hno.
  - destruct skip; [|reflexivity].
    destruct (match_at r false pos []) as [m|] eqn:Em.
    + exfalso. destruct (match_is_mention _ _ _ Em) as (d & _ & HM).
      eapply skipn_M_nil; eauto.
    + rewrite (findall_from_no_match _ _ Em). reflexivity.
  - assert (Hnext : forall k, skip <= S k ->
                              findall_from r (S pos) s k = []).
    { intros k Hk. apply IH. intros d a Hd. apply (Hno (S d) a). lia. }
    destruct skip as [|k].
    + destruct (match_at r false pos (c :: s)) as [m|] eqn:Em.
      * exfalso. destruct (match_is_mention _ _ _ Em) as (d & _ & HM).
        apply (Hno d _ (Nat.le_0_l d) HM).
      * rewrite (findall_from_no_match _ _ Em). apply Hnext. lia.
    + rewrite findall_from_skip. apply Hnext. lia.
Qed.

(** The last item of the scan is the amount of the mention after which no
    mention begins. *)
Lemma findall_last (s : str) :
  forall pos skip d a,
    skip <= d -> M (skipn d s) a ->
    (forall d' a', d < d' -> ~ M (skipn d' s) a') ->
    last_item (findall_from r pos s skip) = Some a.
Proof.
  induction s as [|c s IH]; intros pos skip d a Hd HM Hlast.
  - exfalso. eapply skipn_M_nil; eauto.
  - assert (Hnext : forall k d0, d = S d0 -> k <= d0 ->
              last_item (findall_from r (S pos) s k) = Some a).
    { intros k d0 -> Hk. apply (IH _ _ d0); [exact Hk | exact HM |].
      intros d' a' Hd'. apply (Hlast (S d') a'). lia. }
    destruct skip as [|k].
    + destruct (match_at r false pos (c :: s)) as [m|] eqn:Em.
      * rewrite (findall_from_match _ _ Em).
        pose proof (match_advances _ _ _ Em) as Hadv.
        destruct (lt_dec d (m_end m - pos)) as [Hlt|Hge].
        -- rewrite (match_captures_mention _ _ _ Em Hlt HM).
           cbn [rest_from]. rewrite findall_none; [reflexivity|].
           intros d' a' Hd'. apply (Hlast (S d') a'). lia.
        -- destruct d as [|d0]; [lia|]. cbn [rest_from].
           apply last_item_cons. apply (Hnext _ d0); [reflexivity | lia].
      * rewrite (findall_from_no_match _ _ Em).
        destruct d as [|d0].
        -- exfalso. cbn [skipn] in HM.
           destruct (M_complete pos HM) as (pos' & s' & g' & Hs).
           destruct (match_at_complete Hs) as [m Hm]. congruence.
        -- cbn [rest_from]. apply (Hnext _ d0); [reflexivity | lia].
    + rewrite findall_from_skip. destruct d as [|d0]; [lia|].
      cbn [rest_from]. apply (Hnext _ d0); [reflexivity | lia].
Qed.

(** Every item of the scan is the amount of a mention. *)
Lemma findall_items_are_mentions (s : str) pos skip a :
  In a (findall_from r pos s skip) ->
  exists d, d <= length s /\ M (skipn d s) a.
Proof.
  intros Hin.
  destruct (findall_from_sound _ _ _ _ _ Hin) as (i & adv & m & Hi & Hm & ->).
  destruct (match_is_mention _ _ _ Hm) as (d & Hd & HM).
  rewrite skipn_skipn in HM. exists (d + i). split; [|exact HM].
  destruct (le_lt_dec (d + i) (length s)) as [H|H]; [exact H|].
  exfalso. rewrite skipn_all2 in HM by lia. eapply M_not_nil; eauto.
Qed.

End Scan.

(** ** Keywords *)

Lemma lower_nil_inv (s : str) : lower s = [] -> s = [].
Proof. destruct s; [reflexivity | discriminate]. Qed.

Lemma sem_word_ci_inv (w : str) :
  w <> [] ->
  forall pos s g pos' s' g',
    sem (word_ci w) pos s g pos' s' g' ->
    exists kw, s = kw ++ s' /\ lower kw = lower w /\
               pos' = pos + length kw /\ g' = g.
Proof.
  induction w as [|c w IH]; intros Hne pos s g pos' s' g' H; [congruence|].
  destruct w as [|c2 w].
  - cbn [word_ci] in H. unfold one_ci in H. inv H.
    match goal with H : Ascii.eqb _ _ = true |- _ => apply Ascii.eqb_eq in H end.
    eexists [_]. simpl. repeat split; [congruence | lia].
  - change (word_ci (c :: c2 :: w))
      with (Seq (one_ci c) (word_ci (c2 :: w))) in H.
    inv H.
    match goal with H : sem (one_ci _) _ _ _ _ _ _ |- _ =>
      unfold one_ci in H; inv H end.
    match goal with H : Ascii.eqb _ _ = true |- _ => apply Ascii.eqb_eq in H end.
    match goal with H : sem _ (S pos) _ _ _ _ _ |- _ =>
      apply (IH ltac:(discriminate)) in H;
      destruct H as (kw & -> & Hl & -> & ->) end.
    eexists (_ :: kw). simpl. repeat split; [f_equal; assumption | lia].
Qed.

Lemma sem_word_ci_intro (w : str) :
  w <> [] ->
  forall kw pos rest g,
    lower kw = lower w ->
    sem (word_ci w) pos (kw ++ rest) g (pos + length kw) rest g.
Proof.
  induction w as [|c w IH]; intros Hne kw pos rest g Hl; [congruence|].
  destruct kw as [|x kw]; [discriminate|].
  simpl in Hl. injection Hl as Hx Hl.
  destruct w as [|c2 w].
  - apply lower_nil_inv in Hl. subst kw. cbn [word_ci app length].
    replace (pos + 1) with (S pos) by lia. constructor.
    apply Ascii.eqb_eq. exact Hx.
  - change (word_ci (c :: c2 :: w))
      with (Seq (one_ci c) (word_ci (c2 :: w))).
    cbn [app length]. econstructor.
    + constructor. apply Ascii.eqb_eq. exact Hx.
    + replace (pos + S (length kw)) with (S pos + length kw) by lia.
      apply IH; [discriminate | exact Hl].
Qed.

Lemma sem_alts_inv (rs : list regex) pos s g pos' s' g' :
  rs <> [] -> sem (alts rs) pos s g pos' s' g' ->
  exists r, In r rs /\ sem r pos s g pos' s' g'.
Proof.
  induction rs as [|r rs IH]; intros Hne H; [congruence|].
  destruct rs as [|r2 rs].
  - exists r. split; [left; reflexivity | exact H].
  - cbn [alts] in H. inv H.
    + exists r. split; [left; reflexivity | assumption].
    + match goal with H : sem _ _ _ _ _ _ _ |- _ =>
        apply (IH ltac:(discriminate)) in H; destruct H as (r' & Hin & Hs) end.
      exists r'. split; [right; exact Hin | exact Hs].
Qed.

Lemma sem_alts_intro (rs : list regex) r pos s g pos' s' g' :
  In r rs -> sem r pos s g pos' s' g' -> sem (alts rs) pos s g pos' s' g'.
Proof.
  induction rs as [|r1 rs IH]; intros Hin H; [contradiction|].
  destruct rs as [|r2 rs].
  - destruct Hin as [->|[]]. exact H.
  - cbn [alts]. destruct Hin as [->|Hin].
    + apply sem_alt_l. exact H.
    + apply sem_alt_r. apply IH; assumption.
Qed.

Lemma sem_amount_group_inv pos s g pos' s' g' :
  sem amount_group pos s g pos' s' g' ->
  exists a, s = a ++ s' /\ is_amount a /\ g' = Some a /\ pos' = pos + length a.
Proof.
  intros H. destruct (sem_consumes H) as (cs & Hs & Hp).
  destruct (sem_amount_group H) as (a & Hg & Ha).
  assert (Hg' : g' = Some (firstn (pos' - pos) s))
    by (unfold amount_group in H; inversion H; reflexivity).
  rewrite Hg' in Hg. subst s pos'.
  rewrite firstn_exact in Hg by reflexivity. injection Hg as <-.
  exists cs. repeat split; auto.
  rewrite Hg'. f_equal. apply firstn_exact. reflexivity.
Qed.

Lemma sem_amount_group_intro a pos rest g :
  is_amount a -> sem amount_group pos (a ++ rest) g (pos + length a) rest (Some a).
Proof.
  intros (ds & d1 & d2 & -> & Hne & Hds & Hd1 & Hd2).
  assert (G : sem (seqs [plus digit_comma; one "."; times is_digit 2 2]) pos
                  ((ds ++ "."%char :: [d1; d2]) ++ rest) g
                  (pos + length (ds ++ "."%char :: [d1; d2])) rest g).
  { cbn [seqs]. rewrite <- app_assoc, length_app. cbn [length app].
    econstructor.
    - unfold plus. apply sem_rep; [exact Hds | | discriminate].
      destruct ds; [congruence | simpl; lia].
    - econstructor.
      + unfold one. constructor. reflexivity.
      + replace (pos + (length ds + 3)) with (S (pos + length ds) + length [d1; d2])
          by (simpl; lia).
        change (d1 :: d2 :: rest) with ([d1; d2] ++ rest).
        unfold times. apply sem_rep.
        * simpl. rewrite Hd1, Hd2. reflexivity.
        * simpl. lia.
        * intros h [= <-]. simpl. lia. }
  apply sem_group in G. rewrite firstn_exact in G by reflexivity. exact G.
Qed.

(** ** Character classes *)

Lemma plain_lower c : plain (lower_char c) = true -> plain c = true.
Proof. destruct c as [[] [] [] [] [] [] [] []]; vm_compute; congruence. Qed.

Lemma separator_plain c : space_colon_dollar c = true -> plain c = true.
Proof. destruct c as [[] [] [] [] [] [] [] []]; vm_compute; congruence. Qed.

Lemma space_plain c : is_space c = true -> plain c = true.
Proof. destruct c as [[] [] [] [] [] [] [] []]; vm_compute; congruence. Qed.

Lemma lower_space c : lower_char c = " "%char -> is_space c = true.
Proof. destruct c as [[] [] [] [] [] [] [] []]; vm_compute; congruence. Qed.

Lemma separator_iff c : separator c <-> space_colon_dollar c = true.
Proof.
  unfold separator, space_colon_dollar, in_set. cbn [lit list_ascii_of_string existsb].
  rewrite orb_false_r, !orb_true_iff, !Ascii.eqb_eq. tauto.
Qed.

Lemma separators_iff sep :
  Forall separator sep <-> forallb space_colon_dollar sep = true.
Proof.
  rewrite forallb_forall, Forall_forall.
  split; intros H c Hc; apply separator_iff, H, Hc.
Qed.

Lemma forallb_plain_lower kw :
  forallb plain (lower kw) = true -> forallb plain kw = true.
Proof.
  induction kw as [|c kw IH]; simpl; auto.
  rewrite !andb_true_iff. intros [H1 H2]. split; [apply plain_lower, H1 | auto].
Qed.

Lemma forallb_impl (A : Type) (p q : A -> bool) (l : list A) :
  (forall x, p x = true -> q x = true) ->
  forallb p l = true -> forallb q l = true.
Proof.
  intros H. rewrite !forallb_forall. intros Hp x Hx. apply H, Hp, Hx.
Qed.

(** A keyword of either list is made of plain characters, and is not
    empty. *)
Lemma keyword_plain words kw :
  forallb (fun w => forallb plain (lower (lit w))
                    && negb (Nat.eqb (length (lit w)) 0)) words = true ->
  keyword_ci words kw -> forallb plain kw = true /\ kw <> [].
Proof.
  intros Hall (w & Hin & Hl).
  rewrite forallb_forall in Hall. specialize (Hall w Hin).
  apply andb_true_iff in Hall. destruct Hall as [H1 H2].
  split.
  - apply forallb_plain_lower. rewrite Hl. exact H1.
  - intros ->. simpl in Hl. symmetry in Hl. apply lower_nil_inv in Hl.
    rewrite Hl in H2. discriminate.
Qed.

(** ** The total pattern and the mentions of a total *)

Lemma keyword_words_of_total w :
  In w spec_total_keywords -> lit w <> [].
Proof.
  intros H E.
  assert (G : forallb (fun w => negb (Nat.eqb (length (lit w)) 0))
                      spec_total_keywords = true) by reflexivity.
  rewrite forallb_forall in G. specialize (G w H). rewrite E in G. discriminate.
Qed.

Lemma keyword_words_of_tax w :
  In w spec_tax_keywords -> lit w <> [].
Proof.
  intros H E.
  assert (G : forallb (fun w => negb (Nat.eqb (length (lit w)) 0))
                      spec_tax_keywords = true) by reflexivity.
  rewrite forallb_forall in G. specialize (G w H). rewrite E in G. discriminate.
Qed.

Lemma sem_star_inv (p : charset) pos s g pos' s' g' :
  sem (star p) pos s g pos' s' g' ->
  exists cs, s = cs ++ s' /\ forallb p cs = true /\
             pos' = pos + length cs /\ g' = g.
Proof. unfold star. intros H. inv H. eauto. Qed.

Lemma sem_star_intro (p : charset) cs pos rest (g : option str) :
  forallb p cs = true -> sem (star p) pos (cs ++ rest) g (pos + length cs) rest g.
Proof.
  intros H. unfold star. apply sem_rep; [exact H | lia | discriminate].
Qed.

Lemma sem_seq_inv r1 r2 pos s g pos' s' g' :
  sem (Seq r1 r2) pos s g pos' s' g' ->
  exists pos1 s1 g1,
    sem r1 pos s g pos1 s1 g1 /\ sem r2 pos1 s1 g1 pos' s' g'.
Proof. intros H. inv H. eauto. Qed.

Lemma total_pattern_inv pos s pos' s' g' :
  sem total_pattern pos s None pos' s' g' ->
  exists kw sep a,
    s = kw ++ sep ++ a ++ s' /\ keyword_ci spec_total_keywords kw /\
    forallb space_colon_dollar sep = true /\ is_amount a /\ g' = Some a /\
    pos' = pos + length kw + length sep + length a.
Proof.
  unfold total_pattern.
  change (seqs [?a; ?b; ?c]) with (Seq a (Seq b c)).
  intros H. apply sem_seq_inv in H. destruct H as (pos1 & s1 & g1 & Hr & H).
  apply sem_seq_inv in H. destruct H as (pos2 & s2 & g2 & Hs & H).
  apply sem_alts_inv in Hr; [|discriminate]. destruct Hr as (r & Hin & Hr).
  apply in_map_iff in Hin. destruct Hin as (w & <- & Hw).
  apply sem_word_ci_inv in Hr; [|apply keyword_words_of_total, Hw].
  destruct Hr as (kw & -> & Hl & -> & ->).
  apply sem_star_inv in Hs. destruct Hs as (sep & -> & Hsep & -> & ->).
  apply sem_amount_group_inv in H. destruct H as (a & -> & Ha & -> & ->).
  exists kw, sep, a. repeat split; auto.
  exists w. split; [exact Hw | exact Hl].
Qed.

Lemma total_pattern_intro pos kw sep a post :
  keyword_ci spec_total_keywords kw -> forallb space_colon_dollar sep = true ->
  is_amount a ->
  sem total_pattern pos (kw ++ sep ++ a ++ post) None
      (pos + length kw + length sep + length a) post (Some a).
Proof.
  intros (w & Hw & Hl) Hsep Ha. unfold total_pattern.
  change (seqs [?a; ?b; ?c]) with (Seq a (Seq b c)).
  econstructor.
  - apply sem_alts_intro with (r := word_ci (lit w)).
    + apply in_map_iff. exists w. split; [reflexivity | exact Hw].
    + apply sem_word_ci_intro; [apply keyword_words_of_total, Hw | exact Hl].
  - econstructor.
    + apply sem_star_intro. exact Hsep.
    + apply sem_amount_group_intro. exact Ha.
Qed.

Lemma mention_shape words s a :
  forallb (fun w => forallb plain (lower (lit w))
                    && negb (Nat.eqb (length (lit w)) 0)) words = true ->
  mention_here words s a -> exists k, k <> [] /\ lead_amount s k a.
Proof.
  intros Hw (kw & sep & post & -> & Hkw & Hsep & Ha).
  destruct (keyword_plain Hw Hkw) as [Hp Hne].
  exists (kw ++ sep). split.
  - destruct kw; [congruence | discriminate].
  - exists post. rewrite <- app_assoc. split; [reflexivity|]. split; [|exact Ha].
    rewrite forallb_app, Hp. simpl.
    apply separators_iff in Hsep.
    eapply forallb_impl; [|exact Hsep]. apply separator_plain.
Qed.

Lemma total_r_shape pos s pos' s' g' :
  sem total_pattern pos s None pos' s' g' ->
  exists k a, k <> [] /\ lead_amount s k a /\
              pos' = pos + length k + length a /\ g' = Some a.
Proof.
  intros H.
  destruct (total_pattern_inv H) as (kw & sep & a & -> & Hkw & Hsep & Ha & -> & ->).
  destruct (@mention_shape spec_total_keywords (kw ++ sep ++ a ++ s') a eq_refl)
    as (k & Hk & Hl).
  { exists kw, sep, s'. repeat split; auto. apply separators_iff, Hsep. }
  exists (kw ++ sep), a.
  destruct (@keyword_plain spec_total_keywords kw eq_refl Hkw) as [Hp Hne].
  split; [destruct kw; [congruence | discriminate]|].
  split; [|split; [rewrite length_app; lia | reflexivity]].
  exists s'. rewrite <- app_assoc. split; [reflexivity|]. split; [|exact Ha].
  rewrite forallb_app, Hp. simpl.
  eapply forallb_impl; [|exact Hsep]. apply separator_plain.
Qed.

Lemma total_r_sound pos s pos' s' g' :
  sem total_pattern pos s None pos' s' g' ->
  exists d a, d < pos' - pos /\ mention_here spec_total_keywords (skipn d s) a.
Proof.
  intros H.
  destruct (total_pattern_inv H) as (kw & sep & a & -> & Hkw & Hsep & Ha & -> & ->).
  destruct (@keyword_plain spec_total_keywords kw eq_refl Hkw) as [Hp Hne].
  exists 0, a. split.
  - destruct kw; [congruence | simpl; lia].
  - exists kw, sep, s'. repeat split; auto. apply separators_iff, Hsep.
Qed.

Lemma total_M_shape s a :
  mention_here spec_total_keywords s a -> exists k, k <> [] /\ lead_amount s k a.
Proof. apply mention_shape. reflexivity. Qed.

Lemma total_M_complete pos s a :
  mention_here spec_total_keywords s a -> exists pos' s' g', sem total_pattern pos s None pos' s' g'.
Proof.
  intros (kw & sep & post & -> & Hkw & Hsep & Ha).
  do 3 eexists. apply total_pattern_intro; auto. apply separators_iff, Hsep.
Qed.

(** ** The tax pattern and the mentions of a tax *)

Lemma tax_pattern_inv pos s pos' s' g' :
  sem tax_pattern pos s None pos' s' g' ->
  exists pre kw sep a,
    s = pre ++ kw ++ sep ++ a ++ s' /\ forallb plain pre = true /\
    keyword_ci spec_tax_keywords kw /\
    forallb space_colon_dollar sep = true /\ is_amount a /\ g' = Some a /\
    pos' = pos + length pre + length kw + length sep + length a.
Proof.
  unfold tax_pattern.
  change (seqs [?a; ?b; ?c]) with (Seq a (Seq b c)).
  intros H. apply sem_seq_inv in H. destruct H as (pos1 & s1 & g1 & Hr & H).
  apply sem_seq_inv in H. destruct H as (pos2 & s2 & g2 & Hs & H).
  apply sem_alts_inv in Hr; [|discriminate]. destruct Hr as (r & Hin & Hr).
  apply sem_star_inv in Hs. destruct Hs as (sep & -> & Hsep & -> & ->).
  apply sem_amount_group_inv in H. destruct H as (a & -> & Ha & -> & ->).
  assert (Hone : forall w, In w spec_tax_keywords ->
            sem (word_ci (lit w)) pos s None pos1 (sep ++ a ++ s') g1 ->
            exists pre kw sep0 a0,
              s = pre ++ kw ++ sep0 ++ a0 ++ s' /\ forallb plain pre = true /\
              keyword_ci spec_tax_keywords kw /\
              forallb space_colon_dollar sep0 = true /\ is_amount a0 /\
              Some a = Some a0 /\
              pos1 + length sep + length a
              = pos + length pre + length kw + length sep0 + length a0).
  { intros w Hw Hsem.
    apply sem_word_ci_inv in Hsem; [|apply keyword_words_of_tax, Hw].
    destruct Hsem as (kw & -> & Hl & -> & ->).
    exists [], kw, sep, a. simpl. repeat split; auto; try lia.
    exists w. split; [exact Hw | exact Hl]. }
  destruct Hin as [<-|[<-|[<-|[<-|[]]]]].
  - apply (Hone "Tax"%string); [simpl; auto | exact Hr].
  - apply (Hone "VAT"%string); [simpl; auto | exact Hr].
  - apply (Hone "GST"%string); [simpl; auto | exact Hr].
  - clear Hone.
    change (seqs [?a; ?b; ?c]) with (Seq a (Seq b c)) in Hr.
    apply sem_seq_inv in Hr. destruct Hr as (p1 & t1 & h1 & Hsales & Hr).
    apply sem_seq_inv in Hr. destruct Hr as (p2 & t2 & h2 & Hws & Htax).
    apply sem_word_ci_inv in Hsales; [|discriminate].
    destruct Hsales as (sales & -> & Hl1 & -> & ->).
    apply sem_star_inv in Hws. destruct Hws as (ws & -> & Hw & -> & ->).
    apply sem_word_ci_inv in Htax; [|discriminate].
    destruct Htax as (kw & -> & Hl2 & -> & ->).
    exists (sales ++ ws), kw, sep, a.
    rewrite <- !app_assoc, length_app. repeat split; auto; try lia.
    + rewrite forallb_app. apply andb_true_iff. split.
      * apply forallb_plain_lower. rewrite Hl1. reflexivity.
      * eapply forallb_impl; [|exact Hw]. apply space_plain.
    + exists "Tax"%string. split; [simpl; auto | exact Hl2].
Qed.

Lemma tax_pattern_intro pos kw sep a post :
  keyword_ci spec_tax_keywords kw -> forallb space_colon_dollar sep = true ->
  is_amount a ->
  exists pos' g', sem tax_pattern pos (kw ++ sep ++ a ++ post) None pos' post g'.
Proof.
  intros (w & Hw & Hl) Hsep Ha. unfold tax_pattern.
  change (seqs [?a; ?b; ?c]) with (Seq a (Seq b c)).
  assert (Hrest : forall p,
            sem (Seq (star space_colon_dollar) amount_group) p
                (sep ++ a ++ post) None (p + length sep + length a) post (Some a)).
  { intros p. econstructor.
    - apply sem_star_intro. exact Hsep.
    - apply sem_amount_group_intro. exact Ha. }
  assert (Hone : forall w0 : string,
            lit w0 <> [] -> lower kw = lower (lit w0) ->
            In (word_ci (lit w0))
               [word_ci (lit "Tax"); word_ci (lit "VAT"); word_ci (lit "GST");
                seqs [word_ci (lit "Sales"); star is_space; word_ci (lit "Tax")]] ->
            exists pos' g',
              sem (Seq (alts [word_ci (lit "Tax"); word_ci (lit "VAT");
                              word_ci (lit "GST");
                              seqs [word_ci (lit "Sales"); star is_space;
                                    word_ci (lit "Tax")]])
                       (Seq (star space_colon_dollar) amount_group))
                  pos (kw ++ sep ++ a ++ post) None pos' post g').
  { intros w0 Hne Hl0 Hin. do 2 eexists. econstructor; [|apply Hrest].
    eapply sem_alts_intro; [exact Hin|].
    apply sem_word_ci_intro; [exact Hne | exact Hl0]. }
  destruct Hw as [<-|[<-|[<-|[<-|[]]]]].
  - apply (Hone "Tax"%string); [discriminate | exact Hl | simpl; auto].
  - apply (Hone "VAT"%string); [discriminate | exact Hl | simpl; auto].
  - apply (Hone "GST"%string); [discriminate | exact Hl | simpl; auto].
  - clear Hone.
    do 9 (destruct kw as [|? kw]; [discriminate|]).
    destruct kw; [|discriminate].
    cbn in Hl. injection Hl as H1 H2 H3 H4 H5 H6 H7 H8 H9.
    do 2 eexists. econstructor; [|apply Hrest].
    eapply sem_alts_intro; [right; right; right; left; reflexivity|].
    change (seqs [?a; ?b; ?c]) with (Seq a (Seq b c)).
    match goal with
    | |- sem _ _ ([?x1; ?x2; ?x3; ?x4; ?x5; ?x6; ?x7; ?x8; ?x9] ++ ?rest) _ _ _ _ =>
        change ([x1; x2; x3; x4; x5; x6; x7; x8; x9] ++ rest)
          with ([x1; x2; x3; x4; x5] ++ [x6] ++ [x7; x8; x9] ++ rest)
    end.
    econstructor.
    + apply sem_word_ci_intro; [discriminate|].
      cbn. rewrite H1, H2, H3, H4, H5. reflexivity.
    + econstructor.
      * apply sem_star_intro. cbn. rewrite (lower_space _ H6). reflexivity.
      * apply sem_word_ci_intro; [discriminate|].
        cbn. rewrite H7, H8, H9. reflexivity.
Qed.

Lemma tax_r_shape pos s pos' s' g' :
  sem tax_pattern pos s None pos' s' g' ->
  exists k a, k <> [] /\ lead_amount s k a /\
              pos' = pos + length k + length a /\ g' = Some a.
Proof.
  intros H.
  destruct (tax_pattern_inv H)
    as (pre & kw & sep & a & -> & Hpre & Hkw & Hsep & Ha & -> & ->).
  destruct (@keyword_plain spec_tax_keywords kw eq_refl Hkw) as [Hp Hne].
  exists (pre ++ kw ++ sep), a.
  split; [destruct pre; [destruct kw; [congruence | discriminate] | discriminate]|].
  split; [|split; [rewrite !length_app; lia | reflexivity]].
  exists s'. rewrite <- !app_assoc. split; [reflexivity|]. split; [|exact Ha].
  rewrite !forallb_app, Hpre, Hp. simpl.
  eapply forallb_impl; [|exact Hsep]. apply separator_plain.
Qed.

Lemma tax_r_sound pos s pos' s' g' :
  sem tax_pattern pos s None pos' s' g' ->
  exists d a, d < pos' - pos /\ mention_here spec_tax_keywords (skipn d s) a.
Proof.
  intros H.
  destruct (tax_pattern_inv H)
    as (pre & kw & sep & a & -> & Hpre & Hkw & Hsep & Ha & -> & ->).
  destruct (@keyword_plain spec_tax_keywords kw eq_refl Hkw) as [Hp Hne].
  exists (length pre), a. split.
  - destruct kw; [congruence | simpl; lia].
  - rewrite skipn_app, Nat.sub_diag, skipn_all. cbn [app skipn].
    exists kw, sep, s'. repeat split; auto. apply separators_iff, Hsep.
Qed.

Lemma tax_M_shape s a :
  mention_here spec_tax_keywords s a -> exists k, k <> [] /\ lead_amount s k a.
Proof. apply mention_shape. reflexivity. Qed.

Lemma tax_M_complete pos s a :
  mention_here spec_tax_keywords s a -> exists pos' s' g', sem tax_pattern pos s None pos' s' g'.
Proof.
  intros (kw & sep & post & -> & Hkw & Hsep & Ha).
  destruct (@tax_pattern_intro pos kw sep a post Hkw) as (pos' & g' & H); auto.
  - apply separators_iff, Hsep.
  - eauto.
Qed.

(** ** Mentions at a position of the text *)

Lemma mention_at_skipn words text i a :
  mention_at words text i a <-> mention_here words (skipn i text) a
                                /\ i <= length text.
Proof.
  split.
  - intros (pre & kw & sep & post & -> & <- & Hkw & Hsep & Ha).
    rewrite skipn_app, Nat.sub_diag, skipn_all. cbn [app skipn].
    split; [|rewrite length_app; lia].
    exists kw, sep, post. auto.
  - intros [(kw & sep & post & E & Hkw & Hsep & Ha) Hi].
    exists (firstn i text), kw, sep, post. rewrite <- E, firstn_skipn.
    repeat split; auto. apply firstn_length_le, Hi.
Qed.

Lemma mention_here_in_text words text i a :
  forallb (fun w => forallb plain (lower (lit w))
                    && negb (Nat.eqb (length (lit w)) 0)) words = true ->
  mention_here words (skipn i text) a -> i <= length text.
Proof.
  intros Hw H. destruct (le_lt_dec i (length text)) as [Hle|Hgt]; [exact Hle|].
  exfalso. rewrite skipn_all2 in H by lia.
  destruct (mention_shape Hw H) as (k & Hk & post & E & _).
  destruct k; [congruence | discriminate].
Qed.

Section Decide.
Variable r : regex.
Variable M : str -> str -> Prop.
Hypothesis M_shape : forall s a,
  M s a -> exists k, k <> [] /\ lead_amount s k a.
Hypothesis M_complete : forall pos s a,
  M s a -> exists pos' s' g', sem r pos s None pos' s' g'.

(** No mention begins after position [i] when the pattern has no match at
    any later position. *)
Lemma no_mention_after (text : str) (i : nat) :
  forallb (fun j => match match_at r false j (skipn j text) with
                    | None => true
                    | Some _ => false
                    end)
          (seq (S i) (length text - i)) = true ->
  forall j a, i < j -> ~ M (skipn j text) a.
Proof.
  intros Hall j a Hj HM.
  destruct (le_lt_dec j (length text)) as [Hle|Hgt].
  - rewrite forallb_forall in Hall. specialize (Hall j).
    destruct (M_complete j HM) as (pos' & s' & g' & Hs).
    destruct (match_at_complete Hs) as [m Hm]. rewrite Hm in Hall.
    assert (false = true); [|discriminate].
    apply Hall. apply in_seq. lia.
  - rewrite skipn_all2 in HM by lia.
    destruct (M_shape HM) as (k & Hk & post & E & _).
    destruct k; [congruence | discriminate].
Qed.
End Decide.

(** ** The rule-based field extractor: total and tax *)

(** C3. For every raw text: when a mention of a total begins at some
    position, that is a keyword among Total, Amount, Due, Balance and Grand
    Total, case ignored, followed by any number of separators (white space,
    colon, dollar sign) and by an amount (digits and commas, a point, two
    digits), and no mention begins at a later position, the extracted total
    is the value of that last mention's amount; when the text has no
    mention at all, the extracted total is [0.0]. *)
Theorem total_is_last_match (now : datetime) (text : str) :
  (forall i a,
      mention_at spec_total_keywords text i a ->
      (forall j a', i < j -> ~ mention_at spec_total_keywords text j a') ->
      total (parse_receipt_data now text) = amount_value a) /\
  ((forall i a, ~ mention_at spec_total_keywords text i a) ->
   total (parse_receipt_data now text) = 0%float).
Proof.
  unfold parse_receipt_data. cbn [total]. unfold re_findall. split.
  - intros i a Hm Hlast. apply mention_at_skipn in Hm. destruct Hm as [Hm Hi].
    rewrite (@findall_last total_pattern (mention_here spec_total_keywords) total_r_shape
               total_r_sound total_M_shape total_M_complete text 0 0 i a).
    + destruct Hm as (kw & sep & post & _ & _ & _ & Ha).
      rewrite (py_float_amount Ha). reflexivity.
    + lia.
    + exact Hm.
    + intros j a' Hj Hm'. apply (Hlast j a' Hj). apply mention_at_skipn.
      split; [exact Hm'|]. eapply mention_here_in_text; [|exact Hm']. reflexivity.
  - intros Hno.
    rewrite (@findall_none total_pattern (mention_here spec_total_keywords) total_r_shape
               total_r_sound total_M_shape text 0 0); [reflexivity|].
    intros d a _ Hm. apply (Hno d a). apply mention_at_skipn.
    split; [exact Hm|]. eapply mention_here_in_text; [|exact Hm]. reflexivity.
Qed.

Lemma total_is_last_match_witness :
  total (parse_receipt_data noon running_totals_text)
  = amount_value (lit "1,008.64").
Proof.
  apply (proj1 (total_is_last_match noon running_totals_text) 67
               (lit "1,008.64")).
  - exists (firstn 67 running_totals_text), (lit "Due"), (lit ": "), [].
    split; [vm_compute; reflexivity|]. split; [reflexivity|].
    split; [exists "Due"%string; split; [simpl; auto | reflexivity]|].
    split.
    + constructor; [right; left; reflexivity|].
      constructor; [left; reflexivity | constructor].
    + exists (lit "1,008"), "6"%char, "4"%char.
      repeat split; [discriminate].
  - intros j a' Hj Hm. apply mention_at_skipn in Hm. destruct Hm as [Hm _].
    revert j a' Hj Hm.
    apply (@no_mention_after total_pattern (mention_here spec_total_keywords)
             total_M_shape total_M_complete running_totals_text 67).
    vm_compute. reflexivity.
Defined.

(** C4. For every raw text: the extracted tax is at least the value of
    every mention of a tax, that is of every keyword among Tax, VAT, GST and
    Sales Tax, case ignored, followed by any number of separators and by an
    amount, wherever it begins; when the text has such a mention the
    extracted tax is the value of one of them, hence their maximum; and
    when it has none the extracted tax is [0.0]. *)
Theorem tax_is_max_match (now : datetime) (text : str) :
  (forall i a,
      mention_at spec_tax_keywords text i a ->
      (amount_value a <=? tax (parse_receipt_data now text))%float = true) /\
  ((exists i a, mention_at spec_tax_keywords text i a) ->
   exists i a, mention_at spec_tax_keywords text i a /\
               tax (parse_receipt_data now text) = amount_value a) /\
  ((forall i a, ~ mention_at spec_tax_keywords text i a) ->
   tax (parse_receipt_data now text) = 0%float).
Proof.
  assert (Hcap : forall i a, mention_at spec_tax_keywords text i a ->
                             In a (re_findall tax_pattern text)).
  { intros i a Hm. apply mention_at_skipn in Hm. destruct Hm as [Hm Hi].
    apply (@findall_captures tax_pattern (mention_here spec_tax_keywords) tax_r_shape
             tax_M_shape tax_M_complete text 0 0 i a); [lia | exact Hm]. }
  assert (Hval : match re_findall tax_pattern text with
                 | [] => tax (parse_receipt_data now text) = 0%float
                 | _ :: _ =>
                     In (tax (parse_receipt_data now text))
                        (map amount_value (re_findall tax_pattern text)) /\
                     Forall (fun v => (v <=? tax (parse_receipt_data now text))%float
                                      = true)
                            (map amount_value (re_findall tax_pattern text))
                 end).
  { unfold parse_receipt_data. cbn [tax].
    pose proof (tax_matches_are_amounts text) as Hall.
    destruct (re_findall tax_pattern text) as [|t ts] eqn:E; [reflexivity|].
    rewrite (traverse_map (fun t => py_float (remove_commas t)) amount_value).
    - destruct (py_max_spec (l := map amount_value (t :: ts)))
        as (m & Hm & Hin & Hle).
      + apply Forall_forall. intros v Hv. apply in_map_iff in Hv.
        destruct Hv as (a & <- & _). apply amount_value_nonneg.
      + discriminate.
      + rewrite Hm. split; assumption.
    - eapply Forall_impl; [|exact Hall]. intros a Ha. apply py_float_amount, Ha. }
  split; [|split].
  - intros i a Hm. pose proof (Hcap i a Hm) as Hin.
    destruct (re_findall tax_pattern text) as [|t ts] eqn:E; [contradiction|].
    destruct Hval as [_ Hle]. rewrite Forall_forall in Hle.
    apply Hle. apply in_map. exact Hin.
  - intros (i & a & Hm). pose proof (Hcap i a Hm) as Hin.
    destruct (re_findall tax_pattern text) as [|t ts] eqn:E; [contradiction|].
    destruct Hval as [Hv _]. apply in_map_iff in Hv.
    destruct Hv as (a0 & Ha0 & Hin0).
    rewrite <- E in Hin0. unfold re_findall in Hin0.
    destruct (@findall_items_are_mentions tax_pattern (mention_here spec_tax_keywords)
                tax_r_shape tax_r_sound tax_M_shape text 0 0 a0 Hin0)
      as (d & Hd & HM).
    exists d, a0. split; [|symmetry; exact Ha0].
    apply mention_at_skipn. split; assumption.
  - intros Hno.
    destruct (re_findall tax_pattern text) as [|t ts] eqn:E; [exact Hval|].
    exfalso. unfold re_findall in E.
    destruct (@findall_items_are_mentions tax_pattern (mention_here spec_tax_keywords)
                tax_r_shape tax_r_sound tax_M_shape text 0 0 t)
      as (d & Hd & HM).
    { rewrite E. left; reflexivity. }
    apply (Hno d t). apply mention_at_skipn. split; assumption.
Qed.

Lemma tax_is_max_match_witness :
  (amount_value (lit "0.14")
   <=? tax (parse_receipt_data noon running_totals_text))%float = true.
Proof.
  apply (proj1 (tax_is_max_match noon running_totals_text) 36 (lit "0.14")).
  exists (firstn 36 running_totals_text), (lit "GST"), (lit ": "),
         (skipn 45 running_totals_text).
  split; [vm_compute; reflexivity|]. split; [reflexivity|].
  split; [exists "GST"%string; split; [simpl; auto | reflexivity]|].
  split.
  - constructor; [right; left; reflexivity|].
    constructor; [left; reflexivity | constructor].
  - exists (lit "0"), "1"%char, "4"%char.
    repeat split; [discriminate].
Defined.

(** ** The line-item extractor *)

(** A turn of the loop leaves [items] alone or appends one item. *)
Lemma line_step_cases (items : list line_item) (line0 : str) :
  line_step items line0 = items \/
  exists m price q n,
    re_search price_pattern (strip line0) = Some m /\
    py_float (remove_commas (group1 m)) = Some price /\
    is_summary (name_part_of line0 m) = false /\
    qty_and_name (name_part_of line0 m) = Some (q, n) /\
    n <> [] /\
    line_step items line0 = items ++ [LineItem n q price].
Proof.
  unfold line_step, name_part_of.
  destruct (re_search price_pattern (strip line0)) as [m|]; [|left; reflexivity].
  destruct (py_float (remove_commas (group1 m))) as [price|] eqn:Ep;
    [|left; reflexivity].
  destruct (is_summary _) eqn:Es; [left; reflexivity|].
  destruct (qty_and_name _) as [[q n]|] eqn:Eq; [|left; reflexivity].
  destruct n as [|c n]; [left; reflexivity|].
  right. exists m, price, q, (c :: n).
  split; [reflexivity|]. split; [exact Ep|]. split; [exact Es|].
  split; [exact Eq|]. split; [discriminate | reflexivity].
Qed.

Lemma line_step_app (items : list line_item) (line0 : str) :
  line_step items line0 = items ++ line_step [] line0.
Proof.
  unfold line_step.
  destruct (re_search price_pattern (strip line0)) as [m|];
    [|rewrite app_nil_r; reflexivity].
  destruct (py_float _) as [price|]; [|rewrite app_nil_r; reflexivity].
  destruct (is_summary _); [rewrite app_nil_r; reflexivity|].
  destruct (qty_and_name _) as [[q n]|]; [|rewrite app_nil_r; reflexivity].
  destruct n; [rewrite app_nil_r; reflexivity | reflexivity].
Qed.

(** The extractor looks at each line on its own, in order. *)
Lemma parse_line_items_flat (text : str) :
  parse_line_items_data text = flat_map (line_step []) (split_lines text).
Proof.
  unfold parse_line_items_data.
  assert (G : forall ls items,
             fold_left line_step ls items = items ++ flat_map (line_step []) ls).
  { induction ls as [|l ls IH]; intros items; simpl.
    - rewrite app_nil_r. reflexivity.
    - rewrite IH, line_step_app, <- app_assoc. reflexivity. }
  apply G.
Qed.

Lemma py_float_nonneg s x : py_float s = Some x -> nonneg x.
Proof.
  unfold py_float. destruct (span_digits s) as [ip rest].
  destruct rest as [|c fp].
  - destruct ip; [discriminate|]. intros H. injection H as <-.
    apply float_of_ratio_nonneg.
  - destruct (_ && _ && _); [|discriminate]. intros H. injection H as <-.
    apply float_of_ratio_nonneg.
Qed.

Lemma py_int_nonneg s q : py_int s = Some q -> (0 <= q)%Z.
Proof.
  unfold py_int. destruct s as [|c s]; [discriminate|].
  destruct (forallb is_digit (c :: s)) eqn:E; [|discriminate].
  intros H. injection H as <-. apply digits_val_nonneg, E.
Qed.

Lemma skip_word_ends (w : string) :
  In w skip_words ->
  match lit w with [] => False | c :: _ => is_space c = false end /\
  match rev (lit w) with [] => False | c :: _ => is_space c = false end.
Proof.
  unfold skip_words. simpl.
  intros [<-|[<-|[<-|[<-|[<-|[<-|[<-|[<-|[]]]]]]]]]; split; reflexivity.
Qed.

(** C5. For every line on which the price pattern matches: if the lower-cased
    text before the match contains one of total, amount, due, visa,
    mastercard, cash, change, tax, the turn of the loop for that line leaves
    the list of items as it was.  The line "VISA ****1234   45.00" is the
    instance checked below. *)
Theorem summary_line_is_skipped (line : str) (m : match_obj) (w : string)
        (items : list line_item) :
  re_search price_pattern (strip line) = Some m ->
  In w skip_words ->
  contains (lit w) (lower (slice_to (m_start m) (strip line))) = true ->
  line_step items line = items.
Proof.
  intros Hm Hw Hc. unfold line_step. rewrite Hm.
  destruct (py_float _); [|reflexivity].
  replace (is_summary _) with true; [reflexivity|].
  symmetry. unfold is_summary. apply existsb_exists. exists w. split; [exact Hw|].
  rewrite <- strip_lower.
  destruct (skip_word_ends Hw) as [H1 H2].
  apply contains_strip; assumption.
Qed.

Lemma summary_line_is_skipped_witness : line_step [] visa_line = [].
Proof.
  apply (@summary_line_is_skipped visa_line
           (MatchObj 15 21 (Some (lit "45.00"))) "visa"%string []).
  - reflexivity.
  - simpl. auto.
  - reflexivity.
Defined.

(** The same line inside any text adds nothing to the result. *)
Lemma visa_line_adds_nothing (before after : str) :
  parse_line_items_data (before ++ LF :: visa_line ++ LF :: after)
  = parse_line_items_data (before ++ LF :: after).
Proof.
  rewrite !parse_line_items_flat. unfold split_lines.
  rewrite !split_on_app, !flat_map_app.
  f_equal; vm_compute; reflexivity.
Qed.

(** C6, as the code has it. Every item the extractor returns comes from a
    line of the text on which the price pattern matches; its name is not
    empty and has no white space at either end; its price is the value of
    the matched amount and is not negative; its quantity is the integer of
    the prefix "N x" when the name candidate has one, else 1, and is not
    negative (it is zero for a prefix "0 x"). *)
Theorem line_items_well_formed (text : str) (it : line_item) :
  In it (parse_line_items_data text) ->
  name it <> [] /\ strip (name it) = name it /\
  (0 <= qty it)%Z /\ (0 <=? price it)%float = true /\
  exists line m,
    In line (split_lines text) /\
    re_search price_pattern (strip line) = Some m /\
    price it = amount_value (group1 m) /\
    match re_match qty_pattern (name_part_of line m) with
    | Some qm =>
        py_int (group1 qm) = Some (qty it) /\
        name it = strip (slice_from (m_end qm) (name_part_of line m))
    | None => qty it = 1%Z /\ name it = name_part_of line m
    end.
Proof.
  rewrite parse_line_items_flat, in_flat_map.
  intros (line & Hline & Hin).
  destruct (line_step_cases [] line) as [E | (m & p & q & n & Hm & Hp & _ & Hq & Hn & E)];
    rewrite E in Hin; [contradiction|].
  destruct Hin as [<-|[]]. cbn [name qty price].
  assert (Hamt : p = amount_value (group1 m)).
  { destruct (search_from_sound _ _ _ Hm) as (pos' & s' & Hat & _).
    destruct (price_pattern_captures _ _ _ Hat) as (a & Ha & Hamt).
    unfold group1, findall_item in *. rewrite Ha in *.
    rewrite (py_float_amount Hamt) in Hp. congruence. }
  unfold qty_and_name in Hq.
  destruct (re_match qty_pattern (name_part_of line m)) as [qm|] eqn:Eqm.
  - destruct (py_int (group1 qm)) as [q'|] eqn:Ei; [|discriminate].
    injection Hq as <- <-.
    repeat split.
    + exact Hn.
    + apply strip_idem.
    + eapply py_int_nonneg, Ei.
    + apply nonneg_zero_leb. eapply py_float_nonneg, Hp.
    + exists line, m. rewrite Eqm. auto.
  - injection Hq as <- <-.
    repeat split.
    + exact Hn.
    + apply strip_idem.
    + lia.
    + apply nonneg_zero_leb. eapply py_float_nonneg, Hp.
    + exists line, m. rewrite Eqm. auto.
Qed.

Lemma line_items_well_formed_witness :
  In burger_item (parse_line_items_data burger_text) /\
  name burger_item <> [] /\ strip (name burger_item) = name burger_item /\
  (0 <= qty burger_item)%Z /\ (0 <=? price burger_item)%float = true.
Proof.
  assert (H : In burger_item (parse_line_items_data burger_text))
    by (vm_compute; left; reflexivity).
  split; [exact H|].
  destruct (line_items_well_formed burger_text burger_item H)
    as (H1 & H2 & H3 & H4 & _).
  repeat split; assumption.
Defined.

(** C6 as stated fails: the prefix "0 x" gives an item of quantity zero. *)
Lemma zero_quantity_item :
  exists it, In it (parse_line_items_data (lit "0 x Burger  9.50")) /\
             name it = lit "Burger" /\ (0 <? qty it)%Z = false.
Proof.
  exists (LineItem (lit "Burger") 0 9.5). vm_compute. auto.
Qed.

(** ** Purity of the extractors *)

(** *** Dates in the text and the date of the clock *)

Lemma sem_times_inv (p : charset) lo hi pos s g pos' s' g' :
  sem (times p lo hi) pos s g pos' s' g' ->
  exists cs, s = cs ++ s' /\ forallb p cs = true /\
             lo <= length cs <= hi /\ pos' = pos + length cs /\ g' = g.
Proof.
  unfold times. intros H. inv H.
  match goal with H : forall h, Some _ = Some h -> _ |- _ =>
    specialize (H _ eq_refl) end.
  eauto 10.
Qed.

Lemma sem_times_intro (p : charset) lo hi cs pos rest (g : option str) :
  forallb p cs = true -> lo <= length cs <= hi ->
  sem (times p lo hi) pos (cs ++ rest) g (pos + length cs) rest g.
Proof.
  intros H [H1 H2]. unfold times. apply sem_rep; [exact H | exact H1 |].
  intros h [= <-]. exact H2.
Qed.

Lemma sem_chr_inv (p : charset) pos s g pos' s' g' :
  sem (Chr p) pos s g pos' s' g' ->
  exists c, s = c :: s' /\ p c = true /\ pos' = S pos /\ g' = g.
Proof. intros H. inv H. eauto. Qed.

Lemma slash_dash_iff c : slash_dash c = true <-> date_separator c.
Proof.
  unfold slash_dash, date_separator, in_set.
  cbn [lit list_ascii_of_string existsb].
  rewrite orb_false_r, orb_true_iff, !Ascii.eqb_eq. tauto.
Qed.

Lemma date_seq_inv lo1 hi1 lo2 hi2 lo3 hi3 pos s g pos' s' g' :
  sem (seqs [times is_digit lo1 hi1; Chr slash_dash; times is_digit lo2 hi2;
             Chr slash_dash; times is_digit lo3 hi3]) pos s g pos' s' g' ->
  exists a s1 b s2 c,
    s = (a ++ s1 :: b ++ s2 :: c) ++ s' /\
    forallb is_digit a = true /\ forallb is_digit b = true /\
    forallb is_digit c = true /\ date_separator s1 /\ date_separator s2 /\
    lo1 <= length a <= hi1 /\ lo2 <= length b <= hi2 /\
    lo3 <= length c <= hi3.
Proof.
  change (seqs [?a; ?b; ?c; ?d; ?e]) with (Seq a (Seq b (Seq c (Seq d e)))).
  intros H.
  apply sem_seq_inv in H. destruct H as (p1 & t1 & h1 & Ha & H).
  apply sem_seq_inv in H. destruct H as (p2 & t2 & h2 & Hs1 & H).
  apply sem_seq_inv in H. destruct H as (p3 & t3 & h3 & Hb & H).
  apply sem_seq_inv in H. destruct H as (p4 & t4 & h4 & Hs2 & Hc).
  apply sem_times_inv in Ha. destruct Ha as (a & -> & Ha & La & _ & _).
  apply sem_chr_inv in Hs1. destruct Hs1 as (s1 & -> & Hs1 & _ & _).
  apply sem_times_inv in Hb. destruct Hb as (b & -> & Hb & Lb & _ & _).
  apply sem_chr_inv in Hs2. destruct Hs2 as (s2 & -> & Hs2 & _ & _).
  apply sem_times_inv in Hc. destruct Hc as (c & -> & Hc & Lc & _ & _).
  exists a, s1, b, s2, c.
  repeat split; auto; try lia; try (apply slash_dash_iff; assumption).
  rewrite <- !app_assoc. cbn [app]. rewrite <- !app_assoc. reflexivity.
Qed.

Lemma date_seq_intro lo1 hi1 lo2 hi2 lo3 hi3 a s1 b s2 c pos rest (g : option str) :
  forallb is_digit a = true -> forallb is_digit b = true ->
  forallb is_digit c = true -> date_separator s1 -> date_separator s2 ->
  lo1 <= length a <= hi1 -> lo2 <= length b <= hi2 -> lo3 <= length c <= hi3 ->
  exists pos',
    sem (seqs [times is_digit lo1 hi1; Chr slash_dash; times is_digit lo2 hi2;
               Chr slash_dash; times is_digit lo3 hi3])
        pos ((a ++ s1 :: b ++ s2 :: c) ++ rest) g pos' rest g.
Proof.
  intros Ha Hb Hc Hs1 Hs2 La Lb Lc.
  change (seqs [?a; ?b; ?c; ?d; ?e]) with (Seq a (Seq b (Seq c (Seq d e)))).
  rewrite <- !app_assoc. cbn [app]. rewrite <- !app_assoc. cbn [app].
  eexists. econstructor.
  - apply sem_times_intro; [exact Ha | exact La].
  - econstructor.
    + constructor. apply slash_dash_iff, Hs1.
    + econstructor.
      * apply sem_times_intro; [exact Hb | exact Lb].
      * econstructor.
        -- constructor. apply slash_dash_iff, Hs2.
        -- apply sem_times_intro; [exact Hc | exact Lc].
Qed.

Lemma sem_group_inv r pos s g pos' s' g' :
  sem (Group r) pos s g pos' s' g' -> exists g0, sem r pos s g pos' s' g0.
Proof. intros H. inv H. eauto. Qed.

Lemma sem_alt_inv r1 r2 pos s g pos' s' g' :
  sem (Alt r1 r2) pos s g pos' s' g' ->
  sem r1 pos s g pos' s' g' \/ sem r2 pos s g pos' s' g'.
Proof. intros H. inv H; auto. Qed.

Lemma date_pattern_inv pos s g pos' s' g' :
  sem date_pattern pos s g pos' s' g' ->
  exists d, s = d ++ s' /\ date_shape d.
Proof.
  unfold date_pattern. intros H.
  apply sem_group_inv in H. destruct H as (g0 & H).
  apply sem_alt_inv in H. destruct H as [H|H];
    apply date_seq_inv in H;
    destruct H as (a & s1 & b & s2 & c & -> & Ha & Hb & Hc & Hs1 & Hs2 & La & Lb & Lc);
    exists (a ++ s1 :: b ++ s2 :: c); (split; [reflexivity|]);
    exists a, s1, b, s2, c; repeat split; auto; try lia.
Qed.

Lemma date_pattern_intro d pos rest :
  date_shape d ->
  exists pos' g', sem date_pattern pos (d ++ rest) None pos' rest g'.
Proof.
  intros (a & s1 & b & s2 & c & -> & Ha & Hb & Hc & Hs1 & Hs2 & Lb & [[La Lc]|[La Lc]]).
  - destruct (@date_seq_intro 1 2 1 2 2 4 a s1 b s2 c pos rest None)
      as (pos' & H); auto.
    exists pos'. eexists. unfold date_pattern. eapply sem_group. apply sem_alt_l. exact H.
  - destruct (@date_seq_intro 4 4 1 2 1 2 a s1 b s2 c pos rest None)
      as (pos' & H); auto; try lia.
    exists pos'. eexists. unfold date_pattern. eapply sem_group. apply sem_alt_r. exact H.
Qed.

(** [re.search] finds a date exactly in the texts that contain one. *)
Lemma date_search_iff text :
  (exists m, re_search date_pattern text = Some m) <-> contains_date text.
Proof.
  unfold re_search. split.
  - intros (m & Hm).
    destruct (search_from_sound _ _ _ Hm) as (pos' & s' & Hat & _ & Hs').
    destruct (match_at_sound _ _ _ _ Hat) as (p & t & g & Hsem & _).
    destruct (date_pattern_inv Hsem) as (d & E & Hd).
    exists (firstn (pos' - 0) text), d, t. split; [|exact Hd].
    rewrite <- E, Hs'. symmetry. apply firstn_skipn.
  - intros (pre & d & post & -> & Hd).
    destruct (date_pattern_intro (length pre) post Hd) as (pos' & g' & H).
    apply (@search_from_complete date_pattern (pre ++ d ++ post) 0 (length pre)
             pos' post g').
    + rewrite length_app. lia.
    + rewrite skipn_app, Nat.sub_diag, skipn_all. cbn [app skipn plus]. exact H.
Qed.

(** *** The date of the clock *)

Lemma lit_inj (a b : string) : lit a = lit b -> a = b.
Proof.
  unfold lit. intros H.
  rewrite <- (string_of_list_ascii_of_string a),
          <- (string_of_list_ascii_of_string b), H. reflexivity.
Qed.

Lemma dec_inj (n m : nat) : dec n = dec m -> n = m.
Proof.
  unfold dec. intros H. apply lit_inj in H.
  assert (E : NilEmpty.uint_of_string (NilEmpty.string_of_uint (Nat.to_uint n))
              = NilEmpty.uint_of_string (NilEmpty.string_of_uint (Nat.to_uint m)))
    by (rewrite H; reflexivity).
  rewrite !NilEmpty.usu in E. injection E as E.
  apply DecimalNat.Unsigned.to_uint_inj. exact E.
Qed.

Lemma dec_digits (n : nat) : forallb is_digit (dec n) = true.
Proof. unfold dec. induction (Nat.to_uint n); simpl; auto. Qed.

Lemma dec_pad2_small (m m' : nat) :
  m <= 31 -> m' <= 31 ->
  dec_pad 2 m = dec_pad 2 m' -> m = m' /\ forallb is_digit (dec_pad 2 m) = true.
Proof.
  intros Hm Hm' E.
  assert (T : forallb (fun x =>
                forallb is_digit (dec_pad 2 x) &&
                forallb (fun y => implb (str_eqb (dec_pad 2 x) (dec_pad 2 y))
                                        (x =? y))
                        (seq 0 32))
              (seq 0 32) = true) by (vm_compute; reflexivity).
  rewrite forallb_forall in T. specialize (T m).
  rewrite andb_true_iff in T.
  destruct T as [Td Ti]; [apply in_seq; lia|].
  split; [|exact Td].
  rewrite forallb_forall in Ti.
  assert (Hin : In m' (seq 0 32)) by (apply in_seq; lia).
  specialize (Ti m' Hin). rewrite E, str_eqb_refl in Ti. cbn [implb] in Ti.
  apply Nat.eqb_eq, Ti.
Qed.

Lemma strftime_date_inj (a b : datetime) :
  valid_date a -> valid_date b ->
  strftime_date a = strftime_date b -> same_day a b.
Proof.
  intros (Ma & Da) (Mb & Db). unfold strftime_date, same_day.
  cbn [lit list_ascii_of_string app]. intros E.
  assert (S : forall x, stops is_digit ("-"%char :: x)) by (intros; reflexivity).
  destruct (@span_unique is_digit (dec (year a)) (dec (year b)) _ _
              (dec_digits _) (dec_digits _) (S _) (S _) E) as [Ey E1].
  injection E1 as E1.
  assert (Hda : forallb is_digit (dec_pad 2 (month a)) = true).
  { apply (@dec_pad2_small (month a) (month a)); auto; lia. }
  assert (Hdb : forallb is_digit (dec_pad 2 (month b)) = true).
  { apply (@dec_pad2_small (month b) (month b)); auto; lia. }
  destruct (@span_unique is_digit _ _ _ _ Hda Hdb (S _) (S _) E1) as [Em E2].
  injection E2 as E2.
  split; [apply dec_inj, Ey|]. split.
  - apply (@dec_pad2_small (month a) (month b)); auto; lia.
  - apply (@dec_pad2_small (day a) (day b)); auto; lia.
Qed.

(** C8, as the code has it. Two runs of the extractors on the same text,
    at two clocks, return the same fields and the same line items exactly
    when the text contains a date (one or two digits, a slash or a dash,
    one or two digits, a slash or a dash, two to four digits; or four
    digits first and one or two last) or the two clocks show the same
    calendar day: the date field of a text without a date is the day of the
    clock, and nothing else depends on the clock. *)
Theorem extractors_differ_only_by_clock_date (now now' : datetime) (text : str) :
  valid_date now -> valid_date now' ->
  (run_extractors now text = run_extractors now' text
   <-> contains_date text \/ same_day now now').
Proof.
  intros V V'. unfold run_extractors, parse_receipt_data.
  destruct (re_search date_pattern text) as [m|] eqn:E.
  - split; [|reflexivity]. intros _. left.
    apply date_search_iff. eauto.
  - split.
    + intros H. right. apply strftime_date_inj; auto. congruence.
    + intros [H|(Hy & Hm & Hd)].
      * apply date_search_iff in H. destruct H as (m & Hm). congruence.
      * unfold strftime_date. rewrite Hy, Hm, Hd. reflexivity.
Qed.

Lemma extractors_differ_only_by_clock_date_witness :
  run_extractors noon acme_text
  = run_extractors (DateTime 2025 6 30 8 0 0) acme_text.
Proof.
  apply (proj2 (@extractors_differ_only_by_clock_date
                  noon (DateTime 2025 6 30 8 0 0) acme_text
                  ltac:(unfold valid_date; simpl; lia)
                  ltac:(unfold valid_date; simpl; lia))).
  left. exists (lit "Acme Mart" ++ [LF]), (lit "01/15/2024"),
               (skipn 20 acme_text).
  split; [vm_compute; reflexivity|].
  exists (lit "01"), "/"%char, (lit "15"), "/"%char, (lit "2024").
  repeat split; try reflexivity; try (left; reflexivity); simpl; try lia.
Defined.

(** C8 as stated fails: the same text read on two days gets two dates. *)
Lemma clock_changes_the_date :
  date (fst (run_extractors (DateTime 2024 1 15 9 30 0) undated_text))
    = lit "2024-01-15" /\
  date (fst (run_extractors (DateTime 2024 1 16 9 30 0) undated_text))
    = lit "2024-01-16".
Proof. vm_compute. split; reflexivity. Qed.

(** ** Duplicates are not saved *)

(** C10. When the duplicate check finds a stored receipt with the parsed
    merchant, date and total, the handler returns the database file as it
    was, both tables and both rowid counters, and reports the duplicate. *)
Theorem duplicate_upload_is_not_saved (now now' : datetime)
        (filename raw_text : str) (d : App.db) :
  let receipt_data := parse_receipt_data now raw_text in
  App.check_if_receipt_exists d (merchant receipt_data) (date receipt_data)
                              (total receipt_data) = true ->
  App.process_and_save now now' filename raw_text d
  = (d, App.DuplicateDetected (merchant receipt_data)).
Proof.
  intros receipt_data H. unfold App.process_and_save.
  fold receipt_data. rewrite H. reflexivity.
Qed.

Lemma duplicate_upload_is_not_saved_witness :
  App.process_and_save noon noon (lit "again.png") acme_text acme_db
  = (acme_db, App.DuplicateDetected (lit "Acme Mart")).
Proof.
  apply (duplicate_upload_is_not_saved noon noon (lit "again.png") acme_text
                                       acme_db).
  vm_compute. reflexivity.
Defined.

(** ** Reconciliation of the stored line items with the total *)

Lemma filter_none (A : Type) (f : A -> bool) (l : list A) :
  (forall x, In x l -> f x = false) -> filter f l = [].
Proof.
  induction l as [|a l IH]; intros H; simpl; auto.
  rewrite (H a (or_introl eq_refl)). apply IH. intros x Hx. apply H. right; exact Hx.
Qed.

Lemma find_filter (A : Type) (f : A -> bool) (l : list A) :
  find f l = hd_error (filter f l).
Proof.
  induction l as [|a l IH]; simpl; auto. destruct (f a); auto.
Qed.

(** The receipt ids are a primary key: one row has a given id. *)
Lemma receipt_of_id (rs : list App.receipt_row) (r : App.receipt_row) :
  NoDup (map App.r_id rs) -> In r rs ->
  filter (fun r' => (App.r_id r' =? App.r_id r)%Z) rs = [r].
Proof.
  induction rs as [|a rs IH]; intros Hnd Hin; [contradiction|].
  simpl in Hnd. inversion Hnd as [|? ? Hnotin Hnd']; subst.
  destruct Hin as [->|Hin]; simpl.
  - rewrite Z.eqb_refl. f_equal. apply filter_none.
    intros x Hx. apply Z.eqb_neq. intros E. apply Hnotin.
    rewrite <- E. apply in_map, Hx.
  - replace (App.r_id a =? App.r_id r)%Z with false; [apply IH; auto|].
    symmetry. apply Z.eqb_neq. intros E. apply Hnotin.
    rewrite E. apply in_map, Hin.
Qed.

Lemma bill_lines_of_receipt (d : App.db) (r : App.receipt_row) :
  NoDup (map App.r_id (App.receipts d)) -> In r (App.receipts d) ->
  App.get_detailed_bill_data d (App.r_id r)
  = map (fun l => App.BillLine (App.r_id r) (App.r_merchant r) (App.l_name l)
                               (App.l_qty l) (App.l_price l))
        (filter (fun l => (App.l_receipt_id l =? App.r_id r)%Z)
                (App.line_items d)).
Proof.
  intros Hnd Hin. unfold App.get_detailed_bill_data.
  induction (App.line_items d) as [|l ls IH]; simpl; auto.
  rewrite IH. destruct (App.l_receipt_id l =? App.r_id r)%Z eqn:E.
  - apply Z.eqb_eq in E.
    rewrite (filter_ext _ (fun r' => (App.r_id r' =? App.r_id r)%Z)).
    + rewrite (@receipt_of_id _ _ Hnd Hin). reflexivity.
    + intros r'. rewrite E.
      destruct (App.r_id r =? App.r_id r')%Z eqn:E'.
      * reflexivity.
      * rewrite Z.eqb_sym, E'. reflexivity.
  - rewrite filter_none; [reflexivity|].
    intros r' _. destruct (App.r_id r' =? App.r_id r)%Z eqn:E'.
    + apply Z.eqb_eq in E'. rewrite E', E. reflexivity.
    + apply andb_false_r.
Qed.

(** *** [Series.sum] adds every value once *)

Lemma fold_adds (rest : list float) :
  forall l acc, adds_up l acc ->
    adds_up (l ++ rest) (fold_left (fun res v => (res + v)%float) rest acc).
Proof.
  induction rest as [|x rest IH]; intros l acc H; simpl.
  - rewrite app_nil_r. exact H.
  - replace (l ++ x :: rest) with ((l ++ [x]) ++ rest)
      by (rewrite <- app_assoc; reflexivity).
    apply IH. apply adds_app; [exact H | apply adds_one].
Qed.

Lemma add_to_adds (r : list float) :
  forall blk Ls, Forall2 adds_up Ls r -> length blk = length r ->
    exists Ls', Forall2 adds_up Ls' (add_to r blk) /\
                Permutation (concat Ls') (concat Ls ++ blk).
Proof.
  induction r as [|x r IH]; intros blk Ls HF Hlen.
  - inversion HF; subst. destruct blk; [|discriminate].
    exists []. simpl. split; constructor.
  - inversion HF as [|L ? Ls0 ? HL HF0]; subst.
    destruct blk as [|y blk]; [discriminate|]. simpl in Hlen.
    destruct (IH blk Ls0 HF0) as (Ls' & HF' & HP); [lia|].
    exists ((L ++ [y]) :: Ls'). cbn [add_to]. split.
    + constructor; [|exact HF']. apply adds_app; [exact HL | apply adds_one].
    + cbn [concat]. rewrite <- !app_assoc. apply Permutation_app_head.
      cbn [app]. rewrite HP. apply Permutation_middle.
Qed.

Lemma add_to_length (r : list float) :
  forall blk, length (add_to r blk) = length r.
Proof.
  induction r as [|x r IH]; intros [|y blk]; simpl; auto.
Qed.

Lemma unrolled_adds (blocks : nat) :
  forall r a Ls,
    Forall2 adds_up Ls r -> length r = 8 -> 8 * blocks <= length a ->
    exists Ls',
      Forall2 adds_up Ls' (fst (unrolled blocks r a)) /\
      length (fst (unrolled blocks r a)) = 8 /\
      Permutation (concat Ls' ++ snd (unrolled blocks r a)) (concat Ls ++ a).
Proof.
  induction blocks as [|b IH]; intros r a Ls HF Hr Ha.
  - exists Ls. simpl. auto.
  - cbn [unrolled].
    destruct (@add_to_adds r (firstn 8 a) Ls HF) as (Ls1 & HF1 & HP1).
    { rewrite firstn_length_le; lia. }
    destruct (IH (add_to r (firstn 8 a)) (skipn 8 a) Ls1 HF1) as (Ls' & HF' & Hl & HP).
    { rewrite add_to_length. exact Hr. }
    { rewrite length_skipn. lia. }
    exists Ls'. split; [exact HF'|]. split; [exact Hl|].
    rewrite HP, HP1, <- app_assoc, firstn_skipn. reflexivity.
Qed.

Lemma singles_add_up (r : list float) :
  Forall2 adds_up (map (fun x => [x]) r) r /\
  concat (map (fun x => [x]) r) = r.
Proof.
  induction r as [|x r [IH1 IH2]]; simpl; split; auto.
  - constructor; [apply adds_one | exact IH1].
  - f_equal. exact IH2.
Qed.

Lemma sum_block_adds (a : list float) :
  8 <= length a -> adds_up a (sum_block a).
Proof.
  intros Hn. unfold sum_block.
  destruct (singles_add_up (firstn 8 a)) as [HF0 HC0].
  destruct (@unrolled_adds (length a / 8 - 1) (firstn 8 a) (skipn 8 a) _ HF0)
    as (Ls & HF & Hl & HP).
  { rewrite firstn_length_le; lia. }
  { rewrite length_skipn.
    pose proof (Nat.div_mod_eq (length a) 8).
    pose proof (Nat.mod_upper_bound (length a) 8). lia. }
  rewrite HC0, firstn_skipn in HP.
  destruct (unrolled (length a / 8 - 1) (firstn 8 a) (skipn 8 a)) as [r rest].
  cbn [fst snd] in *.
  destruct r as [|r0 [|r1 [|r2 [|r3 [|r4 [|r5 [|r6 [|r7 [|r8 r]]]]]]]]];
    try discriminate.
  inversion HF as [|L0 ? ? ? H0 HF1]; subst.
  inversion HF1 as [|L1 ? ? ? H1 HF2]; subst.
  inversion HF2 as [|L2 ? ? ? H2 HF3]; subst.
  inversion HF3 as [|L3 ? ? ? H3 HF4]; subst.
  inversion HF4 as [|L4 ? ? ? H4 HF5]; subst.
  inversion HF5 as [|L5 ? ? ? H5 HF6]; subst.
  inversion HF6 as [|L6 ? ? ? H6 HF7]; subst.
  inversion HF7 as [|L7 ? ? ? H7 HF8]; subst.
  inversion HF8; subst.
  apply adds_perm with (l := concat [L0; L1; L2; L3; L4; L5; L6; L7] ++ rest);
    [exact HP|].
  apply fold_adds.
  replace (concat [L0; L1; L2; L3; L4; L5; L6; L7])
    with (((L0 ++ L1) ++ (L2 ++ L3)) ++ ((L4 ++ L5) ++ (L6 ++ L7)))
    by (cbn [concat]; rewrite app_nil_r, <- !app_assoc; reflexivity).
  repeat apply adds_app; assumption.
Qed.

Lemma pairwise_sum_adds (fuel : nat) :
  forall a, length a <= fuel -> adds_up a (pairwise_sum fuel a).
Proof.
  induction fuel as [|f IH]; intros a Hf.
  - destruct a; [|simpl in Hf; lia]. simpl. apply adds_nil.
  - cbn [pairwise_sum].
    destruct (length a <? 8) eqn:E8.
    + apply (@fold_adds a [] 0%float). apply adds_nil.
    + apply Nat.ltb_ge in E8.
      destruct (length a <=? PW_BLOCKSIZE) eqn:Eb.
      * apply sum_block_adds, E8.
      * apply Nat.leb_gt in Eb. unfold PW_BLOCKSIZE in Eb.
        set (n2 := length a / 2 - (length a / 2) mod 8).
        assert (Hn2 : 0 < n2 < length a).
        { subst n2.
          pose proof (Nat.div_mod_eq (length a) 2).
          pose proof (Nat.mod_upper_bound (length a) 2).
          pose proof (Nat.mod_upper_bound (length a / 2) 8). lia. }
        rewrite <- (firstn_skipn n2 a) at 1.
        apply adds_app; apply IH.
        -- rewrite firstn_length_le; lia.
        -- rewrite length_skipn. lia.
Qed.

Lemma series_sum_adds (l : list float) :
  adds_up (map nan_to_zero l) (series_sum l).
Proof.
  unfold series_sum. cbv zeta.
  apply (@adds_app [] (map nan_to_zero l)); [apply adds_nil|].
  apply pairwise_sum_adds. lia.
Qed.

(** The depth of the cuts never runs out: more fuel gives the same sum. *)
Lemma pairwise_sum_fuel (f1 : nat) :
  forall f2 a, length a <= f1 -> length a <= f2 ->
               pairwise_sum f1 a = pairwise_sum f2 a.
Proof.
  induction f1 as [|f1 IH]; intros f2 a H1 H2.
  - destruct a; [|simpl in H1; lia]. destruct f2; reflexivity.
  - destruct f2 as [|f2].
    + destruct a; [|simpl in H2; lia]. reflexivity.
    + cbn [pairwise_sum].
      destruct (length a <? 8) eqn:E8; [reflexivity|].
      destruct (length a <=? PW_BLOCKSIZE) eqn:Eb; [reflexivity|].
      apply Nat.leb_gt in Eb. unfold PW_BLOCKSIZE in Eb.
      set (n2 := length a / 2 - (length a / 2) mod 8).
      assert (Hn2 : 0 < n2 < length a).
      { subst n2.
        pose proof (Nat.div_mod_eq (length a) 2).
        pose proof (Nat.mod_upper_bound (length a) 2).
        pose proof (Nat.mod_upper_bound (length a / 2) 8). lia. }
      f_equal; apply IH; rewrite ?firstn_length_le, ?length_skipn; lia.
Qed.

Lemma float_of_int_uint63 (q : Z) :
  (0 <= q <= INT64_MAX)%Z -> float_of_int q = of_uint63 (Uint63.of_Z q).
Proof.
  intros H. unfold float_of_int.
  rewrite <- (SF2Prim_Prim2SF (of_uint63 (Uint63.of_Z q))), of_uint63_spec.
  rewrite Uint63.of_Z_spec, Z.mod_small; [reflexivity|].
  unfold INT64_MAX in H. change Uint63.wB with (2 ^ 63)%Z. lia.
Qed.

Lemma pairwise_sum_short (fuel : nat) (a : list float) :
  length a < 8 ->
  pairwise_sum fuel a = fold_left (fun res v => (res + v)%float) a 0%float.
Proof.
  intros H. apply Nat.ltb_lt in H.
  destruct fuel; cbn [pairwise_sum]; rewrite H; reflexivity.
Qed.

(** C2. For every stored receipt with at least one stored line item, whose
    quantities are what the vault holds (from zero to the largest SQLite
    integer), the validation section shows: a subtotal that is a sum, in
    binary64, of the products of quantity and price of its line items, each
    product taken once, a product that is NaN counting as zero; the
    calculated total, that subtotal plus the stored tax; the discrepancy,
    the stored total minus the calculated total; and it reports valid
    exactly when the absolute discrepancy is strictly below 0.1.  The order
    and the grouping of the additions are the numeric library's: for fewer
    than eight items the products are added to zero in row order (and the
    result to the zero the library starts from); from eight items on it
    adds eight interleaved partial sums. *)
Theorem reconciliation_of_stored_receipt (d : App.db) (r : App.receipt_row) :
  In r (App.receipts d) ->
  NoDup (map App.r_id (App.receipts d)) ->
  App.r_id r <> 0%Z ->
  let items := filter (fun l => (App.l_receipt_id l =? App.r_id r)%Z)
                      (App.line_items d) in
  items <> [] ->
  Forall (fun l => (0 <= App.l_qty l <= INT64_MAX)%Z) items ->
  let products :=
    map (fun l => counted_product (App.l_qty l) (App.l_price l)) items in
  exists v,
    App.detail_section d (App.r_id r) = App.Validation v /\
    adds_up products (App.calculated_subtotal v) /\
    (length items < 8 ->
     App.calculated_subtotal v
     = (0 + fold_left (fun acc x => acc + x) products 0)%float) /\
    App.calculated_grand_total v
    = (App.calculated_subtotal v + App.r_tax_amount r)%float /\
    App.discrepancy v
    = (App.r_total_amount r - App.calculated_grand_total v)%float /\
    App.valid v = (abs (App.discrepancy v) <? 0.1)%float.
Proof.
  intros Hin Hnd Hid items Hitems Hqty products.
  assert (Hd : App.detail_section d (App.r_id r)
               = App.Validation
                   (App.reconcile
                      (map (fun l => App.BillLine (App.r_id r) (App.r_merchant r)
                                                  (App.l_name l) (App.l_qty l)
                                                  (App.l_price l)) items)
                      (App.r_total_amount r) (App.r_tax_amount r))).
  { unfold App.detail_section.
    destruct (App.receipts d) as [|r0 rs] eqn:Hrs; [contradiction|].
    rewrite <- Hrs in *.
    replace (App.r_id r =? 0)%Z with false by (symmetry; apply Z.eqb_neq, Hid).
    unfold App.get_receipt_metadata.
    rewrite find_filter, (@receipt_of_id _ _ Hnd Hin). cbn [hd_error].
    rewrite (@bill_lines_of_receipt _ _ Hnd Hin). fold items.
    clearbody items. destruct items as [|l ls]; [congruence | reflexivity]. }
  rewrite Hd. eexists. split; [reflexivity|].
  unfold App.reconcile.
  cbn [App.calculated_subtotal App.calculated_grand_total App.discrepancy
       App.valid].
  rewrite map_map. cbn [App.quantity App.unit_price].
  assert (Hp : map nan_to_zero
                   (map (fun l => (float_of_int (App.l_qty l) * App.l_price l)%float)
                        items)
               = products).
  { subst products. rewrite map_map. apply map_ext_in. intros x Hx.
    unfold nan_to_zero, counted_product.
    rewrite Forall_forall in Hqty. rewrite (float_of_int_uint63 (Hqty x Hx)).
    reflexivity. }
  split; [rewrite <- Hp; apply series_sum_adds|].
  split; [|repeat split].
  intros Hshort. unfold series_sum. cbv zeta. rewrite Hp.
  rewrite pairwise_sum_short; [reflexivity|].
  subst products. rewrite length_map. exact Hshort.
Qed.

Lemma reconciliation_of_stored_receipt_witness :
  let items := filter (fun l => (App.l_receipt_id l =? App.r_id kiosk_row)%Z)
                      (App.line_items kiosk_db) in
  let products :=
    map (fun l => counted_product (App.l_qty l) (App.l_price l)) items in
  exists v,
    App.detail_section kiosk_db (App.r_id kiosk_row) = App.Validation v /\
    adds_up products (App.calculated_subtotal v) /\
    (length items < 8 ->
     App.calculated_subtotal v
     = (0 + fold_left (fun acc x => acc + x) products 0)%float) /\
    App.calculated_grand_total v
    = (App.calculated_subtotal v + App.r_tax_amount kiosk_row)%float /\
    App.discrepancy v
    = (App.r_total_amount kiosk_row - App.calculated_grand_total v)%float /\
    App.valid v = (abs (App.discrepancy v) <? 0.1)%float.
Proof.
  apply (@reconciliation_of_stored_receipt kiosk_db kiosk_row).
  - left. reflexivity.
  - constructor; [intros [] | constructor].
  - discriminate.
  - discriminate.
  - repeat constructor; discriminate.
Defined.

(** The nine items of [kiosk_text] add up to 19.37, which with the tax of
    1.70 is the total of 21.07: the receipt is valid. *)
Example kiosk_receipt_is_valid :
  length (App.get_detailed_bill_data kiosk_db 1) = 9 /\
  match App.detail_section kiosk_db 1 with
  | App.Validation v =>
      format_f 2 (App.calculated_subtotal v) = lit "19.37" /\
      App.valid v = true
  | _ => False
  end.
Proof. vm_compute. repeat split; reflexivity. Qed.

(** Eight items of 0.10 against a total of 0.90: the eight partial sums
    give 0.8 and a discrepancy just below 0.1, so the receipt passes, where
    adding the rows one after the other would give 0.7999999999999999 and
    fail it. *)
Example eight_dimes_pass :
  let items :=
    map (fun n => App.BillLine 1 (lit "Shop") (lit "Dime") 1 0.1) (seq 0 8) in
  App.calculated_subtotal (App.reconcile items 0.9 0) = 0.8%float /\
  App.valid (App.reconcile items 0.9 0) = true /\
  (abs (0.9 - fold_left (fun acc v => acc + v) (repeat 0.1 8) 0) <? 0.1)%float
  = false.
Proof. vm_compute. repeat split; reflexivity. Qed.

(** The tolerance is strict: a discrepancy of exactly 0.1 is reported
    invalid, and so is the receipt of the specification's example, where the
    line "2 x Coffee   8.00" counts as 16.00. *)
Lemma reconciliation_boundary :
  App.valid (App.reconcile [App.BillLine 1 (lit "Shop") (lit "Gift") 1 0]
                           0.1 0) = false /\
  App.valid (App.reconcile [App.BillLine 1 (lit "Shop") (lit "Gift") 1 0.01]
                           0.1 0) = true /\
  App.reconcile [App.BillLine 1 (lit "Acme Mart") (lit "Coffee") 2 8] 8.64 0.64
  = App.Reconciliation 16 16.64 (-8) false.
Proof. vm_compute. repeat split; reflexivity. Qed.

(** ** The duplicate detector *)

Lemma given_supplied (invoice_num : option str) :
  Milestone2.given invoice_num = true <-> supplied invoice_num.
Proof.
  unfold Milestone2.given, supplied. destruct invoice_num as [[|c i]|].
  - split; [discriminate | intros (i & H & Hne & _); congruence].
  - rewrite negb_true_iff. split.
    + intros H. exists (c :: i). repeat split; [discriminate|].
      intros E. apply str_eqb_eq in E. congruence.
    + intros (i' & H & _ & Hu). injection H as <-.
      destruct (str_eqb (c :: i) UNKNOWN) eqn:E; [|reflexivity].
      apply str_eqb_eq in E. contradiction.
  - split; [discriminate | intros (i & H & _); discriminate].
Qed.

Lemma option_str_eqb_eq (a b : option str) : option_str_eqb a b = true <-> a = b.
Proof.
  destruct a as [x|], b as [y|]; simpl; try (split; congruence).
  rewrite str_eqb_eq. split; congruence.
Qed.

Lemma sql_eq_Some (column : Milestone2.text_field) (v : str) :
  Milestone2.sql_eq column (Some v) = true <-> column = Some v.
Proof.
  destruct column as [a|]; simpl; [|split; discriminate].
  rewrite str_eqb_eq. split; congruence.
Qed.

Lemma duplicate_ofb_spec (merchant date : str) total invoice_num r :
  duplicate_ofb (Some merchant) (Some date) total invoice_num r = true
  <-> duplicate_of merchant date total invoice_num r.
Proof.
  unfold duplicate_ofb, duplicate_of.
  rewrite !andb_true_iff, !sql_eq_Some, orb_true_iff, negb_true_iff,
    option_str_eqb_eq, <- given_supplied.
  destruct (Milestone2.given invoice_num); intuition congruence.
Qed.

(** The query the function builds selects the duplicates. *)
Lemma query_selects_duplicates merchant date total invoice_num r :
  forallb (Milestone2.holds r)
          (let query := [Milestone2.MerchantIs merchant; Milestone2.DateIs date;
                         Milestone2.TotalAmountIs total] in
           if Milestone2.given invoice_num
           then query ++ [Milestone2.InvoiceNumberIs invoice_num] else query)
  = duplicate_ofb merchant date total invoice_num r.
Proof.
  unfold duplicate_ofb. cbv zeta.
  destruct (Milestone2.given invoice_num) eqn:G;
    cbn [app forallb Milestone2.holds negb orb];
    rewrite ?andb_true_r, ?andb_assoc; [|reflexivity].
  f_equal. destruct invoice_num as [i|]; [|discriminate].
  unfold Milestone2.sql_eq, option_str_eqb.
  destruct (Milestone2.r_invoice_number r); reflexivity.
Qed.

Lemma check_if_receipt_exists_count rows merchant date total invoice_num :
  Milestone2.check_if_receipt_exists rows merchant date total invoice_num
  = let n := length (filter (duplicate_ofb merchant date total invoice_num)
                            rows) in
    (0 <? n, n).
Proof.
  unfold Milestone2.check_if_receipt_exists, Milestone2.select_ids. cbv zeta.
  rewrite length_map.
  rewrite (filter_ext _ (duplicate_ofb merchant date total invoice_num)).
  - reflexivity.
  - intros r. apply query_selects_duplicates.
Qed.

Lemma filter_length_pos (A : Type) (f : A -> bool) (l : list A) :
  0 < length (filter f l) <-> exists x, In x l /\ f x = true.
Proof.
  split.
  - destruct (filter f l) as [|x l'] eqn:E; simpl; [lia|]. intros _.
    exists x. apply filter_In. rewrite E. left; reflexivity.
  - intros (x & Hx & Hf).
    assert (H : In x (filter f l)) by (apply filter_In; auto).
    destruct (filter f l); [contradiction | simpl; lia].
Qed.

(** C7. For every query: a stored record counts as a match exactly when its
    merchant, date and total equal the query's (the total as floats), and,
    only when an invoice number is supplied (there, not empty, not
    "Unknown"), its invoice number equals the query's too.  The LLM variant
    returns whether a match exists together with the number of matches; the
    rule-based variant has no invoice number and returns whether a match
    exists. *)
Theorem duplicate_detector_matches_supplied_fields
        (rows : list Milestone2.receipt_row) (d : App.db)
        (merchant date : str) (total : float) (invoice_num : option str) :
  let r := Milestone2.check_if_receipt_exists rows (Some merchant) (Some date)
                                              total invoice_num in
  (fst r = true <->
     exists row, In row rows /\
                 duplicate_of merchant date total invoice_num row) /\
  snd r = length (filter (duplicate_ofb (Some merchant) (Some date) total
                                        invoice_num) rows) /\
  (forall row, duplicate_ofb (Some merchant) (Some date) total invoice_num row
               = true <->
               duplicate_of merchant date total invoice_num row) /\
  (Milestone2.given invoice_num = true <-> supplied invoice_num) /\
  (App.check_if_receipt_exists d merchant date total = true <->
     exists row, In row (App.receipts d) /\
                 App.r_merchant row = merchant /\ App.r_date row = date /\
                 (App.r_total_amount row =? total)%float = true).
Proof.
  intros r. subst r. rewrite check_if_receipt_exists_count. cbn [fst snd].
  split; [|split; [reflexivity | split; [|split]]].
  - rewrite Nat.ltb_lt, filter_length_pos.
    split; intros (row & Hin & H); exists row; split; auto;
      apply duplicate_ofb_spec; exact H.
  - intros row. apply duplicate_ofb_spec.
  - apply given_supplied.
  - unfold App.check_if_receipt_exists.
    destruct (filter (App.same_receipt merchant date total) (App.receipts d))
      as [|x l] eqn:E; cbn [hd_error].
    + split; [discriminate|]. intros (row & Hin & H1 & H2 & H3).
      assert (Hx : In row (filter (App.same_receipt merchant date total)
                                  (App.receipts d))).
      { apply filter_In. split; [exact Hin|]. unfold App.same_receipt.
        rewrite H3, !andb_true_r, andb_true_iff, !str_eqb_eq. auto. }
      rewrite E in Hx. contradiction.
    + split; [intros _ | reflexivity].
      assert (Hx : In x (filter (App.same_receipt merchant date total)
                                (App.receipts d))) by (rewrite E; left; reflexivity).
      apply filter_In in Hx. destruct Hx as [Hin Hs].
      unfold App.same_receipt in Hs.
      rewrite !andb_true_iff, !str_eqb_eq in Hs.
      exists x. tauto.
Qed.


(** ** The math rule *)

(** C1. For every receipt record and duplicate flag, the math rule passes
    exactly when [abs((subtotal + tax) - total) <= 0.03] in binary64
    arithmetic, and its message is "Pass: s + t = T" or "Fail: s + t != T"
    with the three amounts printed with two decimals.  At subtotal 10.00,
    tax 0.80 the total 10.83 passes and the total 10.84 fails. *)
Theorem math_rule (data : Milestone2.receipt) (is_dup_bool : bool) :
  let sub := Milestone2.subtotal data in
  let tax := Milestone2.tax data in
  let total := Milestone2.total data in
  let r := Milestone2.math (Milestone2.validate_receipt data is_dup_bool) in
  (fst r = true <-> (abs ((sub + tax) - total) <=? 0.03)%float = true) /\
  snd r = (if fst r then lit "Pass: " else lit "Fail: ")
            ++ format_f 2 sub ++ lit " + " ++ format_f 2 tax
            ++ (if fst r then lit " = " else lit " != ") ++ format_f 2 total /\
  Milestone2.math
    (Milestone2.validate_receipt
       (Milestone2.Receipt (Some (lit "Acme Mart")) (Some (lit "2024-01-15")) None
                           10.00 0.80 10.83) is_dup_bool)
  = (true, lit "Pass: 10.00 + 0.80 = 10.83") /\
  Milestone2.math
    (Milestone2.validate_receipt
       (Milestone2.Receipt (Some (lit "Acme Mart")) (Some (lit "2024-01-15")) None
                           10.00 0.80 10.84) is_dup_bool)
  = (false, lit "Fail: 10.00 + 0.80 != 10.84").
Proof.
  intros sub tax total r. subst r.
  unfold Milestone2.validate_receipt. cbn [Milestone2.math].
  fold sub. fold tax. fold total.
  split; [|split; [|split; vm_compute; reflexivity]].
  - destruct (abs (sub + tax - total) <=? 0.03)%float; cbn [fst];
      split; congruence.
  - destruct (abs (sub + tax - total) <=? 0.03)%float; cbn [fst snd];
      reflexivity.
Qed.

(** The comparison is the binary64 one: the decimal amounts 1.00, 0.00 and
    1.03 differ by three cents, yet the float nearest to 1.03 is more than
    the float nearest to 0.03 away from 1, and the rule fails. *)
Lemma math_rule_is_binary64 :
  Milestone2.math
    (Milestone2.validate_receipt
       (Milestone2.Receipt (Some (lit "Acme Mart")) (Some (lit "2024-01-15")) None
                           1.00 0.00 1.03) false)
  = (false, lit "Fail: 1.00 + 0.00 != 1.03").
Proof. vm_compute. reflexivity. Qed.

(** ** The examples of the specification, run *)

Example end_to_end_extraction :
  run_extractors noon spec_text
  = (ReceiptData (lit "Acme Mart") (lit "01/15/2024") 8.64 0.64,
     [LineItem (lit "Coffee") 2 8]).
Proof. vm_compute. reflexivity. Qed.

Example last_total_and_largest_tax :
  re_findall total_pattern running_totals_text
    = [lit "8.00"; lit "8.64"; lit "1,008.64"] /\
  re_findall tax_pattern running_totals_text = [lit "0.50"; lit "0.14"] /\
  parse_receipt_data noon running_totals_text
    = ReceiptData (lit "Corner Shop") (lit "2024-01-15") 1008.64 0.5.
Proof. vm_compute. repeat split; reflexivity. Qed.

Example no_amount_no_total :
  parse_receipt_data noon (lit "Thank you for shopping")
  = ReceiptData (lit "Thank you for shopping") (lit "2024-01-15") 0 0.
Proof. vm_compute. reflexivity. Qed.

Example second_upload_is_a_duplicate :
  App.check_if_receipt_exists App.empty_db (lit "Acme Mart") (lit "01/15/2024")
                              8.64 = false /\
  App.check_if_receipt_exists acme_db (lit "Acme Mart") (lit "01/15/2024")
                              8.64 = true.
Proof. vm_compute. split; reflexivity. Qed.

Example tax_rate_boundary :
  fst (Milestone2.tax_rate
         (Milestone2.validate_receipt
            (Milestone2.Receipt (Some (lit "A")) (Some (lit "d")) None 100 30 130) false))
    = true /\
  fst (Milestone2.tax_rate
         (Milestone2.validate_receipt
            (Milestone2.Receipt (Some (lit "A")) (Some (lit "d")) None 100 30.01 130.01)
            false))
    = false.
Proof. vm_compute. split; reflexivity. Qed.

(** * Further properties of the extractors *)

(** What a match captures is a piece of the text it read. *)
Lemma sem_capture_in_text r pos s g pos' s' g' :
  sem r pos s g pos' s' g' ->
  g' = g \/ exists a u v, g' = Some a /\ s = u ++ a ++ v.
Proof.
  induction 1; try (left; reflexivity).
  - destruct IHsem2 as [->|(a & u & v & -> & Hs1)].
    + exact IHsem1.
    + right. destruct (sem_consumes H) as (cs & -> & _).
      exists a, (cs ++ u), v. rewrite Hs1, <- app_assoc. auto.
  - exact IHsem.
  - exact IHsem.
  - right. exists (firstn (pos' - pos) s), [], (skipn (pos' - pos) s).
    simpl. rewrite firstn_skipn. auto.
Qed.

Lemma amount_has_digit a : is_amount a -> exists c, In c a /\ is_digit c = true.
Proof.
  intros (ds & d1 & d2 & -> & _ & _ & H1 & _). exists d1. split; [|exact H1].
  apply in_or_app. right. simpl. auto.
Qed.

(** A match of a pattern that captures an amount reads a digit. *)
Lemma amount_match_needs_digit r adv pos s m :
  (forall adv pos s m, match_at r adv pos s = Some m ->
                       exists a, m_group1 m = Some a /\ is_amount a) ->
  match_at r adv pos s = Some m ->
  exists c, In c s /\ is_digit c = true.
Proof.
  intros Hcap Hm. destruct (Hcap _ _ _ _ Hm) as (a & Ha & Hamt).
  destruct (match_at_sound _ _ _ _ Hm) as (pos' & s' & g' & Hs & ->).
  simpl in Ha. subst g'.
  destruct (sem_capture_in_text Hs) as [E|(a' & u & v & E & ->)]; [discriminate|].
  injection E as <-. destruct (amount_has_digit Hamt) as (c & Hc & Hd).
  exists c. split; [|exact Hd].
  apply in_or_app. right. apply in_or_app. left. exact Hc.
Qed.

Lemma findall_amounts_without_digit r text :
  (forall adv pos s m, match_at r adv pos s = Some m ->
                       exists a, m_group1 m = Some a /\ is_amount a) ->
  (forall c, In c text -> is_digit c = false) ->
  re_findall r text = [].
Proof.
  intros Hcap Hno. unfold re_findall.
  destruct (findall_from r 0 text 0) as [|a l] eqn:E; [reflexivity|]. exfalso.
  destruct (@findall_from_sound r text 0 0 a) as (i & adv & m & _ & Hm & _).
  { rewrite E. left; reflexivity. }
  destruct (@amount_match_needs_digit r adv _ _ m Hcap Hm) as (c & Hc & Hd).
  apply In_skipn in Hc. rewrite (Hno c Hc) in Hd. discriminate.
Qed.

Lemma date_match_starts_with_digit adv pos s m :
  match_at date_pattern adv pos s = Some m ->
  exists c s0, s = c :: s0 /\ is_digit c = true.
Proof.
  intros H. destruct (match_at_sound _ _ _ _ H) as (pos' & s' & g' & Hs & _).
  clear H. unfold date_pattern in Hs. cbn [seqs] in Hs. unfold times in Hs.
  inv Hs.
  match goal with H : sem (Alt _ _) _ _ _ _ _ _ |- _ => inv H end;
    match goal with H : sem (Seq _ _) _ _ _ _ _ _ |- _ => inv H end;
    match goal with H : sem (Rep is_digit _ _) _ _ _ _ _ _ |- _ => inv H end;
    match goal with
    | H1 : forallb is_digit ?cs = true, H2 : _ <= length ?cs |- _ =>
        destruct cs as [|c cs]; simpl in H2; [lia|];
        simpl in H1; apply andb_true_iff in H1; destruct H1 as [H1 _];
        exists c; eexists; split; [reflexivity | exact H1]
    end.
Qed.

Lemma strip_In c (s : str) : In c (strip s) -> In c s.
Proof.
  unfold strip. intros H.
  destruct (rstrip_prefix (lstrip s)) as (ws & E & _).
  destruct (lstrip_suffix s) as (ws' & E' & _).
  rewrite E'. apply in_or_app. right. rewrite E. apply in_or_app. left. exact H.
Qed.

Lemma split_on_In sep (s : str) l c :
  In l (split_on sep s) -> In c l -> In c s.
Proof.
  revert l. induction s as [|a s IH]; intros l Hl Hc; simpl in Hl.
  - destruct Hl as [<-|[]]. contradiction.
  - destruct (Ascii.eqb a sep).
    + destruct Hl as [<-|Hl]; [contradiction|]. right. eapply IH; eauto.
    + destruct (split_on_cons sep s) as (l0 & ls & E). rewrite E in *.
      destruct Hl as [<-|Hl].
      * destruct Hc as [->|Hc]; [left; reflexivity|].
        right. apply (IH l0); [left; reflexivity | exact Hc].
      * right. apply (IH l); [right; exact Hl | exact Hc].
Qed.

Lemma flat_map_nil (A B : Type) (f : A -> list B) (l : list A) :
  (forall x, In x l -> f x = []) -> flat_map f l = [].
Proof.
  induction l as [|a l IH]; intros H; simpl; [reflexivity|].
  rewrite (H a (or_introl eq_refl)), IH; [reflexivity|].
  intros x Hx. apply H. right; exact Hx.
Qed.

Lemma line_without_digit_no_item line :
  (forall c, In c line -> is_digit c = false) -> line_step [] line = [].
Proof.
  intros Hno. unfold line_step.
  destruct (re_search price_pattern (strip line)) as [m|] eqn:E; [|reflexivity].
  exfalso. destruct (search_from_sound _ _ _ E) as (pos' & s' & Hm & _ & ->).
  destruct (@amount_match_needs_digit price_pattern false _ _ m
              price_pattern_captures Hm) as (c & Hc & Hd).
  apply In_skipn, strip_In in Hc. rewrite (Hno c Hc) in Hd. discriminate.
Qed.

(** X1. A text with no digit gives the defaults: total [0.0], tax [0.0], the
    date of the clock, and no line item. *)
Theorem text_without_digits_yields_defaults (now : datetime) (text : str) :
  (forall c, In c text -> is_digit c = false) ->
  total (parse_receipt_data now text) = 0%float /\
  tax (parse_receipt_data now text) = 0%float /\
  date (parse_receipt_data now text) = strftime_date now /\
  parse_line_items_data text = [].
Proof.
  intros Hno. unfold parse_receipt_data. cbn [total tax date].
  rewrite (@findall_amounts_without_digit total_pattern text
             total_pattern_captures Hno).
  rewrite (@findall_amounts_without_digit tax_pattern text
             tax_pattern_captures Hno).
  repeat split.
  - destruct (re_search date_pattern text) as [m|] eqn:E; [|reflexivity].
    exfalso. destruct (search_from_sound _ _ _ E) as (pos' & s' & Hm & _ & Hs).
    destruct (date_match_starts_with_digit _ _ _ Hm) as (c & s0 & Hc & Hd).
    assert (Hin : In c text).
    { apply (@In_skipn _ c (pos' - 0)). rewrite <- Hs, Hc. left; reflexivity. }
    rewrite (Hno c Hin) in Hd. discriminate.
  - rewrite parse_line_items_flat. apply flat_map_nil.
    intros l Hl. apply line_without_digit_no_item.
    intros c Hc. apply Hno. eapply split_on_In; eauto.
Qed.

Lemma text_without_digits_yields_defaults_witness :
  let text := lit "Thank you for shopping" in
  total (parse_receipt_data noon text) = 0%float /\
  tax (parse_receipt_data noon text) = 0%float /\
  date (parse_receipt_data noon text) = strftime_date noon /\
  parse_line_items_data text = [].
Proof.
  apply (@text_without_digits_yields_defaults noon
           (lit "Thank you for shopping")).
  intros c Hc. vm_compute in Hc.
  repeat (destruct Hc as [<-|Hc]; [reflexivity|]). contradiction.
Defined.

Lemma filter_first (A : Type) (f : A -> bool) (l : list A) :
  match filter f l with
  | [] => forall x, In x l -> f x = false
  | y :: _ =>
      exists before after,
        l = before ++ y :: after /\ f y = true /\
        forall x, In x before -> f x = false
  end.
Proof.
  induction l as [|a l IH]; simpl; [intros x []|].
  destruct (f a) eqn:E.
  - exists [], l. repeat split; auto. intros x [].
  - destruct (filter f l) as [|y r].
    + intros x [<-|Hx]; auto.
    + destruct IH as (before & after & -> & Hy & Hb).
      exists (a :: before), after. repeat split; auto.
      intros x [<-|Hx]; auto.
Qed.

(** X2. The merchant is the first line of the text that is not blank, with
    the white space at its ends removed, and "Unknown" when every line is
    blank; it is never empty and has no white space at its ends. *)
Theorem merchant_is_first_nonblank_line (now : datetime) (text : str) :
  let m := merchant (parse_receipt_data now text) in
  m <> [] /\ strip m = m /\
  ((m = UNKNOWN /\ forall line, In line (split_lines text) -> strip line = [])
   \/ exists before line after,
        split_lines text = before ++ line :: after /\
        (forall b, In b before -> strip b = []) /\
        m = strip line).
Proof.
  unfold parse_receipt_data. cbn [merchant]. unfold stripped_lines.
  pose proof (filter_first (fun line => negb (str_eqb (strip line) []))
                           (split_lines text)) as H.
  destruct (filter _ (split_lines text)) as [|y r]; cbn [map].
  - split; [discriminate|]. split; [reflexivity|]. left. split; [reflexivity|].
    intros line Hl. specialize (H line Hl). apply negb_false_iff in H.
    apply str_eqb_eq, H.
  - destruct H as (before & after & E & Hy & Hb).
    apply negb_true_iff in Hy.
    split.
    { intros E0. rewrite E0, str_eqb_refl in Hy. discriminate. }
    split; [apply strip_idem|]. right.
    exists before, y, after. repeat split; auto.
    intros b Hin. specialize (Hb b Hin). apply negb_false_iff in Hb.
    apply str_eqb_eq, Hb.
Qed.

Lemma parse_total_value (now : datetime) (text : str) :
  total (parse_receipt_data now text) =
    match last_item (re_findall total_pattern text) with
    | Some a => amount_value a
    | None => 0%float
    end.
Proof.
  unfold parse_receipt_data. cbn [total].
  destruct (last_item (re_findall total_pattern text)) as [a|] eqn:E;
    [|reflexivity].
  pose proof (total_matches_are_amounts text) as Hall.
  rewrite Forall_forall in Hall.
  rewrite (py_float_amount (Hall _ (last_item_In _ E))). reflexivity.
Qed.

Lemma parse_total_nonneg now text : nonneg (total (parse_receipt_data now text)).
Proof.
  rewrite parse_total_value.
  destruct (last_item _); [apply amount_value_nonneg | exact I].
Qed.

Lemma parse_tax_nonneg now text : nonneg (tax (parse_receipt_data now text)).
Proof.
  unfold parse_receipt_data. cbn [tax].
  pose proof (tax_matches_are_amounts text) as Hall.
  destruct (re_findall tax_pattern text) as [|t ts] eqn:E; [exact I|].
  rewrite (traverse_map (fun t => py_float (remove_commas t)) amount_value).
  - destruct (py_max_spec (l := map amount_value (t :: ts)))
      as (m & Hm & Hin & _).
    + apply Forall_forall. intros v Hv. apply in_map_iff in Hv.
      destruct Hv as (a & <- & _). apply amount_value_nonneg.
    + discriminate.
    + rewrite Hm. apply in_map_iff in Hin. destruct Hin as (a & <- & _).
      apply amount_value_nonneg.
  - eapply Forall_impl; [|exact Hall]. intros a Ha. apply py_float_amount, Ha.
Qed.

(** X3. Whatever the text, the extracted total and tax are numbers (not
    NaN) and are not negative. *)
Theorem extracted_amounts_are_not_negative (now : datetime) (text : str) :
  let r := parse_receipt_data now text in
  (0 <=? total r)%float = true /\ is_nan (total r) = false /\
  (0 <=? tax r)%float = true /\ is_nan (tax r) = false.
Proof.
  cbv zeta.
  pose proof (parse_total_nonneg now text) as Ht.
  pose proof (parse_tax_nonneg now text) as Hx.
  repeat split; auto using nonneg_zero_leb, nonneg_not_nan.
Qed.

Lemma line_step_at_most_one line : length (line_step [] line) <= 1.
Proof.
  destruct (line_step_cases [] line)
    as [E | (m & p & q & n & _ & _ & _ & _ & _ & E)]; rewrite E; simpl; lia.
Qed.

(** X4. The line-item extractor works line by line: the items of two texts
    joined by a line feed are the items of the first followed by the items
    of the second, and a text yields at most one item per line. *)
Theorem line_items_line_by_line (before after : str) :
  parse_line_items_data (before ++ LF :: after)
  = parse_line_items_data before ++ parse_line_items_data after /\
  length (parse_line_items_data before) <= length (split_lines before).
Proof.
  rewrite !parse_line_items_flat. unfold split_lines.
  rewrite split_on_app, flat_map_app. split; [reflexivity|].
  induction (split_on LF before) as [|l ls IH]; simpl; [lia|].
  rewrite length_app. pose proof (line_step_at_most_one l). lia.
Qed.

(** What a match reads: its length is within the bounds of the pattern and
    its characters are in the sets of the pattern. *)
Lemma sem_reads r pos s g pos' s' g' (q : charset) :
  sem r pos s g pos' s' g' -> sets_within q r ->
  exists cs,
    s = cs ++ s' /\ pos' = pos + length cs /\ forallb q cs = true /\
    min_len r <= length cs /\
    (forall n, max_len r = Some n -> length cs <= n).
Proof.
  induction 1; intros Hq; simpl in Hq.
  - exists [c]. simpl. rewrite (Hq c H).
    repeat split; auto; try lia. intros n E. injection E as <-. lia.
  - destruct Hq as [Hq1 Hq2].
    destruct (IHsem1 Hq1) as (cs1 & -> & -> & Hf1 & Hmin1 & Hmax1).
    destruct (IHsem2 Hq2) as (cs2 & -> & -> & Hf2 & Hmin2 & Hmax2).
    exists (cs1 ++ cs2). rewrite length_app, forallb_app, Hf1, Hf2, <- app_assoc.
    simpl. repeat split; auto; try lia.
    intros n E. destruct (max_len r1) as [a|]; [|discriminate].
    destruct (max_len r2) as [b|]; [|discriminate]. injection E as <-.
    specialize (Hmax1 a eq_refl). specialize (Hmax2 b eq_refl). lia.
  - destruct Hq as [Hq1 _].
    destruct (IHsem Hq1) as (cs & -> & -> & Hf & Hmin & Hmax).
    exists cs. simpl. repeat split; auto; try lia.
    intros n E. destruct (max_len r1) as [a|]; [|discriminate].
    destruct (max_len r2) as [b|]; [|discriminate]. injection E as <-.
    specialize (Hmax a eq_refl). lia.
  - destruct Hq as [_ Hq2].
    destruct (IHsem Hq2) as (cs & -> & -> & Hf & Hmin & Hmax).
    exists cs. simpl. repeat split; auto; try lia.
    intros n E. destruct (max_len r1) as [a|]; [|discriminate].
    destruct (max_len r2) as [b|]; [|discriminate]. injection E as <-.
    specialize (Hmax b eq_refl). lia.
  - exists cs. simpl. repeat split; auto.
    apply forallb_forall. intros c Hc. apply Hq.
    rewrite forallb_forall in H. apply H, Hc.
  - destruct (IHsem Hq) as (cs & -> & -> & Hf & Hmin & Hmax).
    exists cs. simpl. repeat split; auto.
  - exists []. simpl. repeat split; auto; lia.
  - exists []. simpl. repeat split; auto; lia.
  - exists []. simpl. repeat split; auto; lia.
Qed.

Lemma date_pattern_sets : sets_within date_char date_pattern.
Proof.
  unfold date_pattern, times, date_char. cbn [seqs sets_within].
  repeat split; intros c H; rewrite H; auto using orb_true_r.
Qed.

(** X5. The extracted date is the date of the clock or a piece of the text
    of six to ten characters, all of them digits, slashes or dashes; no
    other text ever becomes the date. *)
Theorem extracted_date_shape (now : datetime) (text : str) :
  let d := date (parse_receipt_data now text) in
  d = strftime_date now \/
  (contains d text = true /\ 6 <= length d <= 10 /\
   forallb date_char d = true).
Proof.
  unfold parse_receipt_data. cbn [date].
  destruct (re_search date_pattern text) as [m|] eqn:E; [right | left; reflexivity].
  destruct (search_from_sound _ _ _ E) as (pos' & s' & Hm & _ & Hs').
  rewrite Nat.sub_0_r in Hs'.
  destruct (match_at_sound _ _ _ _ Hm) as (pos'' & s'' & g' & Hs & ->).
  destruct (sem_reads date_char Hs date_pattern_sets)
    as (cs & Ecs & -> & Hf & Hmin & Hmax).
  assert (Hd : group0 text (MatchObj pos' (pos' + length cs) g') = cs).
  { unfold group0. cbn [m_start m_end]. rewrite <- Hs', Ecs.
    apply firstn_exact. reflexivity. }
  rewrite Hd. split; [|split; [|exact Hf]].
  - apply contains_iff. exists (firstn pos' text), s''.
    rewrite <- Ecs, Hs'. symmetry. apply firstn_skipn.
  - specialize (Hmax 10 eq_refl). change (min_len date_pattern) with 6 in Hmin.
    lia.
Qed.

(** * Further properties of the vault of app.py *)

Lemma insert_desc_last (A : Type) (key : A -> Z) (x : A) (l : list A) :
  Forall (fun y => (key x < key y)%Z) l -> insert_desc key x l = l ++ [x].
Proof.
  induction 1 as [|y l Hy Hl IH]; simpl; [reflexivity|].
  replace (key y <? key x)%Z with false by (symmetry; apply Z.ltb_ge; lia).
  rewrite IH. reflexivity.
Qed.

(** On rows whose keys increase, [ORDER BY key DESC] is the reverse. *)
Lemma order_by_desc_sorted (A : Type) (key : A -> Z) (l : list A) :
  StronglySorted Z.lt (map key l) -> order_by_desc key l = rev l.
Proof.
  induction l as [|a l IH]; intros H; simpl; [reflexivity|].
  simpl in H. inversion H as [|? ? Hs Hf]; subst.
  rewrite (IH Hs). apply insert_desc_last.
  apply Forall_forall. intros y Hy. apply in_rev in Hy.
  rewrite Forall_forall in Hf. apply Hf, in_map, Hy.
Qed.

Lemma insert_desc_In (A : Type) (key : A -> Z) (x y : A) (l : list A) :
  In y (insert_desc key x l) <-> y = x \/ In y l.
Proof.
  induction l as [|a l IH]; simpl.
  - intuition.
  - destruct (key a <? key x)%Z; simpl; rewrite ?IH; intuition.
Qed.

Lemma order_by_desc_In (A : Type) (key : A -> Z) (y : A) (l : list A) :
  In y (order_by_desc key l) <-> In y l.
Proof.
  induction l as [|a l IH]; simpl; [tauto|].
  rewrite insert_desc_In, IH. intuition.
Qed.

Lemma sorted_snoc (ids : list Z) (x : Z) :
  StronglySorted Z.lt ids -> Forall (fun i => (i < x)%Z) ids ->
  StronglySorted Z.lt (ids ++ [x]).
Proof.
  induction 1 as [|a l Hs IH Hf]; intros Hx; simpl.
  - constructor; constructor.
  - inversion Hx as [|? ? Ha Hl]; subst. constructor; [apply IH, Hl|].
    apply Forall_app. split; [exact Hf | constructor; [exact Ha | constructor]].
Qed.

Lemma sorted_NoDup (ids : list Z) : StronglySorted Z.lt ids -> NoDup ids.
Proof.
  induction 1 as [|a l Hs IH Hf]; constructor; [|exact IH].
  intros Hin. rewrite Forall_forall in Hf. specialize (Hf a Hin). lia.
Qed.

Lemma rowids_ok_snoc (ids : list Z) (seq : Z) :
  rowids_ok ids seq -> rowids_ok (ids ++ [(seq + 1)%Z]) (seq + 1).
Proof.
  intros (Hs & Hf & H0). repeat split.
  - apply sorted_snoc; [exact Hs|].
    eapply Forall_impl; [|exact Hf]. simpl. intros i Hi. lia.
  - apply Forall_app. split.
    + eapply Forall_impl; [|exact Hf]. simpl. intros i Hi. lia.
    + constructor; [lia | constructor].
  - lia.
Qed.

Lemma rowids_ok_insert_items (rid : Z) (items : list line_item) :
  forall ids seq,
    rowids_ok ids seq ->
    rowids_ok (ids ++ map App.l_id (App.insert_items rid seq items))
              (seq + Z.of_nat (length items)).
Proof.
  induction items as [|it items IH]; intros ids seq H.
  - simpl. rewrite app_nil_r, Z.add_0_r. exact H.
  - cbn [App.insert_items map App.l_id length].
    replace (seq + Z.of_nat (S (length items)))%Z
      with ((seq + 1) + Z.of_nat (length items))%Z by lia.
    change (ids ++ (seq + 1)%Z :: ?l) with (ids ++ [(seq + 1)%Z] ++ l).
    rewrite app_assoc. apply IH, rowids_ok_snoc, H.
Qed.

Lemma insert_items_receipt_id rid seq items l :
  In l (App.insert_items rid seq items) -> App.l_receipt_id l = rid.
Proof.
  revert seq. induction items as [|it items IH]; intros seq; simpl; [tauto|].
  intros [<-|H]; [reflexivity | eapply IH; eauto].
Qed.

Lemma insert_items_bill rid merchant seq items :
  map (fun l => App.BillLine rid merchant (App.l_name l) (App.l_qty l)
                             (App.l_price l))
      (App.insert_items rid seq items)
  = bill_of rid merchant items.
Proof.
  revert seq. induction items as [|it items IH]; intros seq; simpl; [reflexivity|].
  rewrite IH. reflexivity.
Qed.

Lemma vault_ok_empty : vault_ok App.empty_db.
Proof.
  repeat split; simpl; try constructor; lia.
Qed.

Lemma vault_ok_save now d merchant date total tax filename items :
  vault_ok d ->
  vault_ok (fst (App.save_receipt_to_db now d merchant date total tax filename
                                        items)).
Proof.
  intros (Hr & Hl & Hfk). unfold App.save_receipt_to_db.
  destruct (forallb _ items); cbn [fst]; [|repeat split; auto; apply Hr || apply Hl].
  split; [|split]; cbn [App.receipts App.line_items App.receipts_seq
                        App.line_items_seq].
  - rewrite map_app. apply rowids_ok_snoc, Hr.
  - rewrite map_app. apply rowids_ok_insert_items, Hl.
  - apply Forall_app. split.
    + eapply Forall_impl; [|exact Hfk]. simpl. intros l Hin.
      rewrite map_app. apply in_or_app. left; exact Hin.
    + apply Forall_forall. intros l Hin.
      rewrite (insert_items_receipt_id _ _ _ _ Hin), map_app.
      apply in_or_app. right. left. reflexivity.
Qed.

Lemma vault_ok_acme : vault_ok acme_db.
Proof.
  unfold acme_db, App.process_and_save.
  destruct (App.check_if_receipt_exists _ _ _ _); [apply vault_ok_empty|].
  pose proof (vault_ok_save noon (merchant (parse_receipt_data noon acme_text))
                (date (parse_receipt_data noon acme_text))
                (total (parse_receipt_data noon acme_text))
                (tax (parse_receipt_data noon acme_text)) (lit "acme.png")
                (parse_line_items_data acme_text) vault_ok_empty) as Hs.
  destruct (App.save_receipt_to_db _ _ _ _ _ _ _ _) as [d' [b|]]; exact Hs.
Qed.

(** X6. The page keeps the vault well formed: after "Process & Save" and
    after "Clear All Records" the receipt ids and the line-item ids are
    positive, increasing and no greater than their counters, and every line
    item belongs to a stored receipt. *)
Theorem page_keeps_vault_well_formed (now now' : datetime)
        (filename raw_text : str) (d : App.db) :
  vault_ok d ->
  vault_ok (fst (App.process_and_save now now' filename raw_text d)) /\
  vault_ok (App.clear_database d) /\
  vault_ok (App.init_db (Some d)) /\ vault_ok (App.init_db None).
Proof.
  intros H. split; [|split; [apply vault_ok_empty | split;
                              [exact H | apply vault_ok_empty]]].
  unfold App.process_and_save.
  destruct (App.check_if_receipt_exists _ _ _ _); [exact H|].
  pose proof (vault_ok_save now' (merchant (parse_receipt_data now raw_text))
                (date (parse_receipt_data now raw_text))
                (total (parse_receipt_data now raw_text))
                (tax (parse_receipt_data now raw_text)) filename
                (parse_line_items_data raw_text) H) as Hs.
  destruct (App.save_receipt_to_db _ _ _ _ _ _ _ _) as [d' [b|]]; exact Hs.
Qed.

Lemma page_keeps_vault_well_formed_witness : vault_ok acme_db.
Proof.
  exact (proj1 (@page_keeps_vault_well_formed noon noon (lit "acme.png")
                  acme_text App.empty_db vault_ok_empty)).
Defined.

Lemma process_saved_inv now now' filename raw_text d d' t :
  App.process_and_save now now' filename raw_text d = (d', App.Saved t) ->
  let rd := parse_receipt_data now raw_text in
  App.check_if_receipt_exists d (merchant rd) (date rd) (total rd) = false /\
  d' = vault_after_save now' d rd filename (parse_line_items_data raw_text) /\
  t = tax rd.
Proof.
  unfold App.process_and_save, App.save_receipt_to_db. cbv zeta.
  destruct (App.check_if_receipt_exists _ _ _ _); [discriminate|].
  destruct (forallb _ (parse_line_items_data raw_text)); [|discriminate].
  intros H. injection H as <- <-. repeat split.
Qed.

Lemma vault_ok_after_save now' d rd filename items :
  vault_ok d -> vault_ok (vault_after_save now' d rd filename items).
Proof.
  intros (Hr & Hl & Hfk). unfold vault_after_save, saved_receipt.
  split; [|split]; cbn [App.receipts App.line_items App.receipts_seq
                        App.line_items_seq].
  - rewrite map_app. apply rowids_ok_snoc, Hr.
  - rewrite map_app. apply rowids_ok_insert_items, Hl.
  - apply Forall_app. split.
    + eapply Forall_impl; [|exact Hfk]. simpl. intros l Hin.
      rewrite map_app. apply in_or_app. left; exact Hin.
    + apply Forall_forall. intros l Hin.
      rewrite (insert_items_receipt_id _ _ _ _ Hin), map_app.
      apply in_or_app. right. left. reflexivity.
Qed.

Lemma filter_all (A : Type) (f : A -> bool) (l : list A) :
  (forall x, In x l -> f x = true) -> filter f l = l.
Proof.
  induction l as [|a l IH]; intros H; simpl; [reflexivity|].
  rewrite (H a (or_introl eq_refl)), IH; [reflexivity|].
  intros x Hx. apply H. right; exact Hx.
Qed.

(** The line items of the receipt just saved are the new rows. *)
Lemma new_items_of_saved_receipt now' d rd filename items :
  vault_ok d ->
  filter (fun l => (App.l_receipt_id l =? App.receipts_seq d + 1)%Z)
         (App.line_items (vault_after_save now' d rd filename items))
  = App.insert_items (App.receipts_seq d + 1) (App.line_items_seq d) items.
Proof.
  intros ((_ & Hf & _) & _ & Hfk). unfold vault_after_save.
  cbn [App.line_items]. rewrite filter_app, filter_none, filter_all.
  - reflexivity.
  - intros l Hl. apply Z.eqb_eq. eapply insert_items_receipt_id, Hl.
  - intros l Hl. apply Z.eqb_neq. rewrite Forall_forall in Hfk, Hf.
    specialize (Hf _ (Hfk l Hl)). simpl in Hf. lia.
Qed.

Lemma saved_receipt_bill now' d rd filename items :
  vault_ok d ->
  App.get_detailed_bill_data (vault_after_save now' d rd filename items)
                             (App.receipts_seq d + 1)
  = bill_of (App.receipts_seq d + 1) (merchant rd) items.
Proof.
  intros H.
  pose proof (vault_ok_after_save now' rd filename items H) as ((Hs & _) & _).
  assert (Hin : In (saved_receipt now' d rd filename)
                   (App.receipts (vault_after_save now' d rd filename items))).
  { unfold vault_after_save. cbn [App.receipts]. apply in_or_app. right.
    left; reflexivity. }
  pose proof (@bill_lines_of_receipt _ _ (sorted_NoDup Hs) Hin) as E.
  cbn [saved_receipt App.r_id App.r_merchant] in E. rewrite E.
  rewrite (new_items_of_saved_receipt now' rd filename items H).
  apply insert_items_bill.
Qed.

Lemma saved_receipt_metadata now' d rd filename items :
  vault_ok d ->
  App.get_receipt_metadata (vault_after_save now' d rd filename items)
                           (App.receipts_seq d + 1)
  = (total rd, tax rd).
Proof.
  intros H.
  pose proof (vault_ok_after_save now' rd filename items H) as ((Hs & _) & _).
  assert (Hin : In (saved_receipt now' d rd filename)
                   (App.receipts (vault_after_save now' d rd filename items))).
  { unfold vault_after_save. cbn [App.receipts]. apply in_or_app. right.
    left; reflexivity. }
  unfold App.get_receipt_metadata. rewrite find_filter.
  pose proof (@receipt_of_id _ _ (sorted_NoDup Hs) Hin) as E.
  cbn [saved_receipt App.r_id] in E. rewrite E. reflexivity.
Qed.

Lemma check_after_save now' d rd filename items :
  App.check_if_receipt_exists (vault_after_save now' d rd filename items)
                              (merchant rd) (date rd) (total rd)
  = (App.check_if_receipt_exists d (merchant rd) (date rd) (total rd)
     || negb (is_nan (total rd))).
Proof.
  unfold App.check_if_receipt_exists, vault_after_save. cbn [App.receipts].
  rewrite filter_app.
  destruct (filter _ (App.receipts d)) as [|x l]; cbn [app hd_error orb];
    [|reflexivity].
  cbn [filter]. unfold App.same_receipt at 1, saved_receipt.
  cbn [App.r_merchant App.r_date App.r_total_amount].
  rewrite !str_eqb_refl. unfold is_nan. rewrite negb_involutive.
  cbn [andb]. destruct (total rd =? total rd)%float; reflexivity.
Qed.

(** X7. What "Process & Save" stores can be read back: in a well-formed
    vault, the bill of the new id lists exactly the extracted line items in
    order, its stored total and tax are the extracted ones, and the
    duplicate check now finds the parsed merchant, date and total. *)
Theorem saved_receipt_is_read_back (now now' : datetime)
        (filename raw_text : str) (d d' : App.db) (t : float) :
  vault_ok d ->
  App.process_and_save now now' filename raw_text d = (d', App.Saved t) ->
  let rd := parse_receipt_data now raw_text in
  let id := (App.receipts_seq d + 1)%Z in
  App.get_detailed_bill_data d' id
    = bill_of id (merchant rd) (parse_line_items_data raw_text) /\
  App.get_receipt_metadata d' id = (total rd, tax rd) /\
  App.check_if_receipt_exists d' (merchant rd) (date rd) (total rd) = true.
Proof.
  intros H Hp rd id. destruct (process_saved_inv _ _ _ _ _ Hp) as (_ & -> & _).
  fold rd. split; [|split].
  - apply saved_receipt_bill, H.
  - apply saved_receipt_metadata, H.
  - rewrite check_after_save. subst rd.
    rewrite (@nonneg_not_nan _ (parse_total_nonneg now raw_text)).
    apply orb_true_r.
Qed.

Lemma saved_receipt_is_read_back_witness :
  App.get_detailed_bill_data acme_db 1
    = bill_of 1 (lit "Acme Mart") [LineItem (lit "Coffee") 1 8] /\
  App.get_receipt_metadata acme_db 1 = (8.64, 0.64)%float.
Proof.
  destruct (@saved_receipt_is_read_back noon noon (lit "acme.png") acme_text
              App.empty_db acme_db 0.64 vault_ok_empty)
    as (H1 & H2 & _).
  - vm_compute. reflexivity.
  - split; [exact H1 | exact H2].
Defined.

Lemma parse_same_date now1 now2 text :
  re_search date_pattern text <> None \/
  strftime_date now1 = strftime_date now2 ->
  parse_receipt_data now2 text = parse_receipt_data now1 text.
Proof.
  intros H. unfold parse_receipt_data.
  destruct (re_search date_pattern text); [reflexivity|].
  destruct H as [H|H]; [congruence | rewrite H; reflexivity].
Qed.

(** X8. Uploading the same text again right after it was saved changes
    nothing: when the text carries a date, or the second upload happens on
    the same day, it is reported as a duplicate and the vault stays as the
    first upload left it. *)
Theorem second_upload_is_rejected (now1 now1' now2 now2' : datetime)
        (file1 file2 raw_text : str) (d d' : App.db) (t : float) :
  App.process_and_save now1 now1' file1 raw_text d = (d', App.Saved t) ->
  re_search date_pattern raw_text <> None \/
  strftime_date now1 = strftime_date now2 ->
  App.process_and_save now2 now2' file2 raw_text d'
  = (d', App.DuplicateDetected (merchant (parse_receipt_data now1 raw_text))).
Proof.
  intros Hp Hd. destruct (process_saved_inv _ _ _ _ _ Hp) as (_ & -> & _).
  unfold App.process_and_save. rewrite (parse_same_date _ _ _ Hd).
  rewrite check_after_save.
  rewrite (@nonneg_not_nan _ (parse_total_nonneg now1 raw_text)), orb_true_r.
  reflexivity.
Qed.

Lemma second_upload_is_rejected_witness :
  App.process_and_save (DateTime 2024 3 1 8 0 0) (DateTime 2024 3 1 8 0 1)
                       (lit "copy.png") acme_text acme_db
  = (acme_db, App.DuplicateDetected (lit "Acme Mart")).
Proof.
  apply (@second_upload_is_rejected noon noon (DateTime 2024 3 1 8 0 0)
           (DateTime 2024 3 1 8 0 1) (lit "acme.png") (lit "copy.png")
           acme_text App.empty_db acme_db 0.64).
  - vm_compute. reflexivity.
  - left. vm_compute. discriminate.
Defined.

Lemma find_app_none (A : Type) (f : A -> bool) (l l' : list A) :
  (forall x, In x l' -> f x = false) -> find f (l ++ l') = find f l.
Proof.
  intros H. induction l as [|a l IH]; simpl.
  - induction l' as [|b l' IH']; simpl; [reflexivity|].
    rewrite (H b (or_introl eq_refl)). apply IH'.
    intros x Hx. apply H. right; exact Hx.
  - destruct (f a); [reflexivity | exact IH].
Qed.

(** X9. Saving a receipt leaves the earlier ones as they were: for every id
    but the new one, the bill and the stored total and tax are unchanged,
    and whatever the duplicate check found before it still finds. *)
Theorem earlier_receipts_are_kept (now now' : datetime)
        (filename raw_text : str) (d d' : App.db) (t : float) (id : Z) :
  App.process_and_save now now' filename raw_text d = (d', App.Saved t) ->
  id <> (App.receipts_seq d + 1)%Z ->
  App.get_detailed_bill_data d' id = App.get_detailed_bill_data d id /\
  App.get_receipt_metadata d' id = App.get_receipt_metadata d id /\
  forall merchant date total,
    App.check_if_receipt_exists d merchant date total = true ->
    App.check_if_receipt_exists d' merchant date total = true.
Proof.
  intros Hp Hid. destruct (process_saved_inv _ _ _ _ _ Hp) as (_ & -> & _).
  unfold vault_after_save. split; [|split].
  - unfold App.get_detailed_bill_data. cbn [App.receipts App.line_items].
    rewrite flat_map_app.
    rewrite (@flat_map_nil _ _ _ (App.insert_items _ _ _)).
    + rewrite app_nil_r. apply flat_map_ext. intros l.
      rewrite filter_app. cbn [filter saved_receipt App.r_id].
      replace (App.receipts_seq d + 1 =? id)%Z with false
        by (symmetry; apply Z.eqb_neq; congruence).
      rewrite andb_false_r, app_nil_r. reflexivity.
    + intros l Hl. rewrite filter_none; [reflexivity|].
      intros r Hr. rewrite (insert_items_receipt_id _ _ _ _ Hl).
      destruct (App.receipts_seq d + 1 =? App.r_id r)%Z eqn:E; [|reflexivity].
      apply Z.eqb_eq in E. rewrite <- E.
      replace (App.receipts_seq d + 1 =? id)%Z with false
        by (symmetry; apply Z.eqb_neq; congruence).
      reflexivity.
  - unfold App.get_receipt_metadata. cbn [App.receipts].
    rewrite find_app_none; [reflexivity|].
    intros r [<-|[]]. cbn [saved_receipt App.r_id].
    apply Z.eqb_neq. congruence.
  - intros m dt tt. unfold App.check_if_receipt_exists. cbn [App.receipts].
    rewrite filter_app.
    destruct (filter _ (App.receipts d)); [discriminate | reflexivity].
Qed.

Lemma earlier_receipts_are_kept_witness :
  App.get_detailed_bill_data bakery_db 1 = App.get_detailed_bill_data acme_db 1 /\
  App.get_receipt_metadata bakery_db 1 = App.get_receipt_metadata acme_db 1 /\
  App.check_if_receipt_exists bakery_db (lit "Acme Mart") (lit "01/15/2024")
                              8.64 = true.
Proof.
  destruct (@earlier_receipts_are_kept noon noon (lit "bakery.png") bakery_text
              acme_db bakery_db 0 1) as (H1 & H2 & H3).
  - vm_compute. reflexivity.
  - vm_compute. discriminate.
  - split; [exact H1 | split; [exact H2|]].
    apply H3. vm_compute. reflexivity.
Defined.

(** X10. The list of receipts shows the newest first: in a well-formed vault
    it is the stored rows from the last id down, and after "Process & Save"
    the new receipt comes at its head, before the list as it was. *)
Theorem newest_receipt_comes_first (now now' : datetime)
        (filename raw_text : str) (d d' : App.db) (t : float) :
  vault_ok d ->
  App.process_and_save now now' filename raw_text d = (d', App.Saved t) ->
  let rd := parse_receipt_data now raw_text in
  App.get_all_receipts d
  = rev (map (fun r => App.ReceiptSummary (App.r_id r) (App.r_merchant r)
                         (App.r_date r) (App.r_total_amount r)
                         (App.r_tax_amount r)) (App.receipts d)) /\
  App.get_all_receipts d'
  = App.ReceiptSummary (App.receipts_seq d + 1) (merchant rd) (date rd)
                       (total rd) (tax rd) :: App.get_all_receipts d.
Proof.
  intros H Hp rd. subst rd.
  destruct (process_saved_inv _ _ _ _ _ Hp) as (_ & -> & _).
  pose proof (vault_ok_after_save now' (parse_receipt_data now raw_text)
                filename (parse_line_items_data raw_text) H)
    as ((Hs' & _) & _).
  destruct H as ((Hs & _) & _).
  unfold App.get_all_receipts.
  rewrite (order_by_desc_sorted _ _ Hs), (order_by_desc_sorted _ _ Hs').
  rewrite <- !map_rev. split; [reflexivity|].
  unfold vault_after_save. cbn [App.receipts].
  rewrite rev_app_distr. reflexivity.
Qed.

Lemma newest_receipt_comes_first_witness :
  App.receipt_ids bakery_db = [2; 1]%Z.
Proof.
  unfold App.receipt_ids.
  destruct (@newest_receipt_comes_first noon noon (lit "bakery.png")
              bakery_text acme_db bakery_db 0 vault_ok_acme) as (_ & ->).
  - vm_compute. reflexivity.
  - vm_compute. reflexivity.
Defined.

(** X11. Right after "Process & Save" in a well-formed vault, the detail
    section for the new id shows "no line items" when the extractor found
    none, and otherwise the reconciliation of the extracted items with the
    extracted total and tax. *)
Theorem detail_of_saved_receipt (now now' : datetime)
        (filename raw_text : str) (d d' : App.db) (t : float) :
  vault_ok d ->
  App.process_and_save now now' filename raw_text d = (d', App.Saved t) ->
  let rd := parse_receipt_data now raw_text in
  let id := (App.receipts_seq d + 1)%Z in
  App.detail_section d' id
  = match parse_line_items_data raw_text with
    | [] => App.NoLineItems
    | items => App.Validation
                 (App.reconcile (bill_of id (merchant rd) items)
                                (total rd) (tax rd))
    end.
Proof.
  intros H Hp rd id. destruct (process_saved_inv _ _ _ _ _ Hp) as (_ & -> & _).
  fold rd. unfold App.detail_section.
  rewrite (saved_receipt_bill now' rd filename _ H).
  rewrite (saved_receipt_metadata now' rd filename _ H).
  destruct H as ((_ & _ & H0) & _).
  replace (id =? 0)%Z with false by (symmetry; apply Z.eqb_neq; unfold id; lia).
  unfold vault_after_save at 1. cbn [App.receipts].
  destruct (App.receipts d ++ _) eqn:E.
  - apply app_eq_nil in E. destruct E as [_ E]. discriminate.
  - fold id. destruct (parse_line_items_data raw_text); reflexivity.
Qed.

Lemma detail_of_saved_receipt_witness :
  App.detail_section acme_db 1
  = App.Validation (App.Reconciliation 8 8.64 0 true).
Proof.
  refine (eq_trans
            (@detail_of_saved_receipt noon noon (lit "acme.png") acme_text
               App.empty_db acme_db 0.64 vault_ok_empty _) _).
  - vm_compute. reflexivity.
  - vm_compute. reflexivity.
Defined.

(** * Further properties of main.py *)

Lemma rowids_ok_insert_items2 (rid : Z) (items : list line_item) :
  forall ids seq,
    rowids_ok ids seq ->
    rowids_ok (ids ++ map Milestone2.l_id (Milestone2.insert_items rid seq items))
              (seq + Z.of_nat (length items)).
Proof.
  induction items as [|it items IH]; intros ids seq H.
  - simpl. rewrite app_nil_r, Z.add_0_r. exact H.
  - cbn [Milestone2.insert_items map Milestone2.l_id length].
    replace (seq + Z.of_nat (S (length items)))%Z
      with ((seq + 1) + Z.of_nat (length items))%Z by lia.
    change (ids ++ (seq + 1)%Z :: ?l) with (ids ++ [(seq + 1)%Z] ++ l).
    rewrite app_assoc. apply IH, rowids_ok_snoc, H.
Qed.

Lemma insert_items2_receipt_id rid seq items l :
  In l (Milestone2.insert_items rid seq items) -> Milestone2.l_receipt_id l = rid.
Proof.
  revert seq. induction items as [|it items IH]; intros seq; simpl; [tauto|].
  intros [<-|H]; [reflexivity | eapply IH; eauto].
Qed.

Lemma insert_items2_lines rid seq items :
  map (fun l => LineItem (Milestone2.l_name l) (Milestone2.l_qty l)
                         (Milestone2.l_price l))
      (Milestone2.insert_items rid seq items)
  = items.
Proof.
  revert seq. induction items as [|[n q p] items IH]; intros seq; simpl;
    [reflexivity|]. rewrite IH. reflexivity.
Qed.

Lemma save2_inv now d data filename items d' id :
  Milestone2.save_receipt_to_db now d data filename items = (d', Some id) ->
  id = (Milestone2.receipts_seq d + 1)%Z /\
  d' = Milestone2.Db
         (Milestone2.receipts d
          ++ [Milestone2.ReceiptRow id (Milestone2.merchant data)
                (Milestone2.date data) (Milestone2.invoice_number data)
                (Milestone2.subtotal data) (Milestone2.tax data)
                (Milestone2.total data) filename (strftime_stamp now)])
         (Milestone2.line_items d
          ++ Milestone2.insert_items id (Milestone2.line_items_seq d) items)
         id
         (Milestone2.line_items_seq d + Z.of_nat (length items)).
Proof.
  unfold Milestone2.save_receipt_to_db.
  destruct (forallb _ items); [|discriminate].
  intros H. injection H as <- <-. split; reflexivity.
Qed.

Lemma sorted_filter (f : Z -> bool) (ids : list Z) :
  StronglySorted Z.lt ids -> StronglySorted Z.lt (filter f ids).
Proof.
  induction 1 as [|a l Hs IH Hf]; simpl; [constructor|].
  destruct (f a); [|exact IH]. constructor; [exact IH|].
  apply Forall_forall. intros x Hx. apply filter_In in Hx.
  rewrite Forall_forall in Hf. apply Hf, Hx.
Qed.

Lemma map_filter_key (A : Type) (key : A -> Z) (f : Z -> bool) (l : list A) :
  map key (filter (fun x => f (key x)) l) = filter f (map key l).
Proof.
  induction l as [|a l IH]; simpl; [reflexivity|].
  destruct (f (key a)); simpl; rewrite IH; reflexivity.
Qed.

Lemma rowids_ok_filter (f : Z -> bool) ids seq :
  rowids_ok ids seq -> rowids_ok (filter f ids) seq.
Proof.
  intros (Hs & Hf & H0). repeat split; [apply sorted_filter, Hs | | exact H0].
  apply Forall_forall. intros x Hx. apply filter_In in Hx.
  rewrite Forall_forall in Hf. apply Hf, Hx.
Qed.

Lemma rowids_ok_sublist (A : Type) (key : A -> Z) (f : A -> bool) l seq :
  rowids_ok (map key l) seq -> rowids_ok (map key (filter f l)) seq.
Proof.
  intros (Hs & Hf & H0). repeat split; [| | exact H0].
  - clear Hf. induction l as [|a l IH]; simpl in *; [constructor|].
    inversion Hs as [|? ? Hs' Hfa]; subst.
    destruct (f a); simpl; [|apply IH, Hs'].
    constructor; [apply IH, Hs'|].
    apply Forall_forall. intros x Hx. apply in_map_iff in Hx.
    destruct Hx as (y & <- & Hy). apply filter_In in Hy.
    rewrite Forall_forall in Hfa. apply Hfa, in_map, Hy.
  - apply Forall_forall. intros x Hx. apply in_map_iff in Hx.
    destruct Hx as (y & <- & Hy). apply filter_In in Hy.
    rewrite Forall_forall in Hf. apply Hf, in_map, Hy.
Qed.

Lemma vault2_ok_empty : vault2_ok Milestone2.empty_db.
Proof. repeat split; simpl; try constructor; lia. Qed.

Lemma vault2_ok_save now d data filename items :
  vault2_ok d ->
  vault2_ok (fst (Milestone2.save_receipt_to_db now d data filename items)).
Proof.
  intros (Hr & Hl & Hfk). unfold Milestone2.save_receipt_to_db.
  destruct (forallb _ items); cbn [fst]; [|repeat split; auto; apply Hr || apply Hl].
  split; [|split]; cbn [Milestone2.receipts Milestone2.line_items
                        Milestone2.receipts_seq Milestone2.line_items_seq].
  - rewrite map_app. apply rowids_ok_snoc, Hr.
  - rewrite map_app. apply rowids_ok_insert_items2, Hl.
  - apply Forall_app. split.
    + eapply Forall_impl; [|exact Hfk]. simpl. intros l Hin.
      rewrite map_app. apply in_or_app. left; exact Hin.
    + apply Forall_forall. intros l Hin.
      rewrite (insert_items2_receipt_id _ _ _ _ Hin), map_app.
      apply in_or_app. right. left. reflexivity.
Qed.

Lemma vault2_ok_delete d id :
  vault2_ok d -> vault2_ok (Milestone2.delete_receipt d id).
Proof.
  intros (Hr & Hl & Hfk). unfold Milestone2.delete_receipt.
  split; [|split]; cbn [Milestone2.receipts Milestone2.line_items
                        Milestone2.receipts_seq Milestone2.line_items_seq].
  - apply rowids_ok_sublist, Hr.
  - apply rowids_ok_sublist, Hl.
  - apply Forall_forall. intros l Hl0. apply filter_In in Hl0.
    destruct Hl0 as [Hin Hne]. rewrite Forall_forall in Hfk.
    specialize (Hfk l Hin). apply in_map_iff in Hfk.
    destruct Hfk as (r & Er & Hr0). apply in_map_iff. exists r.
    split; [exact Er|]. apply filter_In. split; [exact Hr0|].
    rewrite Er. exact Hne.
Qed.

(** X12. main.py keeps its vault well formed: saving a receipt, deleting one
    and clearing the database leave the ids positive, increasing and no
    greater than their counters, and leave no line item without its
    receipt. *)
Theorem vault_of_main_stays_well_formed (now : datetime) (d : Milestone2.db)
        (data : Milestone2.receipt) (filename : str) (items : list line_item)
        (id : Z) :
  vault2_ok d ->
  vault2_ok (fst (Milestone2.save_receipt_to_db now d data filename items)) /\
  vault2_ok (Milestone2.delete_receipt d id) /\
  vault2_ok (Milestone2.clear_database d) /\
  vault2_ok (Milestone2.init_db (Some d)) /\
  vault2_ok (Milestone2.init_db None).
Proof.
  intros H. split; [apply vault2_ok_save, H|].
  split; [apply vault2_ok_delete, H|].
  split; [|split; [exact H | apply vault2_ok_empty]].
  destruct H as ((_ & _ & H1) & (_ & _ & H2) & _).
  repeat split; simpl; try constructor; assumption.
Qed.

Lemma option_str_eqb_refl a : option_str_eqb a a = true.
Proof. apply option_str_eqb_eq. reflexivity. Qed.

Lemma is_nan_Prim2SF x : is_nan x = true -> Prim2SF x = S754_nan.
Proof. unfold Prim2SF. intros ->. reflexivity. Qed.

Lemma SFadd_nan_l y : SFadd prec emax S754_nan y = S754_nan.
Proof. reflexivity. Qed.

Lemma SFadd_nan_r x : SFadd prec emax x S754_nan = S754_nan.
Proof. destruct x; reflexivity. Qed.

Lemma SFsub_nan_l y : SFsub prec emax S754_nan y = S754_nan.
Proof. reflexivity. Qed.

Lemma SFsub_nan_r x : SFsub prec emax x S754_nan = S754_nan.
Proof. destruct x; reflexivity. Qed.

Lemma sql_eq_refl (field : Milestone2.text_field) :
  Milestone2.sql_eq field field = present field.
Proof. destruct field; simpl; [apply str_eqb_refl | reflexivity]. Qed.

Lemma sql_eq_absent (column field : Milestone2.text_field) :
  present field = false -> Milestone2.sql_eq column field = false.
Proof. destruct column, field; simpl; congruence. Qed.

Lemma eqb_nan_r (x t : float) : is_nan t = true -> (x =? t)%float = false.
Proof.
  intros H. rewrite eqb_spec, (is_nan_Prim2SF _ H).
  destruct (Prim2SF x); reflexivity.
Qed.

Lemma new_row_is_duplicate id (data : Milestone2.receipt) filename stamp :
  duplicate_ofb (Milestone2.merchant data) (Milestone2.date data)
    (Milestone2.total data) (Milestone2.invoice_number data)
    (Milestone2.ReceiptRow id (Milestone2.merchant data) (Milestone2.date data)
       (Milestone2.invoice_number data) (Milestone2.subtotal data)
       (Milestone2.tax data) (Milestone2.total data) filename stamp)
  = present (Milestone2.merchant data) && present (Milestone2.date data)
    && negb (is_nan (Milestone2.total data)).
Proof.
  unfold duplicate_ofb.
  cbn [Milestone2.r_merchant Milestone2.r_date Milestone2.r_total_amount
       Milestone2.r_invoice_number].
  rewrite !sql_eq_refl, option_str_eqb_refl, orb_true_r, andb_true_r.
  unfold is_nan. rewrite negb_involutive. reflexivity.
Qed.

(** A query with a null merchant, a null date or a NaN total selects no
    row. *)
Lemma null_query_selects_nothing merchant date total invoice_num r :
  present merchant && present date && negb (is_nan total) = false ->
  duplicate_ofb merchant date total invoice_num r = false.
Proof.
  unfold duplicate_ofb. intros H.
  rewrite !andb_false_iff, negb_false_iff in H. destruct H as [[H|H]|H].
  - rewrite (@sql_eq_absent _ _ H). reflexivity.
  - rewrite (@sql_eq_absent _ _ H), andb_false_r. reflexivity.
  - rewrite (@eqb_nan_r _ _ H), andb_false_r. reflexivity.
Qed.

(** X13. A saved receipt counts as a duplicate of itself from then on: the
    check for its merchant, date, total and invoice number finds one match
    more than before the save.  The exceptions are a receipt whose
    merchant or date is the [None] of a JSON null, stored as NULL, and a
    receipt whose total is NaN: no query ever equals these, and the check
    finds nothing, before the save and after it. *)
Theorem saved_receipt_raises_duplicate_count (now : datetime)
        (d d' : Milestone2.db) (data : Milestone2.receipt) (filename : str)
        (items : list line_item) (id : Z) :
  Milestone2.save_receipt_to_db now d data filename items = (d', Some id) ->
  let check rows :=
    Milestone2.check_if_receipt_exists rows (Milestone2.merchant data)
      (Milestone2.date data) (Milestone2.total data)
      (Milestone2.invoice_number data) in
  check (Milestone2.receipts d')
  = if present (Milestone2.merchant data) && present (Milestone2.date data)
       && negb (is_nan (Milestone2.total data))
    then (true, S (snd (check (Milestone2.receipts d))))
    else (false, 0).
Proof.
  intros Hs check. destruct (save2_inv _ _ _ _ _ Hs) as (_ & ->).
  subst check. cbv beta. rewrite !check_if_receipt_exists_count. cbv zeta.
  cbn [Milestone2.receipts snd].
  destruct (present (Milestone2.merchant data) && present (Milestone2.date data)
            && negb (is_nan (Milestone2.total data))) eqn:E.
  - rewrite filter_app, length_app. cbn [filter].
    rewrite new_row_is_duplicate, E. cbn [length].
    rewrite Nat.add_1_r. reflexivity.
  - rewrite filter_none; [reflexivity|].
    intros r _. apply null_query_selects_nothing, E.
Qed.

Lemma saved_receipt_raises_duplicate_count_witness :
  let data := Milestone2.Receipt (Some (lit "Acme Mart"))
                                 (Some (lit "2024-01-15"))
                                 (Some (lit "INV-7")) 8 0.64 8.64 in
  let d' := fst (Milestone2.save_receipt_to_db noon Milestone2.empty_db data
                                               (lit "acme.png") []) in
  Milestone2.check_if_receipt_exists (Milestone2.receipts d')
    (Some (lit "Acme Mart")) (Some (lit "2024-01-15")) 8.64
    (Some (lit "INV-7")) = (true, 1).
Proof.
  cbv zeta.
  refine (eq_trans
            (@saved_receipt_raises_duplicate_count noon Milestone2.empty_db _
               (Milestone2.Receipt (Some (lit "Acme Mart"))
                                   (Some (lit "2024-01-15"))
                                   (Some (lit "INV-7")) 8 0.64 8.64)
               (lit "acme.png") [] 1 _) _).
  - vm_compute. reflexivity.
  - vm_compute. reflexivity.
Defined.

(** The receipt the model replied with a null merchant is saved and never
    found again. *)
Example null_merchant_is_never_found :
  let data := Milestone2.Receipt None (Some (lit "2024-01-15")) None
                                 8 0.64 8.64 in
  let d' := fst (Milestone2.save_receipt_to_db noon Milestone2.empty_db data
                                               (lit "acme.png") []) in
  length (Milestone2.receipts d') = 1 /\
  Milestone2.check_if_receipt_exists (Milestone2.receipts d') None
    (Some (lit "2024-01-15")) 8.64 None = (false, 0).
Proof. vm_compute. split; reflexivity. Qed.

Lemma filter_filter_same (A : Type) (f : A -> bool) (l : list A) :
  filter f (filter f l) = filter f l.
Proof.
  apply filter_all. intros x Hx. apply filter_In in Hx. apply Hx.
Qed.

Lemma filter_comm_and (A : Type) (f g : A -> bool) (l : list A) :
  filter f (filter g l) = filter (fun x => g x && f x) l.
Proof.
  induction l as [|a l IH]; simpl; [reflexivity|].
  destruct (g a); simpl; [destruct (f a)|]; rewrite IH; reflexivity.
Qed.

(** X14. Deleting a bill removes that receipt and its line items and nothing
    else: afterwards the receipt list holds exactly the other receipts, the
    bill's line items are gone, the line items of every other bill are as
    before, and deleting it again changes nothing. *)
Theorem delete_removes_one_bill (d : Milestone2.db) (id : Z) :
  let d' := Milestone2.delete_receipt d id in
  (forall r, In r (Milestone2.get_all_receipts d') <->
             In r (Milestone2.get_all_receipts d) /\ Milestone2.r_id r <> id) /\
  Milestone2.get_line_items d' id = [] /\
  (forall other, other <> id ->
     Milestone2.get_line_items d' other = Milestone2.get_line_items d other) /\
  Milestone2.delete_receipt d' id = d'.
Proof.
  cbv zeta. unfold Milestone2.get_all_receipts, Milestone2.get_line_items,
    Milestone2.delete_receipt.
  cbn [Milestone2.receipts Milestone2.line_items Milestone2.receipts_seq
       Milestone2.line_items_seq].
  split; [|split; [|split]].
  - intros r. rewrite !order_by_desc_In, filter_In, negb_true_iff, Z.eqb_neq.
    tauto.
  - rewrite filter_comm_and, filter_none; [reflexivity|].
    intros l _. destruct (Milestone2.l_receipt_id l =? id)%Z; reflexivity.
  - intros other Hne. f_equal. rewrite filter_comm_and. apply filter_ext.
    intros l. destruct (Milestone2.l_receipt_id l =? other)%Z eqn:E;
      [|apply andb_false_r].
    apply Z.eqb_eq in E. rewrite E.
    replace (other =? id)%Z with false by (symmetry; apply Z.eqb_neq, Hne).
    reflexivity.
  - rewrite !filter_filter_same. reflexivity.
Qed.

(** X15. An id is never given twice in main.py: in a well-formed vault, the
    receipt saved after a bill was deleted, or after the database was
    cleared, gets an id above that of every receipt stored before. *)
Theorem ids_are_never_reused (now : datetime) (d d' : Milestone2.db)
        (data : Milestone2.receipt) (filename : str) (items : list line_item)
        (gone id : Z) (r : Milestone2.receipt_row) :
  vault2_ok d ->
  In r (Milestone2.receipts d) ->
  Milestone2.save_receipt_to_db now (Milestone2.delete_receipt d gone) data
                                filename items = (d', Some id)
  \/ Milestone2.save_receipt_to_db now (Milestone2.clear_database d) data
                                   filename items = (d', Some id) ->
  (Milestone2.r_id r < id)%Z.
Proof.
  intros ((_ & Hf & _) & _) Hin Hs.
  rewrite Forall_forall in Hf. specialize (Hf _ (in_map Milestone2.r_id _ _ Hin)).
  simpl in Hf.
  destruct Hs as [Hs|Hs]; destruct (save2_inv _ _ _ _ _ Hs) as (-> & _);
    simpl; lia.
Qed.

Lemma ids_are_never_reused_witness :
  let data := Milestone2.Receipt (Some (lit "Acme Mart")) (Some (lit "2024-01-15")) None
                                 8 0.64 8.64 in
  let d1 := fst (Milestone2.save_receipt_to_db noon Milestone2.empty_db data
                                               (lit "a.png") []) in
  snd (Milestone2.save_receipt_to_db noon (Milestone2.delete_receipt d1 1) data
                                     (lit "b.png") []) = Some 2%Z /\
  (1 < 2)%Z.
Proof.
  cbv zeta. split; [vm_compute; reflexivity|].
  refine (@ids_are_never_reused noon
            (fst (Milestone2.save_receipt_to_db noon Milestone2.empty_db
                    (Milestone2.Receipt (Some (lit "Acme Mart")) (Some (lit "2024-01-15"))
                                        None 8 0.64 8.64) (lit "a.png") []))
            _ (Milestone2.Receipt (Some (lit "Acme Mart")) (Some (lit "2024-01-15")) None
                                  8 0.64 8.64)
            (lit "b.png") [] 1 2
            (Milestone2.ReceiptRow 1 (Some (lit "Acme Mart")) (Some (lit "2024-01-15")) None
                                   8 0.64 8.64 (lit "a.png")
                                   (lit "2024-01-15 12:00:00")) _ _ _).
  - apply vault2_ok_save, vault2_ok_empty.
  - vm_compute. left. reflexivity.
  - left. vm_compute. reflexivity.
Defined.

Lemma filter_length_le (A : Type) (f g : A -> bool) (l : list A) :
  (forall x, f x = true -> g x = true) ->
  length (filter f l) <= length (filter g l).
Proof.
  intros H. induction l as [|a l IH]; simpl; [lia|].
  destruct (f a) eqn:E.
  - rewrite (H a E). simpl. lia.
  - destruct (g a); simpl; lia.
Qed.

(** X16. Supplying an invoice number can only narrow the search: the check
    never counts more matches with it than without it, and an empty invoice
    number or the sentinel "Unknown" gives the same answer as none. *)
Theorem invoice_number_narrows_the_search
        (rows : list Milestone2.receipt_row)
        (merchant date : Milestone2.text_field)
        (total : float) (invoice_num : option str) :
  let check := Milestone2.check_if_receipt_exists rows merchant date total in
  snd (check invoice_num) <= snd (check None) /\
  check (Some UNKNOWN) = check None /\ check (Some []) = check None.
Proof.
  cbv zeta. split; [|split; reflexivity].
  rewrite !check_if_receipt_exists_count. cbn [snd].
  apply filter_length_le. intros r. unfold duplicate_ofb.
  cbn [Milestone2.given negb orb]. rewrite !andb_true_iff.
  intros (((H1 & H2) & H3) & _). auto.
Qed.


(** X17. A receipt with a NaN among its subtotal, tax and total never passes
    the math rule. *)
Theorem nan_amount_fails_math_rule (data : Milestone2.receipt)
        (is_dup_bool : bool) :
  is_nan (Milestone2.subtotal data) || is_nan (Milestone2.tax data)
  || is_nan (Milestone2.total data) = true ->
  fst (Milestone2.math (Milestone2.validate_receipt data is_dup_bool)) = false.
Proof.
  intros H. unfold Milestone2.validate_receipt. cbn [Milestone2.math].
  assert (E : Prim2SF (abs (Milestone2.subtotal data + Milestone2.tax data
                            - Milestone2.total data)) = S754_nan).
  { rewrite abs_spec, sub_spec, add_spec. unfold SF64sub, SF64add.
    rewrite !orb_true_iff in H. destruct H as [[H|H]|H];
      rewrite (is_nan_Prim2SF _ H).
    - rewrite SFadd_nan_l, SFsub_nan_l. reflexivity.
    - rewrite SFadd_nan_r, SFsub_nan_l. reflexivity.
    - rewrite SFsub_nan_r. reflexivity. }
  rewrite leb_spec, E. reflexivity.
Qed.

Lemma nan_amount_fails_math_rule_witness :
  fst (Milestone2.math
         (Milestone2.validate_receipt
            (Milestone2.Receipt (Some (lit "Acme Mart")) (Some (lit "2024-01-15")) None
                                10 0.8 nan) false)) = false.
Proof.
  apply nan_amount_fails_math_rule. vm_compute. reflexivity.
Defined.

(** ** The labels of "Bill History" *)

Lemma uint_chars_are_digits (d : Decimal.uint) :
  forallb is_digit (lit (NilEmpty.string_of_uint d)) = true.
Proof. induction d; simpl; auto. Qed.

Lemma uint_acc_value (d : Decimal.uint) :
  forall acc,
    Zpos (Pos.of_uint_acc d acc)
    = fold_left (fun a c => (10 * a + digit_val c)%Z)
                (lit (NilEmpty.string_of_uint d)) (Zpos acc).
Proof.
  induction d; intros acc;
    cbn [NilEmpty.string_of_uint lit list_ascii_of_string fold_left
         Pos.of_uint_acc];
    [reflexivity | rewrite IHd; f_equal; vm_compute (digit_val _); lia ..].
Qed.

Lemma uint_value (d : Decimal.uint) :
  Z.of_N (Pos.of_uint d) = digits_val (lit (NilEmpty.string_of_uint d)).
Proof.
  unfold digits_val.
  induction d;
    cbn [NilEmpty.string_of_uint lit list_ascii_of_string fold_left
         Pos.of_uint];
    [reflexivity | exact IHd | cbn [Z.of_N]; rewrite uint_acc_value; reflexivity ..].
Qed.

(** [int(str(n)) == n] for a natural number [n]. *)
Lemma py_int_dec_N (n : N) :
  dec_N n <> [] /\ forallb is_digit (dec_N n) = true /\
  py_int (dec_N n) = Some (Z.of_N n).
Proof.
  unfold dec_N.
  assert (Hne : lit (NilEmpty.string_of_uint (N.to_uint n)) <> []).
  { destruct n as [|p]; [discriminate|]. unfold N.to_uint.
    pose proof (DecimalPos.Unsigned.to_uint_nonnil p) as H.
    destruct (Pos.to_uint p); [contradiction | discriminate ..]. }
  split; [exact Hne|]. split; [apply uint_chars_are_digits|].
  unfold py_int. rewrite uint_chars_are_digits, <- uint_value.
  change (Pos.of_uint (N.to_uint n)) with (N.of_uint (N.to_uint n)).
  rewrite DecimalN.Unsigned.of_to.
  destruct (lit _); [contradiction | reflexivity].
Qed.

Lemma startswith_app (x b : str) : startswith x (x ++ b) = true.
Proof. apply startswith_iff. exists b. reflexivity. Qed.

Lemma split_str_from_first (sep p tail : str) :
  sep <> [] -> no_start sep p (sep ++ tail) ->
  forall fuel cur,
    length p < fuel ->
    exists rest,
      split_str_from fuel sep (p ++ sep ++ tail) cur = (rev cur ++ p) :: rest.
Proof.
  intros Hsep. induction p as [|c p IH]; intros Hno fuel cur Hfuel.
  - destruct fuel as [|f]; [simpl in Hfuel; lia|]. cbn [app split_str_from].
    destruct (sep ++ tail) as [|c s] eqn:E.
    + destruct sep; [contradiction | discriminate].
    + rewrite <- E, startswith_app, app_nil_r. eexists. reflexivity.
  - destruct fuel as [|f]; [simpl in Hfuel; lia|]. destruct Hno as [H1 H2].
    cbn [app split_str_from]. change (c :: p ++ sep ++ tail)
      with ((c :: p) ++ sep ++ tail). rewrite H1.
    destruct (IH H2 f (c :: cur)) as [rest E]; [simpl in Hfuel; lia|].
    rewrite E. exists rest. cbn [rev]. rewrite <- app_assoc. reflexivity.
Qed.

Lemma replace_from_no_occurrence (old new s : str) :
  no_start old s [] -> forall fuel, replace_from fuel old new s = s.
Proof.
  induction s as [|c s IH]; intros Hno fuel; destruct fuel as [|f];
    try reflexivity.
  destruct Hno as [H1 H2]. cbn [replace_from].
  rewrite app_nil_r in H1. rewrite H1, (IH H2). reflexivity.
Qed.

Lemma digits_have_no_start (sep ds tail : str) :
  match sep with [] => False | c :: _ => is_digit c = false end ->
  forallb is_digit ds = true -> no_start sep ds tail.
Proof.
  intros Hsep. induction ds as [|d ds IH]; intros Hds; simpl; [exact I|].
  simpl in Hds. apply andb_true_iff in Hds. destruct Hds as [Hd Hds].
  split; [|apply IH, Hds].
  destruct sep as [|c sep]; [contradiction|]. simpl.
  destruct (Ascii.eqb c d) eqn:E; [|reflexivity].
  apply Ascii.eqb_eq in E. subst d. congruence.
Qed.

Lemma digit_is_not_dash d : is_digit d = true -> Ascii.eqb "-"%char d = false.
Proof. destruct d as [[] [] [] [] [] [] [] []]; vm_compute; congruence. Qed.

Lemma no_start_app (sep p q tail : str) :
  no_start sep p (q ++ tail) -> no_start sep q tail ->
  no_start sep (p ++ q) tail.
Proof.
  induction p as [|c p IH]; intros Hp Hq; [exact Hq|].
  destruct Hp as [H1 H2]. cbn [app no_start]. split; [|apply IH; assumption].
  change (c :: p ++ q) with ((c :: p) ++ q). rewrite <- app_assoc. exact H1.
Qed.

(** The first piece of a split is what comes before the first separator. *)
Lemma split_str_first (sep p tail : str) :
  sep <> [] -> no_start sep p (sep ++ tail) ->
  exists rest, split_str sep (p ++ sep ++ tail) = Some (p :: rest).
Proof.
  intros Hsep Hno. unfold split_str.
  destruct (@split_str_from_first sep p tail Hsep Hno
              (length (p ++ sep ++ tail)) []) as [rest E].
  - rewrite !length_app. destruct sep; [contradiction | simpl; lia].
  - exists rest. destruct sep; [contradiction|]. rewrite E. reflexivity.
Qed.

Lemma skipn_length_app (A : Type) (a b : list A) : skipn (length a) (a ++ b) = b.
Proof. induction a as [|x a IH]; simpl; auto. Qed.

(** Replacing a prefix that does not occur again. *)
Lemma replace_str_prefix (old new s : str) :
  old <> [] -> no_start old s [] -> replace_str old new (old ++ s) = new ++ s.
Proof.
  intros Hold Hno. unfold replace_str.
  destruct old as [|c old]; [contradiction|].
  destruct (length ((c :: old) ++ s)) as [|fuel] eqn:El; [discriminate|].
  cbn [app replace_from].
  change (c :: old ++ s) with ((c :: old) ++ s).
  rewrite startswith_app, skipn_length_app, replace_from_no_occurrence; auto.
Qed.

(** X18. The id read back from a label of "Bill History" is the id the label
    was made from, whatever the merchant and the printed total are, so the
    button "Delete Bill" deletes the bill that is selected. *)
Theorem label_gives_back_the_id (d : Milestone2.db) (id : Z)
        (merchant total_text : str) :
  (0 <= id)%Z ->
  Milestone2.selected_id (Milestone2.label id merchant total_text) = Some id /\
  Milestone2.delete_selected d (Milestone2.label id merchant total_text)
  = Milestone2.delete_receipt d id.
Proof.
  intros Hid.
  assert (E : Milestone2.selected_id (Milestone2.label id merchant total_text)
              = Some id).
  { unfold Milestone2.selected_id, Milestone2.label.
    assert (Ed : dec_Z id = dec_N (Z.to_N id))
      by (destruct id; [reflexivity | reflexivity | lia]).
    rewrite Ed. destruct (py_int_dec_N (Z.to_N id)) as (Hne & Hdig & Hint).
    rewrite Z2N.id in Hint by exact Hid.
    set (ds := dec_N (Z.to_N id)) in *.
    set (tail := merchant ++ lit " ($" ++ total_text ++ lit ")").
    rewrite (app_assoc (lit "ID: ") ds).
    destruct (@split_str_first (lit " - ") (lit "ID: " ++ ds) tail)
      as [rest ->].
    - discriminate.
    - apply no_start_app.
      + cbn [lit list_ascii_of_string app no_start].
        split; [reflexivity|]. split; [reflexivity|]. split; [reflexivity|].
        split; [|exact I].
        destruct ds as [|d0 ds0]; [contradiction|].
        simpl in Hdig. apply andb_true_iff in Hdig.
        cbn [app startswith]. rewrite (digit_is_not_dash _ (proj1 Hdig)).
        reflexivity.
      + apply digits_have_no_start; [reflexivity | exact Hdig].
    - rewrite replace_str_prefix.
      + exact Hint.
      + discriminate.
      + apply digits_have_no_start; [reflexivity | exact Hdig]. }
  split; [exact E|]. unfold Milestone2.delete_selected. rewrite E. reflexivity.
Qed.

Lemma label_gives_back_the_id_witness :
  Milestone2.selected_id
    (Milestone2.label 42 (lit "Corner - Shop") (lit "8.64")) = Some 42%Z.
Proof.
  apply (proj1 (@label_gives_back_the_id Milestone2.empty_db 42
                  (lit "Corner - Shop") (lit "8.64") ltac:(lia))).
Defined.

Lemma vault_of_main_stays_well_formed_witness :
  vault2_ok
    (Milestone2.delete_receipt
       (fst (Milestone2.save_receipt_to_db noon Milestone2.empty_db
               (Milestone2.Receipt (Some (lit "Acme Mart")) (Some (lit "2024-01-15")) None
                                   8 0.64 8.64)
               (lit "acme.png") [LineItem (lit "Coffee") 1 8])) 1).
Proof.
  refine (proj1 (proj2 (@vault_of_main_stays_well_formed noon _
           (Milestone2.Receipt (Some (lit "Acme Mart")) (Some (lit "2024-01-15")) None
                               8 0.64 8.64) (lit "acme.png") [] 1 _))).
  refine (proj1 (@vault_of_main_stays_well_formed noon Milestone2.empty_db
           (Milestone2.Receipt (Some (lit "Acme Mart")) (Some (lit "2024-01-15")) None
                               8 0.64 8.64)
           (lit "acme.png") [LineItem (lit "Coffee") 1 8] 1 _)).
  repeat split; simpl; try constructor; lia.
Defined.
